(** * Cuckoo3 orchestration core: a shallow embedding and its properties

    The development follows three source files of the repository:

    - [common/cuckoo/common/task.py]      (module [Task]):  task states,
      task creation and the "unfinished tasks" query;
    - [core/cuckoo/control.py]            (module [Control]): the state
      controller's completion handlers and the analysis lock registry;
    - [machineries/.../modules/qemu.py]   (module [Qemu]): the QMP client
      and the QEMU machinery driver.

    Python objects that are mutated in place are modelled by explicit
    state passing; exceptions are modelled by a sum type [result]. *)

From Stdlib Require Import ZArith List String Ascii Bool Lia.
From stdpp Require Import base option list gmap strings.

Local Open Scope string_scope.
Local Open Scope nat_scope.
Local Open Scope list_scope.
Local Open Scope stdpp_scope.

(** ** Exceptions as values *)

Inductive result (E A : Type) : Type :=
| Ok (a : A)
| Raise (e : E).
Arguments Ok {E A} a.
Arguments Raise {E A} e.

Definition is_ok {E A} (r : result E A) : bool :=
  match r with Ok _ => true | Raise _ => false end.

(** Python's [x or y] on lists and on optional values: the left operand
    when it is truthy, the right one otherwise. *)
Definition list_or {A} (x y : list A) : list A :=
  match x with [] => y | _ :: _ => x end.

Definition opt_or {A} (x y : option A) : option A :=
  match x with Some _ => x | None => y end.

(** ** A state-and-exception monad

    A Python call may mutate the objects it is given and then raise: a
    computation returns its outcome together with the state it leaves
    behind, also when it raises. *)

Definition Eff (S E A : Type) : Type := S → result E A * S.

#[export] Instance Eff_ret {S E} : MRet (Eff S E) :=
  λ A a s, (Ok a, s).

#[export] Instance Eff_bind {S E} : MBind (Eff S E) :=
  λ A B f m s,
    match m s with
    | (Ok a, s') => f a s'
    | (Raise e, s') => (Raise e, s')
    end.

Definition raise {S E A} (e : E) : Eff S E A := λ s, (Raise e, s).
Definition get {S E} : Eff S E S := λ s, (Ok s, s).
Definition gets {S E A} (f : S → A) : Eff S E A := λ s, (Ok (f s), s).
Definition modify {S E} (f : S → S) : Eff S E unit := λ s, (Ok tt, f s).

(** [try: m except e: h e] *)
Definition try_except {S E A} (m : Eff S E A) (h : E → Eff S E A)
  : Eff S E A :=
  λ s, match m s with
       | (Ok a, s') => (Ok a, s')
       | (Raise e, s') => h e s'
       end.

(** Running a computation on a given state. *)
Ltac eff_run :=
  unfold mbind, mret, Eff_bind, Eff_ret, gets, get, modify, raise, try_except;
  simpl.

(* ================================================================== *)
(** * The entities of the data model                                   *)
(* ================================================================== *)

(** The containers of [cuckoo.common.strictcontainer], the analysis
    states of [cuckoo.common.analyses] and the path helpers of
    [cuckoo.common.storage] are imported by the sources below but are not
    part of them.  They are declared here with the fields the sources
    read and write. *)

Module Analyses.

(** Modelled from the spec: the analysis states of
    [cuckoo.common.analyses.States] (section 4.1). *)
Inductive States :=
| PENDING_IDENTIFICATION
| WAITING_MANUAL
| PENDING_PRE
| NO_SELECTED
| TASKS_PENDING
| FINISHED
| FATAL_ERROR.

#[export] Instance States_eq_dec : EqDecision States.
Proof. solve_decision. Defined.

End Analyses.

(** Modelled from the spec: a task id is "derived deterministically from
    analysis id + sequence number" ([storage.make_task_id], not in the
    sources); the pair itself stands for the derived string. *)
Definition task_id : Type := string * nat.

Definition make_task_id (analysis_id : string) (task_number : nat) : task_id :=
  (analysis_id, task_number).

(** Modelled from the spec: the [ErrorsContainer], an "append-only log of
    diagnostic strings attached to an Analysis or Task". *)
Record Errors := mkErrors {
  errors : list string;
  fatal : list string
}.

Definition Errors_merge_errors (self other : Errors) : Errors :=
  {| errors := errors self ++ errors other;
     fatal := fatal self ++ fatal other |}.

(** Modelled from the spec: [cuckoo.common.errors.ErrorTracker], the
    collector a handler writes its diagnostics to. *)
Record ErrorTracker := mkErrorTracker {
  et_errors : list string;
  et_fatal : list string
}.

Definition ErrorTracker_new : ErrorTracker :=
  {| et_errors := []; et_fatal := [] |}.

Definition fatal_error (msg : string) (t : ErrorTracker) : ErrorTracker :=
  {| et_errors := et_errors t; et_fatal := et_fatal t ++ [msg] |}.

Definition add_error (msg : string) (t : ErrorTracker) : ErrorTracker :=
  {| et_errors := et_errors t ++ [msg]; et_fatal := et_fatal t |}.

Definition has_errors (t : ErrorTracker) : bool :=
  match et_errors t, et_fatal t with [], [] => false | _, _ => true end.

Definition to_container (t : ErrorTracker) : Errors :=
  {| errors := et_errors t; fatal := et_fatal t |}.

(** A network route requested for a task. *)
Record Route := mkRoute {
  route_type : string;
  route_country : string
}.

(** The per-platform settings and the platform entries of
    [analysis.settings.platforms]. *)
Record PlatformSettings := mkPlatformSettings {
  ps_route : option Route;
  ps_command : list string;
  ps_browser : string
}.

Record Platform := mkPlatform {
  platform : string;
  os_version : string;
  tags : list string;
  p_settings : PlatformSettings
}.

Record Settings := mkSettings {
  platforms : list Platform;
  route : option Route;
  command : list string;
  browser : string;
  manual : bool;
  priority : Z
}.

(** The task summaries of [analysis.tasks]. *)
Record TaskSummary := mkTaskSummary {
  ts_id : task_id;
  ts_platform : string;
  ts_os_version : string;
  ts_state : string;
  ts_score : Z
}.

Record Analysis := mkAnalysis {
  a_id : string;
  a_kind : string;
  a_state : Analyses.States;
  a_settings : Settings;
  a_tasks : list TaskSummary;
  a_created_on : Z;
  a_target : option string;
  a_score : Z;
  a_tags : list string;
  a_errors : option Errors
}.

(** A task: both the [task_values] dict of [_create_task] and the [Task]
    container stored as [task.json].  [t_created_on] and [t_priority] are
    the keys [create_all] adds later; [t_node] and [t_errors] are unset at
    creation. *)
Record Task := mkTask {
  t_kind : string;
  t_number : nat;
  t_id : task_id;
  t_state : string;
  t_analysis_id : string;
  t_platform : string;
  t_os_version : string;
  t_machine_tags : list string;
  t_command : list string;
  t_browser : string;
  t_route : option Route;
  t_created_on : option Z;
  t_priority : option Z;
  t_score : Z;
  t_node : option string;
  t_errors : option Errors
}.

(** A row of the [db.Task] table. *)
Record DbTask := mkDbTask {
  row_id : task_id;
  row_analysis_id : string;
  row_kind : string;
  row_number : nat;
  row_state : string;
  row_platform : string;
  row_os_version : string;
  row_machine_tags : string;
  row_created_on : option Z;
  row_priority : option Z;
  row_score : Z
}.

(** The stage result artifacts. *)
Record Identification := mkIdentification {
  selected : bool;
  identified : bool;
  ident_target : option string
}.

Record Pre := mkPre {
  pre_platforms : list Platform;
  pre_target : option string;
  pre_score : Z;
  pre_tags : list string
}.

Record Post := mkPost {
  post_score : Z;
  post_tags : list string
}.

(** What the controller sees of the disk and of the database.  Each map
    stands for the files at one of the well-known paths of
    [cuckoo.common.storage]: a key is present when the file exists. *)
Record World := mkWorld {
  identjson : gmap string Identification;    (* AnalysisPaths.identjson *)
  prejson : gmap string Pre;                 (* AnalysisPaths.prejson *)
  report : gmap task_id Post;                (* TaskPaths.report *)
  task_path : gset task_id;                  (* TaskPaths.path, a directory *)
  taskjson : gmap task_id Task;              (* TaskPaths.taskjson *)
  analysisjson : gmap string Analysis;       (* AnalysisPaths.analysisjson *)
  processingerr_json : gmap task_id Errors;  (* TaskPaths.processingerr_json *)
  a_processingerr_json : gmap string Errors; (* AnalysisPaths.processingerr_json *)
  runerr_json : gmap task_id Errors;         (* TaskPaths.runerr_json *)
  db_tasks : list DbTask;                    (* the db.Task table *)
  cancel_unidentified : bool  (* cfg("cuckoo","state_control","cancel_unidentified") *)
}.

(** Field updates ([obj.field = value]). *)
Definition set_task_path (f : gset task_id → gset task_id) (w : World) : World :=
  mkWorld (identjson w) (prejson w) (report w) (f (task_path w)) (taskjson w)
          (analysisjson w) (processingerr_json w) (a_processingerr_json w) (runerr_json w) (db_tasks w)
          (cancel_unidentified w).

Definition set_taskjson (f : gmap task_id Task → gmap task_id Task) (w : World)
  : World :=
  mkWorld (identjson w) (prejson w) (report w) (task_path w) (f (taskjson w))
          (analysisjson w) (processingerr_json w) (a_processingerr_json w) (runerr_json w) (db_tasks w)
          (cancel_unidentified w).

Definition set_analysisjson (f : gmap string Analysis → gmap string Analysis)
  (w : World) : World :=
  mkWorld (identjson w) (prejson w) (report w) (task_path w) (taskjson w)
          (f (analysisjson w)) (processingerr_json w) (a_processingerr_json w) (runerr_json w)
          (db_tasks w) (cancel_unidentified w).

Definition set_processingerr_json (f : gmap task_id Errors → gmap task_id Errors)
  (w : World) : World :=
  mkWorld (identjson w) (prejson w) (report w) (task_path w) (taskjson w)
          (analysisjson w) (f (processingerr_json w)) (a_processingerr_json w) (runerr_json w)
          (db_tasks w) (cancel_unidentified w).

Definition set_a_processingerr_json (f : gmap string Errors → gmap string Errors)
  (w : World) : World :=
  mkWorld (identjson w) (prejson w) (report w) (task_path w) (taskjson w)
          (analysisjson w) (processingerr_json w) (f (a_processingerr_json w))
          (runerr_json w) (db_tasks w) (cancel_unidentified w).

Definition set_runerr_json (f : gmap task_id Errors → gmap task_id Errors)
  (w : World) : World :=
  mkWorld (identjson w) (prejson w) (report w) (task_path w) (taskjson w)
          (analysisjson w) (processingerr_json w) (a_processingerr_json w) (f (runerr_json w))
          (db_tasks w) (cancel_unidentified w).

Definition set_identjson (m : gmap string Identification) (w : World) : World :=
  mkWorld m (prejson w) (report w) (task_path w) (taskjson w)
          (analysisjson w) (processingerr_json w) (a_processingerr_json w)
          (runerr_json w) (db_tasks w) (cancel_unidentified w).

Definition set_report (m : gmap task_id Post) (w : World) : World :=
  mkWorld (identjson w) (prejson w) m (task_path w) (taskjson w)
          (analysisjson w) (processingerr_json w) (a_processingerr_json w)
          (runerr_json w) (db_tasks w) (cancel_unidentified w).

Definition set_prejson (m : gmap string Pre) (w : World) : World :=
  mkWorld (identjson w) m (report w) (task_path w) (taskjson w)
          (analysisjson w) (processingerr_json w) (a_processingerr_json w)
          (runerr_json w) (db_tasks w) (cancel_unidentified w).

Definition set_db_tasks (f : list DbTask → list DbTask) (w : World) : World :=
  mkWorld (identjson w) (prejson w) (report w) (task_path w) (taskjson w)
          (analysisjson w) (processingerr_json w) (a_processingerr_json w) (runerr_json w)
          (f (db_tasks w)) (cancel_unidentified w).

Definition set_a_state (st : Analyses.States) (a : Analysis) : Analysis :=
  mkAnalysis (a_id a) (a_kind a) st (a_settings a) (a_tasks a)
             (a_created_on a) (a_target a) (a_score a) (a_tags a) (a_errors a).

Definition set_a_settings (x : Settings) (a : Analysis) : Analysis :=
  mkAnalysis (a_id a) (a_kind a) (a_state a) x (a_tasks a)
             (a_created_on a) (a_target a) (a_score a) (a_tags a) (a_errors a).

Definition set_a_tasks (x : list TaskSummary) (a : Analysis) : Analysis :=
  mkAnalysis (a_id a) (a_kind a) (a_state a) (a_settings a) x
             (a_created_on a) (a_target a) (a_score a) (a_tags a) (a_errors a).

Definition set_a_target (x : option string) (a : Analysis) : Analysis :=
  mkAnalysis (a_id a) (a_kind a) (a_state a) (a_settings a) (a_tasks a)
             (a_created_on a) x (a_score a) (a_tags a) (a_errors a).

Definition set_a_score_tags (sc : Z) (tg : list string) (a : Analysis)
  : Analysis :=
  mkAnalysis (a_id a) (a_kind a) (a_state a) (a_settings a) (a_tasks a)
             (a_created_on a) (a_target a) sc tg (a_errors a).

Definition set_a_errors (x : option Errors) (a : Analysis) : Analysis :=
  mkAnalysis (a_id a) (a_kind a) (a_state a) (a_settings a) (a_tasks a)
             (a_created_on a) (a_target a) (a_score a) (a_tags a) x.

Definition set_platforms (x : list Platform) (s : Settings) : Settings :=
  mkSettings x (route s) (command s) (browser s) (manual s) (priority s).

Definition set_t_state (st : string) (t : Task) : Task :=
  mkTask (t_kind t) (t_number t) (t_id t) st (t_analysis_id t) (t_platform t)
         (t_os_version t) (t_machine_tags t) (t_command t) (t_browser t)
         (t_route t) (t_created_on t) (t_priority t) (t_score t) (t_node t)
         (t_errors t).

Definition set_t_score (sc : Z) (t : Task) : Task :=
  mkTask (t_kind t) (t_number t) (t_id t) (t_state t) (t_analysis_id t)
         (t_platform t) (t_os_version t) (t_machine_tags t) (t_command t)
         (t_browser t) (t_route t) (t_created_on t) (t_priority t) sc
         (t_node t) (t_errors t).

Definition set_t_errors (x : option Errors) (t : Task) : Task :=
  mkTask (t_kind t) (t_number t) (t_id t) (t_state t) (t_analysis_id t)
         (t_platform t) (t_os_version t) (t_machine_tags t) (t_command t)
         (t_browser t) (t_route t) (t_created_on t) (t_priority t)
         (t_score t) (t_node t) x.

Definition set_t_created_priority (c p : option Z) (t : Task) : Task :=
  mkTask (t_kind t) (t_number t) (t_id t) (t_state t) (t_analysis_id t)
         (t_platform t) (t_os_version t) (t_machine_tags t) (t_command t)
         (t_browser t) (t_route t) c p (t_score t) (t_node t) (t_errors t).

(** Python's [x or y] on strings. *)
Definition str_or (x y : string) : string :=
  match x with EmptyString => y | _ => x end.

(** [sep.join(l)] *)
Fixpoint join (sep : string) (l : list string) : string :=
  match l with
  | [] => ""
  | [x] => x
  | x :: l' => x +:+ sep +:+ join sep l'
  end.

(** ** Sample entities for the concrete runs below *)

Definition no_platform_settings : PlatformSettings :=
  {| ps_route := None; ps_command := []; ps_browser := "" |}.

Definition win10 : Platform :=
  {| platform := "windows"; os_version := "10"; tags := [];
     p_settings := no_platform_settings |}.

Definition win7 : Platform :=
  {| platform := "windows"; os_version := "7"; tags := ["office"];
     p_settings := no_platform_settings |}.

Definition sample_settings (is_manual : bool) (ps : list Platform) : Settings :=
  {| platforms := ps; route := None; command := []; browser := "";
     manual := is_manual; priority := 1 |}.

Definition sample_analysis (is_manual : bool) (st : Analyses.States)
  (ps : list Platform) : Analysis :=
  {| a_id := "20240101-AAAAAA"; a_kind := "standard"; a_state := st;
     a_settings := sample_settings is_manual ps; a_tasks := [];
     a_created_on := 0; a_target := None; a_score := 0; a_tags := [];
     a_errors := None |}.

Definition sample_task (n : nat) (st : string) : Task :=
  {| t_kind := "standard"; t_number := n;
     t_id := make_task_id "20240101-AAAAAA" n; t_state := st;
     t_analysis_id := "20240101-AAAAAA"; t_platform := "windows";
     t_os_version := "10"; t_machine_tags := []; t_command := [];
     t_browser := ""; t_route := None; t_created_on := Some 0%Z;
     t_priority := Some 1%Z; t_score := 0; t_node := None; t_errors := None |}.

(** A disk with no stage artifact and an empty task table. *)
Definition empty_world (cancel : bool) : World :=
  {| identjson := ∅; prejson := ∅; report := ∅; task_path := ∅;
     taskjson := ∅; analysisjson := ∅; processingerr_json := ∅;
     a_processingerr_json := ∅; runerr_json := ∅; db_tasks := [];
     cancel_unidentified := cancel |}.

(* ================================================================== *)
(** * task.py                                                          *)
(* ================================================================== *)

Module Task.

(** class States *)
Module States.
Definition PENDING : string := "pending".
Definition RUNNING : string := "running".
Definition RUN_COMPLETED : string := "run_completed".
Definition PENDING_POST : string := "pending_post".
Definition REPORTED : string := "reported".
Definition FATAL_ERROR : string := "fatal_error".
End States.

(** The exception classes of the module.  [MissingResourceError] and
    [NoTasksCreatedError] are subclasses of [TaskCreationError]. *)
Inductive exn :=
| TaskCreationError (msg : string) (reasons : list string)
| MissingResourceError (msg : string)
| NoTasksCreatedError (msg : string) (reasons : list string).

(** [isinstance(e, TaskCreationError)] holds for every class above. *)
Definition reasons_of (e : exn) : list string :=
  match e with
  | TaskCreationError _ r => r
  | MissingResourceError _ => []
  | NoTasksCreatedError _ r => r
  end.

(** The execution nodes as [_create_task] queries them:
    [nodes_tracker.nodeinfos.find_support(platform_obj, route)] answers
    whether some node has the platform, and whether one of those also
    offers the route. *)
Record NodesTracker := mkNodesTracker {
  find_support : Platform → option Route → bool * bool
}.

(** The text of [str(platform_obj)] and of a route inside a message. *)
Definition platform_str (p : Platform) : string :=
  platform p +:+ " " +:+ os_version p.

Definition route_str (r : option Route) : string :=
  match r with Some r => route_type r | None => "None" end.

(** The state [create_all] works on: the analysis object it was given
    (its [tasks] list is appended to in place) and the disk and database. *)
Definition St : Type := Analysis * World.

(** [_make_task_dirs]: [os.mkdir] of the task directory raises
    [FileExistsError] when it exists, turned into [TaskCreationError];
    the four sub-directories are then made inside the new directory. *)
Definition _make_task_dirs (tid : task_id) : Eff St exn unit :=
  w ← gets snd;
  if decide (tid ∈ task_path w)
  then raise (TaskCreationError "Task directory creation failed. Already exists" [])
  else modify (λ '(a, w), (a, set_task_path (λ d, {[tid]} ∪ d) w)).

(** The [task_values] dict literal of [_create_task]. *)
Definition task_values (analysis : Analysis) (task_number : nat)
  (platform_obj : Platform) (route : option Route) : Task :=
  {| t_kind := a_kind analysis;
     t_number := task_number;
     t_id := make_task_id (a_id analysis) task_number;
     t_state := States.PENDING;
     t_analysis_id := a_id analysis;
     t_platform := platform platform_obj;
     t_os_version := os_version platform_obj;
     t_machine_tags := tags platform_obj;
     t_command := list_or (ps_command (p_settings platform_obj))
                          (command (a_settings analysis));
     t_browser := str_or (ps_browser (p_settings platform_obj))
                         (browser (a_settings analysis));
     t_route := route;
     t_created_on := None;
     t_priority := None;
     t_score := 0;
     t_node := None;
     t_errors := None |}.

(** The summary [_create_task] appends to [analysis.tasks]. *)
Definition task_summary (task_id : task_id) (platform_obj : Platform)
  : TaskSummary :=
  {| ts_id := task_id;
     ts_platform := platform platform_obj;
     ts_os_version := os_version platform_obj;
     ts_state := States.PENDING;
     ts_score := 0 |}.

(** [_create_task] *)
Definition _create_task (nodes_tracker : NodesTracker)
  (task_number : nat) (platform_obj : Platform) : Eff St exn Task :=
  analysis ← gets fst;
  let route := opt_or (ps_route (p_settings platform_obj))
                      (route (a_settings analysis)) in
  let '(has_platform, has_route) :=
    find_support nodes_tracker platform_obj route in
  if negb has_platform
  then raise (MissingResourceError
                ("No node has machine with: " +:+ platform_str platform_obj))
  else if has_platform && bool_decide (is_Some route) && negb has_route
  then raise (MissingResourceError
                ("No nodes have the combination of platform: "
                 +:+ platform_str platform_obj +:+ " and route "
                 +:+ route_str route))
  else
    let task_id := make_task_id (a_id analysis) task_number in
    _make_task_dirs task_id;;
    let task_values := task_values analysis task_number platform_obj route in
    (* the Task container of the dict is written to TaskPaths.taskjson *)
    modify (λ '(a, w), (a, set_taskjson (<[task_id := task_values]>) w));;
    (* analysis.tasks.append({...}) *)
    modify (λ '(a, w),
      (set_a_tasks (a_tasks a ++ [task_summary task_id platform_obj]) a, w));;
    mret task_values.

(** The [for platform in analysis.settings.platforms] loop of
    [create_all], with its three accumulators.  Only
    [MissingResourceError] is caught; any other [TaskCreationError]
    leaves the loop and [create_all]. *)
Fixpoint create_loop (nodes_tracker : NodesTracker) (todo : list Platform)
  (tasks : list Task) (tasknum : nat) (resource_errors : list string)
  : Eff St exn (list Task * list string) :=
  match todo with
  | [] => mret (tasks, resource_errors)
  | platform :: todo' =>
      r ← try_except
             (t ← _create_task nodes_tracker tasknum platform; mret (inl t))
             (λ e, match e with
                   | MissingResourceError msg => mret (inr msg)
                   | _ => raise e
                   end);
      match r with
      | inl t => create_loop nodes_tracker todo' (tasks ++ [t]) (S tasknum)
                             resource_errors
      | inr msg => create_loop nodes_tracker todo' tasks tasknum
                               (resource_errors ++ [msg])
      end
  end.

(** *** Resource support and what a creation run produces *)

(** The route a task of the platform would use. *)
Definition requested_route (st : Settings) (p : Platform) : option Route :=
  opt_or (ps_route (p_settings p)) (route st).

(** A platform lacks resource support when no node offers it, or when a
    route is requested and no node offers the platform with that route. *)
Definition lacks_support (nt : NodesTracker) (st : Settings) (p : Platform)
  : bool :=
  let r := requested_route st p in
  negb (fst (find_support nt p r))
  || (bool_decide (is_Some r) && negb (snd (find_support nt p r))).

(** N and M of a platform list. *)
Definition n_requested (ps : list Platform) : nat := length ps.

Definition n_unsupported (nt : NodesTracker) (st : Settings)
  (ps : list Platform) : nat :=
  length (filter (λ p, lacks_support nt st p = true) ps).

Definition n_supported (nt : NodesTracker) (st : Settings)
  (ps : list Platform) : nat :=
  length (filter (λ p, lacks_support nt st p = false) ps).

Lemma n_supported_unsupported nt st ps :
  n_supported nt st ps + n_unsupported nt st ps = n_requested ps.
Proof.
  unfold n_supported, n_unsupported, n_requested.
  induction ps as [|p ps IH]; [done|].
  rewrite !filter_cons. destruct (lacks_support nt st p);
    repeat case_decide; try done; simpl; lia.
Qed.

(** The tasks a run over [ps] creates when nothing but resource support
    fails, numbered from [tasknum] on. *)
Fixpoint expected_tasks (nt : NodesTracker) (a : Analysis) (tasknum : nat)
  (ps : list Platform) : list Task :=
  match ps with
  | [] => []
  | p :: ps' =>
      if lacks_support nt (a_settings a) p
      then expected_tasks nt a tasknum ps'
      else task_values a tasknum p (requested_route (a_settings a) p)
           :: expected_tasks nt a (S tasknum) ps'
  end.

Lemma length_expected_tasks nt a n ps :
  length (expected_tasks nt a n ps) = n_supported nt (a_settings a) ps.
Proof.
  revert n. unfold n_supported.
  induction ps as [|p ps IH]; intros n; simpl; [done|].
  rewrite filter_cons. destruct (lacks_support nt (a_settings a) p);
    case_decide; try done; simpl; by rewrite IH.
Qed.

Lemma expected_tasks_numbers nt a n ps :
  map t_number (expected_tasks nt a n ps)
  = seq n (n_supported nt (a_settings a) ps).
Proof.
  revert n. unfold n_supported.
  induction ps as [|p ps IH]; intros n; simpl; [done|].
  rewrite filter_cons. destruct (lacks_support nt (a_settings a) p);
    case_decide; try done; simpl; by rewrite IH.
Qed.

Lemma expected_tasks_set_a_tasks nt a x n ps :
  expected_tasks nt (set_a_tasks x a) n ps = expected_tasks nt a n ps.
Proof.
  revert n. induction ps as [|p ps IH]; intros n; simpl; [done|].
  by rewrite !IH.
Qed.

Definition summary_of (t : Task) : TaskSummary :=
  {| ts_id := t_id t; ts_platform := t_platform t;
     ts_os_version := t_os_version t; ts_state := t_state t;
     ts_score := t_score t |}.

(** The effect of one successful [_create_task]: directory, document,
    summary. *)
Definition store_task (t : Task) (s : St) : St :=
  (set_a_tasks (a_tasks (fst s) ++ [summary_of t]) (fst s),
   set_taskjson (<[t_id t := t]>)
     (set_task_path (λ d, {[t_id t]} ∪ d) (snd s))).

Lemma _create_task_unsupported nt n p a w :
  lacks_support nt (a_settings a) p = true →
  ∃ msg, _create_task nt n p (a, w) = (Raise (MissingResourceError msg), (a, w)).
Proof.
  unfold lacks_support, _create_task, requested_route. intros H.
  eff_run. destruct (find_support nt p _) as [hp hr]; simpl in *.
  destruct hp; simpl in *.
  - rewrite H. by eexists.
  - by eexists.
Qed.

Lemma _create_task_supported nt n p a w :
  lacks_support nt (a_settings a) p = false →
  make_task_id (a_id a) n ∉ task_path w →
  let t := task_values a n p (requested_route (a_settings a) p) in
  _create_task nt n p (a, w) = (Ok t, store_task t (a, w)).
Proof.
  unfold lacks_support, _create_task, requested_route. intros H Hfresh.
  eff_run. destruct (find_support nt p _) as [hp hr]; simpl in *.
  destruct hp; simpl in *; [|done]. rewrite H.
  unfold _make_task_dirs. eff_run. by rewrite decide_False.
Qed.

Lemma _create_task_collision nt n p a w :
  lacks_support nt (a_settings a) p = false →
  make_task_id (a_id a) n ∈ task_path w →
  ∃ msg, _create_task nt n p (a, w) = (Raise (TaskCreationError msg []), (a, w)).
Proof.
  unfold lacks_support, _create_task, requested_route. intros H Hin.
  eff_run. destruct (find_support nt p _) as [hp hr]; simpl in *.
  destruct hp; simpl in *; [|done]. rewrite H.
  unfold _make_task_dirs. eff_run. rewrite decide_True by done. by eexists.
Qed.

(** The disk after the tasks [ts] were created in order. *)
Definition store_files (ts : list Task) (w : World) : World :=
  foldl (λ w t, set_taskjson (<[t_id t := t]>)
                  (set_task_path (λ d, {[t_id t]} ∪ d) w)) w ts.

Lemma foldl_store_task (ts : list Task) (a : Analysis) (w : World) :
  foldl (λ s t, store_task t s) (a, w) ts
  = (set_a_tasks (a_tasks a ++ map summary_of ts) a, store_files ts w).
Proof.
  revert a w. induction ts as [|t ts IH]; intros a w; simpl.
  - rewrite app_nil_r. by destruct a.
  - unfold store_task at 2. simpl. rewrite IH. simpl.
    by rewrite <- app_assoc.
Qed.

Lemma store_files_db ts w : db_tasks (store_files ts w) = db_tasks w.
Proof. revert w. induction ts as [|t ts IH]; intros w; simpl; [done|]. by rewrite IH. Qed.

(** The loop, when no task directory of the run exists beforehand:
    one task per supported platform, one reason per unsupported one. *)
Lemma create_loop_fresh nt todo : ∀ tasks tasknum errs a w,
  (∀ k, tasknum ≤ k < tasknum + n_supported nt (a_settings a) todo →
        make_task_id (a_id a) k ∉ task_path w) →
  ∃ reasons,
    length reasons = n_unsupported nt (a_settings a) todo ∧
    create_loop nt todo tasks tasknum errs (a, w) =
      (Ok (tasks ++ expected_tasks nt a tasknum todo, errs ++ reasons),
       foldl (λ s t, store_task t s) (a, w) (expected_tasks nt a tasknum todo)).
Proof.
  induction todo as [|p todo IH]; intros tasks tasknum errs a w Hfresh.
  - exists []. split; [done|]. simpl. by rewrite !app_nil_r.
  - simpl. unfold n_supported, n_unsupported in *.
    rewrite filter_cons in Hfresh. rewrite filter_cons.
    destruct (lacks_support nt (a_settings a) p) eqn:Hl.
    + rewrite decide_False in Hfresh by done. rewrite decide_True by done.
      destruct (_create_task_unsupported nt tasknum p a w Hl) as [msg Hc].
      destruct (IH tasks tasknum (errs ++ [msg]) a w Hfresh)
        as (reasons & Hlen & Hrun).
      exists (msg :: reasons). split; [simpl; by rewrite Hlen|].
      unfold mbind at 1, Eff_bind at 1, try_except at 1.
      unfold mbind at 1, Eff_bind at 1.
      rewrite Hc. eff_run. rewrite Hrun. by rewrite <- app_assoc.
    + rewrite decide_True in Hfresh by done. rewrite decide_False by done.
      simpl in Hfresh.
      pose proof (_create_task_supported nt tasknum p a w Hl) as Hc.
      simpl in Hc.
      set (t := task_values a tasknum p _) in *.
      destruct (IH (tasks ++ [t]) (S tasknum) errs
                   (fst (store_task t (a, w))) (snd (store_task t (a, w))))
        as (reasons & Hlen & Hrun).
      { simpl. intros k Hk. unfold make_task_id.
        rewrite elem_of_union, elem_of_singleton.
        intros [[=]|Hin]; [lia|]. revert Hin. apply Hfresh. lia. }
      exists reasons. split; [done|].
      unfold mbind at 1, Eff_bind at 1, try_except at 1.
      unfold mbind at 1, Eff_bind at 1.
      rewrite Hc by (apply Hfresh; lia). eff_run.
      simpl in Hrun. rewrite expected_tasks_set_a_tasks in Hrun.
      rewrite <- app_assoc in Hrun. exact Hrun.
Qed.

(** A task dict as a row for the bulk insert: the machine tags are joined
    with commas. *)
Definition task_row (t : Task) : DbTask :=
  {| row_id := t_id t;
     row_analysis_id := t_analysis_id t;
     row_kind := t_kind t;
     row_number := t_number t;
     row_state := t_state t;
     row_platform := t_platform t;
     row_os_version := t_os_version t;
     row_machine_tags := join "," (t_machine_tags t);
     row_created_on := t_created_on t;
     row_priority := t_priority t;
     row_score := t_score t |}.

(** [create_all] *)
Definition create_all (nodes_tracker : NodesTracker)
  : Eff St exn (list Task * list string) :=
  analysis ← gets fst;
  '(tasks, resource_errors) ←
    create_loop nodes_tracker (platforms (a_settings analysis)) [] 1 [];
  match tasks with
  | [] => raise (NoTasksCreatedError "No tasks were created" resource_errors)
  | _ :: _ =>
      analysis ← gets fst;
      let tasks :=
        map (set_t_created_priority
               (Some (a_created_on analysis))
               (Some (priority (a_settings analysis)))) tasks in
      let task_rows := map task_row tasks in
      (* ses.bulk_insert_mappings(db.Task, task_rows); ses.commit() *)
      modify (λ '(a, w), (a, set_db_tasks (λ rows, rows ++ task_rows) w));;
      mret (tasks, resource_errors)
  end.

(** [create_all] when no task directory of the run exists beforehand and
    at least one platform is supported. *)
Lemma create_all_fresh nt a w :
  let ps := platforms (a_settings a) in
  (∀ k, 1 ≤ k < 1 + n_supported nt (a_settings a) ps →
        make_task_id (a_id a) k ∉ task_path w) →
  0 < n_supported nt (a_settings a) ps →
  ∃ tasks reasons,
    length tasks = n_supported nt (a_settings a) ps ∧
    length reasons = n_unsupported nt (a_settings a) ps ∧
    map t_number tasks = seq 1 (length tasks) ∧
    create_all nt (a, w) =
      (Ok (tasks, reasons),
       (set_a_tasks (a_tasks a ++ map summary_of (expected_tasks nt a 1 ps)) a,
        set_db_tasks (λ rows, rows ++ map task_row tasks)
          (store_files (expected_tasks nt a 1 ps) w))).
Proof.
  intros ps Hfresh Hpos.
  destruct (create_loop_fresh nt ps [] 1 [] a w Hfresh) as (reasons & Hlen & Hrun).
  pose proof (length_expected_tasks nt a 1 ps) as Hn.
  pose proof (expected_tasks_numbers nt a 1 ps) as Hnum.
  exists (map (set_t_created_priority (Some (a_created_on a))
                 (Some (priority (a_settings a)))) (expected_tasks nt a 1 ps)),
    reasons.
  rewrite length_map. split; [done|]. split; [done|].
  split. { rewrite map_map, Hn, <- Hnum. by apply map_ext. }
  unfold create_all. unfold mbind at 1, Eff_bind at 1, gets at 1.
  change ((a, w).1) with a.
  unfold mbind at 1, Eff_bind at 1. fold ps. rewrite Hrun.
  rewrite foldl_store_task. simpl.
  destruct (expected_tasks nt a 1 ps) as [|t ts] eqn:Et.
  { simpl in Hn. fold ps in Hn. lia. }
  by eff_run.
Qed.

(** [create_all] when no platform is supported. *)
Lemma create_all_none nt a w :
  let ps := platforms (a_settings a) in
  n_supported nt (a_settings a) ps = 0 →
  ∃ msg reasons,
    length reasons = n_unsupported nt (a_settings a) ps ∧
    create_all nt (a, w) = (Raise (NoTasksCreatedError msg reasons), (a, w)).
Proof.
  intros ps Hzero.
  destruct (create_loop_fresh nt ps [] 1 [] a w) as (reasons & Hlen & Hrun).
  { intros k Hk. fold ps in Hk. lia. }
  pose proof (length_expected_tasks nt a 1 ps) as Hn.
  fold ps in Hn. rewrite Hzero in Hn.
  destruct (expected_tasks nt a 1 ps) as [|t ts] eqn:Et; [|done].
  eexists _, reasons. split; [done|].
  unfold create_all. unfold mbind at 1, Eff_bind at 1, gets at 1.
  change ((a, w).1) with a.
  unfold mbind at 1, Eff_bind at 1. fold ps. rewrite Hrun. simpl.
  by eff_run.
Qed.

(** [merge_errors] *)
Definition merge_errors (task : Task) (errors_container : Errors) : Task :=
  match t_errors task with
  | Some errs => set_t_errors (Some (Errors_merge_errors errs errors_container)) task
  | None => set_t_errors (Some errors_container) task
  end.

(** [merge_processing_errors]: the error file is merged and removed. *)
Definition merge_processing_errors (task : Task) (w : World) : Task * World :=
  match processingerr_json w !! t_id task with
  | None => (task, w)
  | Some errs =>
      (merge_errors task errs, set_processingerr_json (delete (t_id task)) w)
  end.

(** [merge_run_errors] *)
Definition merge_run_errors (task : Task) (w : World) : Task * World :=
  match runerr_json w !! t_id task with
  | None => (task, w)
  | Some errs => (merge_errors task errs, set_runerr_json (delete (t_id task)) w)
  end.

(** [exists] *)
Definition exists_ (tid : task_id) (w : World) : bool :=
  bool_decide (is_Some (taskjson w !! tid)).

(** The states [has_unfinished_tasks] filters on. *)
Definition unfinished_states : list string :=
  [States.PENDING; States.RUNNING; States.PENDING_POST].

(** [has_unfinished_tasks]: the rows of the analysis whose state is one
    of the three are counted. *)
Definition has_unfinished_tasks (analysis_id : string) (w : World) : bool :=
  let count :=
    length (filter (λ r, row_analysis_id r = analysis_id
                         ∧ row_state r ∈ unfinished_states) (db_tasks w)) in
  bool_decide (0 < count).

(** [update_db_row] for the two columns
    [write_changes] passes. *)
Definition update_db_row (tid : task_id) (st : string) (sc : Z) (w : World)
  : World :=
  set_db_tasks
    (map (λ r, if decide (row_id r = tid)
               then mkDbTask (row_id r) (row_analysis_id r) (row_kind r)
                             (row_number r) st (row_platform r)
                             (row_os_version r) (row_machine_tags r)
                             (row_created_on r) (row_priority r) sc
               else r)) w.

(** [write_changes]: the task document is written and the [state] and
    [score] columns of its row follow.  The change tracking of the
    container ([was_updated], [updated_fields]) is not in the sources;
    the callers below assign [state] or [score] before every call, so the
    document is written and the row updated with the values it holds. *)
Definition write_changes (task : Task) (w : World) : World :=
  update_db_row (t_id task) (t_state task) (t_score task)
    (set_taskjson (<[t_id task := task]>) w).

(** *** The unfinished-tasks query *)

Lemma has_unfinished_tasks_iff aid w :
  has_unfinished_tasks aid w = true
  ↔ ∃ r, r ∈ db_tasks w ∧ row_analysis_id r = aid
         ∧ row_state r ∈ unfinished_states.
Proof.
  unfold has_unfinished_tasks. rewrite bool_decide_eq_true. split.
  - intros Hpos.
    destruct (filter _ (db_tasks w)) as [|r l] eqn:E; [simpl in Hpos; lia|].
    assert (Hr : r ∈ filter (λ r, row_analysis_id r = aid
                                  ∧ row_state r ∈ unfinished_states) (db_tasks w))
      by (rewrite E; left).
    apply list_elem_of_filter in Hr as [[? ?] ?]. eauto.
  - intros (r & Hr & Ha & Hs).
    assert (Hin : r ∈ filter (λ r, row_analysis_id r = aid
                                   ∧ row_state r ∈ unfinished_states) (db_tasks w))
      by (apply list_elem_of_filter; done).
    destruct (filter _ (db_tasks w)); [by apply elem_of_nil in Hin | simpl; lia].
Qed.

(** Another task of the analysis is still in one of the states the
    query looks for. *)
Definition sibling_unfinished (aid : string) (tid : task_id) (rows : list DbTask)
  : Prop :=
  ∃ r, r ∈ rows ∧ row_analysis_id r = aid ∧ row_id r ≠ tid
       ∧ row_state r ∈ unfinished_states.

Lemma has_unfinished_after_write aid t w :
  t_state t ∉ unfinished_states →
  has_unfinished_tasks aid (write_changes t w) = true
  ↔ sibling_unfinished aid (t_id t) (db_tasks w).
Proof.
  intros Hfin. rewrite has_unfinished_tasks_iff.
  unfold write_changes, update_db_row, sibling_unfinished. simpl. split.
  - intros (r & Hr & Ha & Hs).
    apply list_elem_of_fmap in Hr as (r0 & -> & Hr0).
    destruct (decide (row_id r0 = t_id t)) as [Heq|Hne]; simpl in *.
    + done.
    + exists r0. done.
  - intros (r & Hr & Ha & Hne & Hs). exists r. split; [|done].
    apply list_elem_of_fmap. exists r. split; [|done].
    by rewrite decide_False.
Qed.

(** *** Error files are merged once *)

Lemma t_id_merge_errors (t : Task) (c : Errors) : t_id (merge_errors t c) = t_id t.
Proof. unfold merge_errors. by destruct (t_errors t). Qed.

(** X1. [merge_processing_errors] and [merge_run_errors] consume the
    error file they merge: the file of the task is gone afterwards, the
    error files of other tasks are untouched, and merging again changes
    neither the task nor the disk, so no error is recorded twice. *)
Theorem merge_errors_consumes_file (t : Task) (w : World) :
  (let '(t1, w1) := merge_processing_errors t w in
   processingerr_json w1 !! t_id t = None
   ∧ (∀ tid, tid ≠ t_id t → processingerr_json w1 !! tid = processingerr_json w !! tid)
   ∧ runerr_json w1 = runerr_json w
   ∧ merge_processing_errors t1 w1 = (t1, w1))
  ∧ (let '(t2, w2) := merge_run_errors t w in
     runerr_json w2 !! t_id t = None
     ∧ (∀ tid, tid ≠ t_id t → runerr_json w2 !! tid = runerr_json w !! tid)
     ∧ processingerr_json w2 = processingerr_json w
     ∧ merge_run_errors t2 w2 = (t2, w2)).
Proof.
  split.
  - unfold merge_processing_errors.
    destruct (processingerr_json w !! t_id t) as [errs|] eqn:E.
    + split; [simpl; apply lookup_delete_eq|].
      split; [intros tid Hne; simpl; by apply lookup_delete_ne|].
      split; [done|].
      rewrite t_id_merge_errors. simpl. by rewrite lookup_delete_eq.
    + split; [done|]. split; [done|]. split; [done|]. by rewrite E.
  - unfold merge_run_errors.
    destruct (runerr_json w !! t_id t) as [errs|] eqn:E.
    + split; [simpl; apply lookup_delete_eq|].
      split; [intros tid Hne; simpl; by apply lookup_delete_ne|].
      split; [done|].
      rewrite t_id_merge_errors. simpl. by rewrite lookup_delete_eq.
    + split; [done|]. split; [done|]. split; [done|]. by rewrite E.
Qed.

(** *** What a run of [create_all] leaves behind *)

(** The three ways [_create_task] can end. *)
Lemma _create_task_cases nt n p a w :
  (lacks_support nt (a_settings a) p = true
   ∧ ∃ msg, _create_task nt n p (a, w) = (Raise (MissingResourceError msg), (a, w)))
  ∨ (lacks_support nt (a_settings a) p = false
     ∧ make_task_id (a_id a) n ∈ task_path w
     ∧ ∃ msg, _create_task nt n p (a, w) = (Raise (TaskCreationError msg []), (a, w)))
  ∨ (lacks_support nt (a_settings a) p = false
     ∧ (make_task_id (a_id a) n ∉ task_path w)
     ∧ let t := task_values a n p (requested_route (a_settings a) p) in
       _create_task nt n p (a, w) = (Ok t, store_task t (a, w))).
Proof.
  destruct (lacks_support nt (a_settings a) p) eqn:Hl.
  - left. split; [done|]. by apply _create_task_unsupported.
  - right. destruct (decide (make_task_id (a_id a) n ∈ task_path w)) as [Hin|Hout].
    + left. split; [done|]. split; [done|]. by apply _create_task_collision.
    + right. split; [done|]. split; [done|]. by apply _create_task_supported.
Qed.

(** A task as [_create_task] makes it for the analysis [a]. *)
Definition created_for (a : Analysis) (t : Task) : Prop :=
  t_id t = make_task_id (a_id a) (t_number t)
  ∧ t_analysis_id t = a_id a
  ∧ t_state t = States.PENDING
  ∧ t_score t = 0%Z.

Lemma created_for_task_values a n p r : created_for a (task_values a n p r).
Proof. by repeat split. Qed.

Lemma store_files_task_path ts w tid :
  tid ∈ task_path (store_files ts w) ↔ tid ∈ task_path w ∨ tid ∈ map t_id ts.
Proof.
  revert w. induction ts as [|t ts IH]; intros w; simpl.
  - rewrite elem_of_nil. tauto.
  - rewrite IH. simpl. rewrite elem_of_union, elem_of_singleton, elem_of_cons.
    tauto.
Qed.

Lemma store_files_taskjson_other ts w tid :
  tid ∉ map t_id ts → taskjson (store_files ts w) !! tid = taskjson w !! tid.
Proof.
  revert w. induction ts as [|t ts IH]; intros w Hnot; simpl; [done|].
  simpl in Hnot. rewrite not_elem_of_cons in Hnot. destruct Hnot as [Hne Hnot].
  rewrite IH by done. simpl. by rewrite lookup_insert_ne.
Qed.

Lemma store_files_taskjson ts w t :
  NoDup (map t_id ts) → t ∈ ts → taskjson (store_files ts w) !! t_id t = Some t.
Proof.
  revert w. induction ts as [|t0 ts IH]; intros w Hnd Hin; simpl.
  - by apply elem_of_nil in Hin.
  - simpl in Hnd. apply NoDup_cons in Hnd as [Hfresh Hnd].
    apply elem_of_cons in Hin as [->|Hin].
    + rewrite store_files_taskjson_other by done. simpl.
      by rewrite lookup_insert_eq.
    + by apply IH.
Qed.

(** Whenever the loop of [create_all] completes, the tasks it added are
    numbered consecutively, their directories did not exist before, and
    the state it leaves is the one storing them in order yields. *)
Lemma create_loop_ok nt todo : ∀ tasks tasknum errs a w tasks' errs' s',
  create_loop nt todo tasks tasknum errs (a, w) = (Ok (tasks', errs'), s') →
  ∃ new,
    tasks' = tasks ++ new
    ∧ map t_number new = seq tasknum (length new)
    ∧ Forall (created_for a) new
    ∧ Forall (λ t, t_id t ∉ task_path w) new
    ∧ s' = foldl (λ s t, store_task t s) (a, w) new.
Proof.
  induction todo as [|p todo IH]; intros tasks tasknum errs a w tasks' errs' s' Hrun.
  - simpl in Hrun. injection Hrun as <- <- <-. exists [].
    by rewrite app_nil_r.
  - simpl in Hrun. revert Hrun.
    unfold mbind at 1, Eff_bind at 1, try_except at 1.
    unfold mbind at 1, Eff_bind at 1.
    destruct (_create_task_cases nt tasknum p a w)
      as [(Hl & msg & ->)|[(Hl & Hin & msg & ->)|(Hl & Hout & Hc)]].
    + eff_run. intros Hrun. by apply IH in Hrun.
    + eff_run. discriminate.
    + simpl in Hc. rewrite Hc. eff_run. intros Hrun.
      set (t := task_values a tasknum p _) in *.
      apply IH in Hrun as (new & -> & Hnum & Hfor & Hfresh & ->).
      exists (t :: new). split; [by rewrite <- app_assoc|].
      split; [simpl; by rewrite Hnum|].
      split.
      { constructor; [apply created_for_task_values|].
        eapply Forall_impl; [exact Hfor|]. intros t0 (?&?&?&?). by repeat split. }
      split; [|done].
      constructor; [exact Hout|].
      eapply Forall_impl; [exact Hfresh|]. intros t0 Ht0. simpl in Ht0.
      rewrite elem_of_union in Ht0. tauto.
Qed.

(** [create_all], whenever it returns. *)
Lemma create_all_ok nt a w tasks reasons a' w' :
  create_all nt (a, w) = (Ok (tasks, reasons), (a', w')) →
  ∃ new,
    new ≠ []
    ∧ tasks = map (set_t_created_priority (Some (a_created_on a))
                     (Some (priority (a_settings a)))) new
    ∧ map t_number new = seq 1 (length new)
    ∧ Forall (created_for a) new
    ∧ Forall (λ t, t_id t ∉ task_path w) new
    ∧ a' = set_a_tasks (a_tasks a ++ map summary_of new) a
    ∧ w' = set_db_tasks (λ rows, rows ++ map task_row tasks) (store_files new w).
Proof.
  unfold create_all. unfold mbind at 1, Eff_bind at 1, gets at 1.
  change ((a, w).1) with a. unfold mbind at 1, Eff_bind at 1.
  destruct (create_loop nt (platforms (a_settings a)) [] 1 [] (a, w))
    as [[[tasks0 errs0]|e] s0] eqn:E; [|discriminate].
  apply create_loop_ok in E as (new & -> & Hnum & Hfor & Hfresh & ->).
  rewrite foldl_store_task. simpl.
  destruct new as [|t new]; [eff_run; discriminate|].
  eff_run. intros [= <- <- <- <-].
  exists (t :: new). by repeat split.
Qed.

Lemma created_ids_NoDup a (new : list Task) n :
  Forall (created_for a) new → map t_number new = seq n (length new) →
  NoDup (map t_id new).
Proof.
  intros Hfor Hnum.
  assert (Hids : map t_id new = map (make_task_id (a_id a)) (map t_number new)).
  { rewrite map_map. apply Forall_fmap_ext_1.
    eapply Forall_impl; [exact Hfor|]. by intros t (? & _). }
  rewrite Hids, Hnum. apply NoDup_fmap_2; [|apply NoDup_seq].
  by intros x y [= ->].
Qed.

(** X2. Whenever [create_all] returns, it returns at least one task,
    the tasks are numbered 1, 2, ... without gaps, and the three records
    it keeps agree: [analysis.tasks] gained exactly one summary per
    returned task, the task table gained exactly one row per returned
    task, in the same order, and every returned task has a directory
    that did not exist before and a task document with its id, all in
    state pending. *)
Theorem create_all_records_agree nt a w tasks reasons a' w' :
  create_all nt (a, w) = (Ok (tasks, reasons), (a', w')) →
  tasks ≠ []
  ∧ map t_number tasks = seq 1 (length tasks)
  ∧ a_tasks a' = a_tasks a ++ map summary_of tasks
  ∧ db_tasks w' = db_tasks w ++ map task_row tasks
  ∧ ∀ t, t ∈ tasks →
      created_for a t
      ∧ (t_id t ∉ task_path w) ∧ t_id t ∈ task_path w'
      ∧ ∃ d, taskjson w' !! t_id t = Some d ∧ summary_of d = summary_of t.
Proof.
  intros Hrun.
  apply create_all_ok in Hrun as (new & Hne & -> & Hnum & Hfor & Hfresh & -> & ->).
  split; [by destruct new|].
  split. { rewrite length_map, map_map. simpl. exact Hnum. }
  split. { simpl. by rewrite map_map. }
  split. { simpl. by rewrite store_files_db. }
  pose proof (created_ids_NoDup a new 1 Hfor Hnum) as Hnd.
  intros t Ht. apply list_elem_of_fmap in Ht as (t0 & -> & Ht0).
  rewrite Forall_forall in Hfor, Hfresh.
  destruct (Hfor t0 Ht0) as (Hid & Haid & Hst & Hsc).
  split; [by repeat split|].
  split; [exact (Hfresh t0 Ht0)|].
  split.
  { simpl. apply store_files_task_path. right.
    apply list_elem_of_fmap. by exists t0. }
  exists t0. split; [|done]. simpl.
  by apply store_files_taskjson.
Qed.

(** X3. Whenever [create_all] returns, the analysis has unfinished
    tasks: the rows it inserted are in state pending, which
    [has_unfinished_tasks] counts. *)
Theorem create_all_leaves_unfinished nt a w tasks reasons a' w' :
  create_all nt (a, w) = (Ok (tasks, reasons), (a', w')) →
  has_unfinished_tasks (a_id a) w' = true.
Proof.
  intros Hrun.
  apply create_all_ok in Hrun as (new & Hne & -> & Hnum & Hfor & Hfresh & -> & ->).
  destruct new as [|t new]; [done|].
  apply Forall_cons in Hfor as [(Hid & Haid & Hst & Hsc) _].
  apply has_unfinished_tasks_iff.
  exists (task_row (set_t_created_priority (Some (a_created_on a))
                      (Some (priority (a_settings a))) t)).
  split.
  { simpl. apply elem_of_app. right. left. }
  split; [exact Haid|].
  simpl. rewrite Hst. left.
Qed.

(** *** A failure half-way *)

(** The loop over a first part of the platforms whose task directories
    are all new goes on with the rest. *)
Lemma create_loop_app_fresh nt ps1 rest : ∀ tasks tasknum errs a w,
  (∀ k, tasknum ≤ k < tasknum + n_supported nt (a_settings a) ps1 →
        make_task_id (a_id a) k ∉ task_path w) →
  ∃ reasons,
    length reasons = n_unsupported nt (a_settings a) ps1 ∧
    create_loop nt (ps1 ++ rest) tasks tasknum errs (a, w) =
      create_loop nt rest (tasks ++ expected_tasks nt a tasknum ps1)
        (tasknum + length (expected_tasks nt a tasknum ps1)) (errs ++ reasons)
        (foldl (λ s t, store_task t s) (a, w) (expected_tasks nt a tasknum ps1)).
Proof.
  induction ps1 as [|p ps1 IH]; intros tasks tasknum errs a w Hfresh.
  - exists []. split; [done|]. simpl. by rewrite !app_nil_r, Nat.add_0_r.
  - simpl. unfold n_supported, n_unsupported in *.
    rewrite filter_cons in Hfresh. rewrite filter_cons.
    destruct (lacks_support nt (a_settings a) p) eqn:Hl.
    + rewrite decide_False in Hfresh by done. rewrite decide_True by done.
      destruct (_create_task_unsupported nt tasknum p a w Hl) as [msg Hc].
      destruct (IH tasks tasknum (errs ++ [msg]) a w Hfresh)
        as (reasons & Hlen & Hrun).
      exists (msg :: reasons). split; [simpl; by rewrite Hlen|].
      unfold mbind at 1, Eff_bind at 1, try_except at 1.
      unfold mbind at 1, Eff_bind at 1.
      rewrite Hc. eff_run. rewrite Hrun. by rewrite <- app_assoc.
    + rewrite decide_True in Hfresh by done. rewrite decide_False by done.
      simpl in Hfresh.
      pose proof (_create_task_supported nt tasknum p a w Hl) as Hc.
      simpl in Hc.
      set (t := task_values a tasknum p _) in *.
      destruct (IH (tasks ++ [t]) (S tasknum) errs
                   (fst (store_task t (a, w))) (snd (store_task t (a, w))))
        as (reasons & Hlen & Hrun).
      { simpl. intros k Hk. unfold make_task_id.
        rewrite elem_of_union, elem_of_singleton.
        intros [[=]|Hin]; [lia|]. revert Hin. apply Hfresh. lia. }
      exists reasons. split; [done|].
      unfold mbind at 1, Eff_bind at 1, try_except at 1.
      unfold mbind at 1, Eff_bind at 1.
      rewrite Hc by (apply Hfresh; lia). eff_run.
      simpl in Hrun. rewrite expected_tasks_set_a_tasks in Hrun.
      rewrite <- app_assoc in Hrun. simpl in Hrun.
      by rewrite Nat.add_succ_r.
Qed.

Lemma expected_tasks_created_for nt a n ps :
  Forall (created_for a) (expected_tasks nt a n ps).
Proof.
  revert n. induction ps as [|p ps IH]; intros n; simpl; [constructor|].
  destruct (lacks_support nt (a_settings a) p); [apply IH|].
  constructor; [apply created_for_task_values | apply IH].
Qed.

(** X4. [create_all] is not atomic.  When the directory of the task it
    is about to create for a supported platform already exists, it
    raises TaskCreationError at once: the tasks created for the
    platforms before it keep their directories and task documents and
    stay in [analysis.tasks], while no row at all has been inserted in
    the task table. *)
Theorem create_all_not_atomic nt a w ps1 p ps2 :
  platforms (a_settings a) = ps1 ++ p :: ps2 →
  lacks_support nt (a_settings a) p = false →
  let created := expected_tasks nt a 1 ps1 in
  (∀ k, 1 ≤ k ≤ length created → make_task_id (a_id a) k ∉ task_path w) →
  make_task_id (a_id a) (S (length created)) ∈ task_path w →
  ∃ msg w',
    create_all nt (a, w)
    = (Raise (TaskCreationError msg []),
       (set_a_tasks (a_tasks a ++ map summary_of created) a, w'))
    ∧ db_tasks w' = db_tasks w
    ∧ ∀ t, t ∈ created →
        t_id t ∈ task_path w' ∧ taskjson w' !! t_id t = Some t.
Proof.
  intros Hps Hl created Hfresh Hin.
  pose proof (length_expected_tasks nt a 1 ps1) as Hlen. fold created in Hlen.
  destruct (create_loop_app_fresh nt ps1 (p :: ps2) [] 1 [] a w)
    as (reasons & _ & Hrun).
  { intros k Hk. apply Hfresh. lia. }
  fold created in Hrun. rewrite foldl_store_task in Hrun.
  set (a1 := set_a_tasks (a_tasks a ++ map summary_of created) a) in *.
  set (w1 := store_files created w) in *.
  destruct (_create_task_collision nt (1 + length created) p a1 w1) as [msg Hc].
  { exact Hl. }
  { apply store_files_task_path. by left. }
  exists msg, w1. split.
  - unfold create_all. unfold mbind at 1, Eff_bind at 1, gets at 1.
    change ((a, w).1) with a. unfold mbind at 1, Eff_bind at 1.
    rewrite Hps, Hrun. simpl.
    unfold mbind at 1, Eff_bind at 1, try_except at 1.
    unfold mbind at 1, Eff_bind at 1.
    simpl in Hc. rewrite Hc. by eff_run.
  - split; [apply store_files_db|].
    intros t Ht. split.
    + apply store_files_task_path. right. apply list_elem_of_fmap. by exists t.
    + apply store_files_taskjson; [|done].
      apply (created_ids_NoDup a created 1);
        [apply expected_tasks_created_for|].
      rewrite Hlen. apply expected_tasks_numbers.
Qed.

(** *** What [write_changes] does to the task table *)

Lemma write_changes_taskjson t w :
  taskjson (write_changes t w) !! t_id t = Some t.
Proof. unfold write_changes, update_db_row. simpl. apply lookup_insert_eq. Qed.

Lemma write_changes_rows t w :
  map row_id (db_tasks (write_changes t w)) = map row_id (db_tasks w)
  ∧ (∀ r, r ∈ db_tasks (write_changes t w) → row_id r = t_id t →
          row_state r = t_state t ∧ row_score r = t_score t)
  ∧ (∀ r, r ∈ db_tasks (write_changes t w) → row_id r ≠ t_id t →
          r ∈ db_tasks w).
Proof.
  unfold write_changes, update_db_row. simpl. split; [|split].
  - rewrite map_map. apply map_ext. intros r. by case_decide.
  - intros r Hr Hid. apply list_elem_of_fmap in Hr as (r0 & -> & Hr0).
    by case_decide.
  - intros r Hr Hid. apply list_elem_of_fmap in Hr as (r0 & -> & Hr0).
    by case_decide.
Qed.

(** *** Sample runs *)

(** Nodes that offer Windows 10 machines only, with every route. *)
Definition win10_nodes : NodesTracker :=
  {| find_support := λ p _, (bool_decide (os_version p = "10"), true) |}.

(** Nodes that offer every platform with every route. *)
Definition any_nodes : NodesTracker :=
  {| find_support := λ _ _, (true, true) |}.

Lemma create_all_records_agree_witness :
  let a := sample_analysis false Analyses.PENDING_PRE [win7; win10; win10] in
  ∃ tasks reasons a' w',
    create_all win10_nodes (a, empty_world false) = (Ok (tasks, reasons), (a', w'))
    ∧ tasks ≠ []
    ∧ map t_number tasks = seq 1 (length tasks)
    ∧ a_tasks a' = a_tasks a ++ map summary_of tasks
    ∧ db_tasks w' = map task_row tasks.
Proof.
  intros a.
  destruct (create_all win10_nodes (a, empty_world false))
    as [[[tasks reasons]|e] [a' w']] eqn:E; [|vm_compute in E; discriminate E].
  exists tasks, reasons, a', w'. split; [reflexivity|].
  destruct (create_all_records_agree _ _ _ _ _ _ _ E) as (Hne & Hnum & Hsum & Hdb & _).
  split; [exact Hne|]. split; [exact Hnum|]. split; [exact Hsum|exact Hdb].
Defined.

Lemma create_all_leaves_unfinished_witness :
  let a := sample_analysis false Analyses.PENDING_PRE [win10] in
  ∃ tasks reasons a' w',
    create_all any_nodes (a, empty_world false) = (Ok (tasks, reasons), (a', w'))
    ∧ has_unfinished_tasks "20240101-AAAAAA" w' = true.
Proof.
  intros a.
  destruct (create_all any_nodes (a, empty_world false))
    as [[[tasks reasons]|e] [a' w']] eqn:E; [|vm_compute in E; discriminate E].
  exists tasks, reasons, a', w'. split; [reflexivity|].
  exact (create_all_leaves_unfinished _ _ _ _ _ _ _ E).
Defined.

(** Two supported platforms, the directory of task 2 exists already. *)
Lemma create_all_not_atomic_witness :
  let a := sample_analysis false Analyses.PENDING_PRE [win10; win7] in
  let w := set_task_path (λ _, {[ make_task_id "20240101-AAAAAA" 2 ]})
             (empty_world false) in
  ∃ msg w',
    create_all any_nodes (a, w)
    = (Raise (TaskCreationError msg []),
       (set_a_tasks [task_summary (make_task_id "20240101-AAAAAA" 1) win10] a, w'))
    ∧ db_tasks w' = []
    ∧ is_Some (taskjson w' !! make_task_id "20240101-AAAAAA" 1).
Proof.
  intros a w.
  destruct (create_all_not_atomic any_nodes a w [win10] win7 [] eq_refl eq_refl)
    as (msg & w' & E & Hdb & Hdocs).
  - intros k Hk. simpl in Hk. assert (k = 1) as -> by lia.
    unfold w. simpl. rewrite elem_of_singleton. by intros [=].
  - unfold w. simpl. by apply elem_of_singleton.
  - exists msg, w'. split; [exact E|]. split; [exact Hdb|].
    destruct (Hdocs (task_values a 1 win10 None)) as [_ Hdoc]; [left|].
    exact (mk_is_Some _ _ Hdoc).
Defined.

End Task.

(* ================================================================== *)
(** * control.py: the state controller                                 *)
(* ================================================================== *)

Module Control.

(** The collaborators reached through [worktracker.ctx]: the node
    tracker, and the requests handed to the scheduler, to the processing
    handler and to the nodes, in the order they were made. *)
Record Ctx := mkCtx {
  nodes : Task.NodesTracker;
  delete_completed_analysis : list string;     (* ctx.nodes.delete_completed_analysis *)
  queue_many : list Task;                      (* ctx.scheduler.queue_many *)
  pre_analysis : list string;                  (* ctx.processing_handler.pre_analysis *)
  post_analysis : list (string * option task_id) (* ctx.processing_handler.post_analysis *)
}.

(** class _WorkTracker, after [init()] loaded the analysis (and the task
    when [task_id] is given).  The loggers write to the process log only
    and are left out. *)
Record _WorkTracker := mkWorkTracker {
  ctx : Ctx;
  analysis_id : string;
  wt_task_id : option task_id;
  analysis : Analysis;
  task : option Task;
  errtracker : ErrorTracker
}.

Definition set_ctx (f : Ctx → Ctx) (wt : _WorkTracker) : _WorkTracker :=
  mkWorkTracker (f (ctx wt)) (analysis_id wt) (wt_task_id wt) (analysis wt)
                (task wt) (errtracker wt).

Definition set_analysis (f : Analysis → Analysis) (wt : _WorkTracker)
  : _WorkTracker :=
  mkWorkTracker (ctx wt) (analysis_id wt) (wt_task_id wt) (f (analysis wt))
                (task wt) (errtracker wt).

Definition set_task (f : Task → Task) (wt : _WorkTracker) : _WorkTracker :=
  mkWorkTracker (ctx wt) (analysis_id wt) (wt_task_id wt) (analysis wt)
                (f <$> task wt) (errtracker wt).

Definition set_errtracker (f : ErrorTracker → ErrorTracker) (wt : _WorkTracker)
  : _WorkTracker :=
  mkWorkTracker (ctx wt) (analysis_id wt) (wt_task_id wt) (analysis wt)
                (task wt) (f (errtracker wt)).

(** Exceptions that leave a handler. *)
Inductive exn :=
| AttributeError (msg : string)   (* [worktracker.task] is [None] *)
| ValueError (msg : string).

(** A handler works on the work tracker and on the disk and database. *)
Definition St : Type := _WorkTracker * World.

Definition on_wt (f : _WorkTracker → _WorkTracker) : Eff St exn unit :=
  modify (λ '(wt, w), (f wt, w)).

Definition on_world (f : World → World) : Eff St exn unit :=
  modify (λ '(wt, w), (wt, f w)).

(** [worktracker.task], which must have been loaded. *)
Definition the_task : Eff St exn Task :=
  wt ← gets fst;
  match task wt with
  | Some t => mret t
  | None => raise (AttributeError "'NoneType' object has no attribute")
  end.

(** Modelled from the spec: [analyses.write_changes], not in the sources.
    "Entity persistence: analysis/task documents are read/written as
    structured files at deterministic per-id paths": the document of the
    analysis is replaced by the object in memory. *)
Definition analyses_write_changes : Eff St exn unit :=
  modify (λ '(wt, w),
    (wt, set_analysisjson (<[a_id (analysis wt) := analysis wt]>) w)).

(** [task.write_changes(worktracker.task)] *)
Definition task_write_changes : Eff St exn unit :=
  t ← the_task;
  on_world (Task.write_changes t).

(** Modelled from the spec: [Analysis.update_task], not in the sources:
    the summary of the task in [analysis.tasks] takes the given state
    and, when one is given, the given score (the timestamps are left
    out). *)
Definition update_task (tid : task_id) (score : option Z) (state : string)
  (a : Analysis) : Analysis :=
  set_a_tasks
    (map (λ s, if decide (ts_id s = tid)
               then {| ts_id := ts_id s; ts_platform := ts_platform s;
                       ts_os_version := ts_os_version s; ts_state := state;
                       ts_score := default (ts_score s) score |}
               else s) (a_tasks a)) a.

(** Modelled from the spec: [Analysis.update_from_report], not in the
    sources: "rolls the score/tags up into the analysis". *)
Definition update_from_report (score : Z) (tags : list string) (a : Analysis)
  : Analysis :=
  set_a_score_tags (Z.max (a_score a) score)
                   (a_tags a ++ filter (λ t, t ∉ a_tags a) tags) a.

(** Modelled from the spec: [analyses.merge_errors] and
    [analyses.merge_processing_errors], not in the sources, after their
    counterparts of [task.py]. *)
Definition analyses_merge_errors (a : Analysis) (c : Errors) : Analysis :=
  match a_errors a with
  | Some errs => set_a_errors (Some (Errors_merge_errors errs c)) a
  | None => set_a_errors (Some c) a
  end.

Definition analyses_merge_processing_errors : Eff St exn unit :=
  modify (λ '(wt, w),
    match a_processingerr_json w !! a_id (analysis wt) with
    | None => (wt, w)
    | Some errs =>
        (set_analysis (λ a, analyses_merge_errors a errs) wt,
         set_a_processingerr_json (delete (a_id (analysis wt))) w)
    end).

Definition task_merge_processing_errors : Eff St exn unit :=
  t ← the_task;
  modify (λ '(wt, w),
    let '(t', w') := Task.merge_processing_errors t w in
    (set_task (λ _, t') wt, w')).

Definition task_merge_run_errors : Eff St exn unit :=
  t ← the_task;
  modify (λ '(wt, w),
    let '(t', w') := Task.merge_run_errors t w in
    (set_task (λ _, t') wt, w')).

(** [handle_identification_done] *)
Definition handle_identification_done : Eff St exn unit :=
  worktracker ← gets fst;
  if manual (a_settings (analysis worktracker)) then
    on_wt (set_analysis (set_a_state Analyses.WAITING_MANUAL));;
    analyses_write_changes
  else
    w ← gets snd;
    match identjson w !! analysis_id worktracker with
    | None =>
        on_wt (set_errtracker (fatal_error
          "Failed to read identification stage file. File does not exist"));;
        on_wt (set_analysis (set_a_state Analyses.FATAL_ERROR));;
        analyses_write_changes
    | Some ident =>
        allow_pre_analysis ←
          (if negb (selected ident) then
             (* No target was selected. *)
             let cancel := cancel_unidentified w in
             if negb (identified ident) && negb cancel then mret true
             else
               on_wt (set_analysis (set_a_state Analyses.NO_SELECTED));;
               analyses_write_changes;;
               mret false
           else mret false);
        if selected ident || allow_pre_analysis then
          on_wt (set_analysis (set_a_state Analyses.PENDING_PRE));;
          analyses_write_changes;;
          on_wt (set_ctx (λ c,
            mkCtx (nodes c) (delete_completed_analysis c) (queue_many c)
                  (pre_analysis c ++ [analysis_id worktracker])
                  (post_analysis c)))
        else mret tt
    end.

(** [task.create_all(analysis, worktracker.ctx.nodes)] on the analysis of
    the work tracker; every exception of [task.py] is a
    [TaskCreationError], which is what [handle_pre_done] catches. *)
Definition create_all : Eff St exn (result Task.exn (list Task * list string)) :=
  λ '(wt, w),
    let '(r, (a', w')) := Task.create_all (nodes (ctx wt)) (analysis wt, w) in
    (Ok r, (set_analysis (λ _, a') wt, w')).

Definition exn_str (e : Task.exn) : string :=
  match e with
  | Task.TaskCreationError msg _ => msg
  | Task.MissingResourceError msg => msg
  | Task.NoTasksCreatedError msg _ => msg
  end.

(** [for err in ...: worktracker.errtracker.add_error(err)] *)
Definition add_errors (errs : list string) : Eff St exn unit :=
  on_wt (set_errtracker (λ t, foldl (λ t err, add_error err t) t errs)).

Section PreDone.

(** [analyses.determine_final_platforms] is not in the sources: it
    settles [analysis.settings.platforms] from the analysis and the
    pre-analysis result, and is a parameter here. *)
Variable determine_final_platforms : Analysis → Pre → list Platform.

(** Modelled from the spec: [analyses.overwrite_platforms], not in the
    sources: "overwrite the analysis.settings.platforms list with one
    that was changed during the pre stage". *)
Definition overwrite_platforms (a : Analysis) (ps : list Platform) : Analysis :=
  set_a_settings (set_platforms ps (a_settings a)) a.

(** The analysis as [handle_pre_done] hands it to [create_all]. *)
Definition prepare_analysis (pre : Pre) (a : Analysis) : Analysis :=
  let a := match pre_platforms pre with
           | [] => a
           | _ :: _ => overwrite_platforms a (pre_platforms pre)
           end in
  let a := set_a_settings
             (set_platforms (determine_final_platforms a pre) (a_settings a)) a in
  let a := set_a_target (pre_target pre) a in
  update_from_report (pre_score pre) (pre_tags pre) a.

(** [handle_pre_done] *)
Definition handle_pre_done : Eff St exn unit :=
  worktracker ← gets fst;
  w ← gets snd;
  match prejson w !! analysis_id worktracker with
  | None =>
      on_wt (set_errtracker (fatal_error
        "Pre processing stage file does not exist."));;
      on_wt (set_analysis (set_a_state Analyses.FATAL_ERROR));;
      analyses_write_changes
  | Some pre =>
      on_wt (set_analysis (prepare_analysis pre));;
      r ← create_all;
      match r with
      | Raise e =>
          on_wt (set_errtracker (fatal_error
            ("Failed to create tasks for analysis. " +:+ exn_str e
             +:+ ". Reasons: " +:+ join ", " (Task.reasons_of e))));;
          add_errors (Task.reasons_of e);;
          on_wt (set_analysis (set_a_state Analyses.FATAL_ERROR));;
          analyses_write_changes
      | Ok (tasks, resource_errs) =>
          add_errors resource_errs;;
          on_wt (set_analysis (set_a_state Analyses.TASKS_PENDING));;
          analyses_write_changes;;
          on_wt (set_ctx (λ c,
            mkCtx (nodes c) (delete_completed_analysis c)
                  (queue_many c ++ tasks) (pre_analysis c) (post_analysis c)))
      end
  end.

End PreDone.

(** [update_final_analysis_state] *)
Definition update_final_analysis_state : Eff St exn unit :=
  worktracker ← gets fst;
  w ← gets snd;
  if negb (Task.has_unfinished_tasks (analysis_id worktracker) w) then
    on_wt (set_analysis (set_a_state Analyses.FINISHED));;
    on_wt (set_ctx (λ c,
      mkCtx (nodes c)
            (delete_completed_analysis c ++ [analysis_id worktracker])
            (queue_many c) (pre_analysis c) (post_analysis c)))
  else mret tt.

(** [handle_post_done] *)
Definition handle_post_done : Eff St exn unit :=
  worktracker ← gets fst;
  w ← gets snd;
  match wt_task_id worktracker ≫= λ tid, report w !! tid with
  | None =>
      on_wt (set_errtracker (fatal_error
        "Post processing report file does not exist"));;
      the_task;;
      on_wt (set_task (set_t_state Task.States.FATAL_ERROR));;
      task_write_changes
  | Some post =>
      the_task;;
      on_wt (set_task (set_t_score (post_score post)));;
      on_wt (set_task (set_t_state Task.States.REPORTED));;
      t ← the_task;
      on_wt (set_analysis
        (update_task (t_id t) (Some (post_score post)) (t_state t)));;
      on_wt (set_analysis (update_from_report (post_score post) (post_tags post)));;
      task_write_changes;;
      update_final_analysis_state;;
      analyses_write_changes
  end.

(** [set_next_state] *)
Definition set_next_state (determine_final_platforms : Analysis → Pre → list Platform)
  (worktype : string) : Eff St exn unit :=
  if decide (worktype = "identification") then
    analyses_merge_processing_errors;;
    handle_identification_done
  else if decide (worktype = "pre") then
    analyses_merge_processing_errors;;
    handle_pre_done determine_final_platforms
  else if decide (worktype = "post") then
    task_merge_processing_errors;;
    handle_post_done
  else raise (ValueError ("Unknown work type " +:+ worktype)).

(** [set_failed] *)
Definition set_failed (worktype : string) : Eff St exn unit :=
  if decide (worktype = "identification") then
    analyses_merge_processing_errors;;
    on_wt (set_analysis (set_a_state Analyses.FATAL_ERROR));;
    analyses_write_changes
  else if decide (worktype = "pre") then
    analyses_merge_processing_errors;;
    on_wt (set_analysis (set_a_state Analyses.FATAL_ERROR));;
    analyses_write_changes
  else if decide (worktype = "post") then
    task_merge_processing_errors;;
    on_wt (set_task (set_t_state Task.States.FATAL_ERROR));;
    t ← the_task;
    on_wt (set_analysis (update_task (t_id t) None (t_state t)));;
    task_write_changes;;
    update_final_analysis_state;;
    analyses_write_changes
  else raise (ValueError ("Unknown work type " +:+ worktype)).

(** [handle_task_done] *)
Definition handle_task_done : Eff St exn unit :=
  task_merge_run_errors;;
  on_wt (set_task (set_t_state Task.States.PENDING_POST));;
  task_write_changes;;
  worktracker ← gets fst;
  on_wt (set_ctx (λ c,
    mkCtx (nodes c) (delete_completed_analysis c) (queue_many c)
          (pre_analysis c)
          (post_analysis c ++ [(analysis_id worktracker, wt_task_id worktracker)]))).

(** [set_task_failed] *)
Definition set_task_failed : Eff St exn unit :=
  task_merge_run_errors;;
  on_wt (set_task (set_t_state Task.States.FATAL_ERROR));;
  t ← the_task;
  on_wt (set_analysis (update_task (t_id t) None (t_state t)));;
  analyses_write_changes;;
  task_write_changes;;
  update_final_analysis_state;;
  analyses_write_changes.

(** [_WorkTracker.close]: the diagnostics of the error tracker are merged
    into the task when the job has a task id, into the analysis
    otherwise.  (The final conditional write of the changed document
    depends on the container's change tracking and is left out.) *)
Definition close : Eff St exn unit :=
  worktracker ← gets fst;
  if has_errors (errtracker worktracker) then
    let errors_container := to_container (errtracker worktracker) in
    match wt_task_id worktracker with
    | Some _ =>
        t ← the_task;
        on_wt (set_task (λ _, Task.merge_errors t errors_container))
    | None =>
        on_wt (set_analysis (λ a, analyses_merge_errors a errors_container))
    end
  else mret tt.

(** One job of [StateControllerWorker.run]: the handler, then [close()]
    in the [finally] clause; an exception of the handler is caught and
    logged there. *)
Definition run_job (handler : Eff St exn unit) : St → St :=
  λ s, let '(_, s') := handler s in snd (close s').

(** *** Identification completion *)

(** What a handler leaves behind. *)
Definition outcome (h : Eff St exn unit) (s : St) : result exn unit := fst (h s).
Definition wt_after (h : Eff St exn unit) (s : St) : _WorkTracker := fst (snd (h s)).
Definition world_after (h : Eff St exn unit) (s : St) : World := snd (snd (h s)).
Definition state_after (h : Eff St exn unit) (s : St) : Analyses.States :=
  a_state (analysis (wt_after h s)).

(** The state the analysis document on disk holds. *)
Definition persisted_state (wt : _WorkTracker) (w : World)
  : option Analyses.States :=
  a_state <$> analysisjson w !! a_id (analysis wt).

(** [analyses.write_changes] after [analysis.state = st]. *)
Definition persist (wt : _WorkTracker) (w : World) : World :=
  set_analysisjson (<[a_id (analysis wt) := analysis wt]>) w.

Definition with_state (st : Analyses.States) (wt : _WorkTracker) : _WorkTracker :=
  set_analysis (set_a_state st) wt.

Definition queue_pre_analysis (wt : _WorkTracker) : _WorkTracker :=
  set_ctx (λ c, mkCtx (nodes c) (delete_completed_analysis c) (queue_many c)
                      (pre_analysis c ++ [analysis_id wt]) (post_analysis c)) wt.

Lemma handle_identification_done_manual wt w :
  manual (a_settings (analysis wt)) = true →
  handle_identification_done (wt, w)
  = (Ok tt, (with_state Analyses.WAITING_MANUAL wt,
             persist (with_state Analyses.WAITING_MANUAL wt) w)).
Proof.
  intros Hm. unfold handle_identification_done, analyses_write_changes, on_wt.
  eff_run. by rewrite Hm.
Qed.

Definition ident_missing_msg : string :=
  "Failed to read identification stage file. File does not exist".

Lemma handle_identification_done_missing wt w :
  manual (a_settings (analysis wt)) = false →
  identjson w !! analysis_id wt = None →
  let wt' := with_state Analyses.FATAL_ERROR
               (set_errtracker (fatal_error ident_missing_msg) wt) in
  handle_identification_done (wt, w) = (Ok tt, (wt', persist wt' w)).
Proof.
  intros Hm Hf. unfold handle_identification_done, analyses_write_changes, on_wt.
  eff_run. rewrite Hm. simpl. by rewrite Hf.
Qed.

Lemma handle_identification_done_present wt w ident :
  manual (a_settings (analysis wt)) = false →
  identjson w !! analysis_id wt = Some ident →
  handle_identification_done (wt, w) =
    if selected ident
    then let wt' := with_state Analyses.PENDING_PRE wt in
         (Ok tt, (queue_pre_analysis wt', persist wt' w))
    else if negb (identified ident) && negb (cancel_unidentified w)
    then let wt' := with_state Analyses.PENDING_PRE wt in
         (Ok tt, (queue_pre_analysis wt', persist wt' w))
    else let wt' := with_state Analyses.NO_SELECTED wt in
         (Ok tt, (wt', persist wt' w)).
Proof.
  intros Hm Hf. unfold handle_identification_done, analyses_write_changes, on_wt.
  eff_run. rewrite Hm. simpl. rewrite Hf.
  destruct (selected ident), (identified ident), (cancel_unidentified w); done.
Qed.

(** C10. For an analysis whose settings have the manual flag set, the
    identification-completion handler returns normally with the analysis
    in WAITING_MANUAL (in memory and on disk), records no diagnostic and
    queues nothing; the work tracker it leaves is the same whatever
    identification artifacts exist, so the artifact is never consulted,
    and in particular a missing artifact does not lead to FATAL_ERROR. *)
Theorem manual_identification_done (wt : _WorkTracker) (w : World) :
  manual (a_settings (analysis wt)) = true →
  outcome handle_identification_done (wt, w) = Ok tt
  ∧ wt_after handle_identification_done (wt, w)
    = set_analysis (set_a_state Analyses.WAITING_MANUAL) wt
  ∧ persisted_state wt (world_after handle_identification_done (wt, w))
    = Some Analyses.WAITING_MANUAL
  ∧ (∀ m, wt_after handle_identification_done (wt, set_identjson m w)
          = wt_after handle_identification_done (wt, w))
  ∧ (identjson w !! analysis_id wt = None →
     state_after handle_identification_done (wt, w) ≠ Analyses.FATAL_ERROR).
Proof.
  intros Hm.
  unfold state_after, outcome, wt_after, world_after, persisted_state.
  repeat split.
  - by rewrite handle_identification_done_manual.
  - by rewrite handle_identification_done_manual.
  - rewrite handle_identification_done_manual by done. simpl.
    unfold persist. simpl. by rewrite lookup_insert_eq.
  - intros m. by rewrite !handle_identification_done_manual.
  - intros _. by rewrite handle_identification_done_manual.
Qed.

(** A job of the sample analysis, without task. *)
Definition sample_job (nt : Task.NodesTracker) (a : Analysis) : _WorkTracker :=
  {| ctx := mkCtx nt [] [] [] []; analysis_id := a_id a; wt_task_id := None;
     analysis := a; task := None; errtracker := ErrorTracker_new |}.

(** Every node has every platform and route. *)
Definition all_supported : Task.NodesTracker :=
  {| Task.find_support := λ _ _, (true, true) |}.

Lemma manual_identification_done_witness :
  let wt := sample_job all_supported
              (sample_analysis true Analyses.PENDING_IDENTIFICATION [win10]) in
  let w := empty_world false in
  manual (a_settings (analysis wt)) = true
  ∧ identjson w !! analysis_id wt = None
  ∧ state_after handle_identification_done (wt, w) = Analyses.WAITING_MANUAL
  ∧ state_after handle_identification_done (wt, w) ≠ Analyses.FATAL_ERROR.
Proof.
  intros wt w.
  destruct (manual_identification_done wt w eq_refl) as (_ & H2 & _ & _ & H5).
  split; [reflexivity|]. split; [reflexivity|].
  split; [unfold state_after; rewrite H2; reflexivity | exact (H5 eq_refl)].
Defined.

(** C3 (as amended). For an analysis that is not in manual mode and
    whose identification artifact exists, the handler returns normally
    and takes one of three paths: a selected target moves the analysis to
    PENDING_PRE and queues pre-analysis (whether or not it was
    identified); a target that was identified but not selected ends the
    analysis at NO_SELECTED; when nothing was identified and nothing
    selected, the analysis moves to PENDING_PRE (pre-analysis queued)
    if the configuration does not cancel unidentified submissions and to
    NO_SELECTED otherwise.  The state reached is the one written to the
    analysis document. *)
Theorem identification_done_branches (wt : _WorkTracker) (w : World)
  (ident : Identification) :
  manual (a_settings (analysis wt)) = false →
  identjson w !! analysis_id wt = Some ident →
  let h := handle_identification_done in
  let queued := pre_analysis (ctx (wt_after h (wt, w))) in
  outcome h (wt, w) = Ok tt
  ∧ persisted_state wt (world_after h (wt, w)) = Some (state_after h (wt, w))
  ∧ (selected ident = true →
       state_after h (wt, w) = Analyses.PENDING_PRE
       ∧ queued = pre_analysis (ctx wt) ++ [analysis_id wt])
  ∧ (selected ident = false → identified ident = true →
       state_after h (wt, w) = Analyses.NO_SELECTED
       ∧ queued = pre_analysis (ctx wt))
  ∧ (selected ident = false → identified ident = false →
       cancel_unidentified w = false →
       state_after h (wt, w) = Analyses.PENDING_PRE
       ∧ queued = pre_analysis (ctx wt) ++ [analysis_id wt])
  ∧ (selected ident = false → identified ident = false →
       cancel_unidentified w = true →
       state_after h (wt, w) = Analyses.NO_SELECTED
       ∧ queued = pre_analysis (ctx wt)).
Proof.
  intros Hm Hf h queued. subst h queued.
  unfold outcome, state_after, wt_after, world_after, persisted_state.
  rewrite (handle_identification_done_present wt w ident Hm Hf).
  destruct (selected ident), (identified ident), (cancel_unidentified w);
    simpl; unfold persist; simpl; rewrite lookup_insert_eq;
    repeat split; try done.
Qed.

(** The identification artifact of a target that was selected although
    its type was not identified. *)
Definition selected_unidentified : Identification :=
  {| selected := true; identified := false; ident_target := Some "sample.bin" |}.

Definition world_with_ident (cancel : bool) (a : Analysis)
  (ident : Identification) : World :=
  set_identjson {[a_id a := ident]} (empty_world cancel).

Lemma identification_done_branches_witness :
  let a := sample_analysis false Analyses.PENDING_IDENTIFICATION [win10] in
  let wt := sample_job all_supported a in
  let w := world_with_ident true a selected_unidentified in
  manual (a_settings (analysis wt)) = false
  ∧ identjson w !! analysis_id wt = Some selected_unidentified
  ∧ state_after handle_identification_done (wt, w) = Analyses.PENDING_PRE
  ∧ pre_analysis (ctx (wt_after handle_identification_done (wt, w)))
    = [a_id a].
Proof.
  intros a wt w.
  destruct (identification_done_branches wt w selected_unidentified
              eq_refl eq_refl) as (_ & _ & H & _).
  destruct (H eq_refl) as [H1 H2].
  split; [reflexivity|]. split; [reflexivity|]. split; [exact H1 | exact H2].
Defined.

(** C3 as stated fails for a target that is selected but not identified,
    under a configuration that cancels unidentified submissions: the
    claim's third branch sends every unidentified submission to
    NO_SELECTED then, the handler moves this one to PENDING_PRE and
    queues pre-analysis. *)
Lemma identification_done_selected_unidentified :
  let a := sample_analysis false Analyses.PENDING_IDENTIFICATION [win10] in
  let wt := sample_job all_supported a in
  let w := world_with_ident true a selected_unidentified in
  identjson w !! analysis_id wt = Some selected_unidentified
  ∧ identified selected_unidentified = false
  ∧ cancel_unidentified w = true
  ∧ state_after handle_identification_done (wt, w) = Analyses.PENDING_PRE
  ∧ state_after handle_identification_done (wt, w) ≠ Analyses.NO_SELECTED
  ∧ pre_analysis (ctx (wt_after handle_identification_done (wt, w))) = [a_id a].
Proof. vm_compute. repeat split; congruence. Qed.

(** *** A missing result artifact *)

Definition pre_missing_msg : string :=
  "Pre processing stage file does not exist.".

Definition post_missing_msg : string :=
  "Post processing report file does not exist".

Lemma handle_pre_done_missing dfp wt w :
  prejson w !! analysis_id wt = None →
  let wt' := with_state Analyses.FATAL_ERROR
               (set_errtracker (fatal_error pre_missing_msg) wt) in
  handle_pre_done dfp (wt, w) = (Ok tt, (wt', persist wt' w)).
Proof.
  intros Hf. unfold handle_pre_done, analyses_write_changes, on_wt.
  eff_run. by rewrite Hf.
Qed.

Lemma handle_post_done_missing wt w tid t :
  wt_task_id wt = Some tid → task wt = Some t →
  report w !! tid = None →
  let t' := set_t_state Task.States.FATAL_ERROR t in
  handle_post_done (wt, w)
  = (Ok tt, (set_task (λ _, t') (set_errtracker (fatal_error post_missing_msg) wt),
             Task.write_changes t' w)).
Proof.
  destruct wt as [c aid otid a otk et]. simpl. intros -> -> Hf.
  unfold handle_post_done, task_write_changes, the_task, on_wt, on_world.
  eff_run. by rewrite Hf.
Qed.

Lemma has_errors_fatal_error msg t : has_errors (fatal_error msg t) = true.
Proof.
  unfold has_errors, fatal_error. simpl.
  destruct (et_errors t); [|done]. by destruct (et_fatal t).
Qed.

(** The diagnostics attached to an entity. *)
Definition logged (msg : string) (errs : option Errors) : Prop :=
  ∃ c, errs = Some c ∧ msg ∈ fatal c.

Lemma logged_analyses_merge msg a t :
  logged msg (a_errors (analyses_merge_errors a (to_container (fatal_error msg t)))).
Proof.
  unfold analyses_merge_errors, logged.
  destruct (a_errors a) as [e|]; simpl; eexists; (split; [done|]); simpl;
    set_solver.
Qed.

Lemma logged_task_merge msg tk t :
  logged msg (t_errors (Task.merge_errors tk (to_container (fatal_error msg t)))).
Proof.
  unfold Task.merge_errors, logged.
  destruct (t_errors tk) as [e|]; simpl; eexists; (split; [done|]); simpl;
    set_solver.
Qed.

Lemma a_state_merge_errors a c :
  a_state (analyses_merge_errors a c) = a_state a.
Proof. unfold analyses_merge_errors. by destruct (a_errors a). Qed.

Lemma t_state_merge_errors t c :
  t_state (Task.merge_errors t c) = t_state t.
Proof. unfold Task.merge_errors. by destruct (t_errors t). Qed.

(** A job that did no transition work: nothing was handed to the
    scheduler, the processing handler or the nodes, and no task was
    created on disk or in the database. *)
Definition no_transition_work (wt wt' : _WorkTracker) (w w' : World) : Prop :=
  ctx wt' = ctx wt
  ∧ task_path w' = task_path w
  ∧ dom (taskjson w') = dom (taskjson w)
  ∧ length (db_tasks w') = length (db_tasks w).

(** C4 (as amended). When the expected result artifact is missing:
    - the identification handler of an analysis that is not in manual
      mode, and the pre handler, run as analysis-level jobs (no task
      id), leave the analysis in FATAL_ERROR in memory and on disk, with
      the diagnostic in the analysis's error log once the job is closed;
    - the post handler leaves the task in FATAL_ERROR (document and
      database row), with the diagnostic in the task's error log once
      the job is closed, and does not touch the analysis;
    and in each case no further transition work is done: nothing is
    queued, scheduled or cleaned up and no task is created. *)
Theorem missing_artifact_is_fatal (dfp : Analysis → Pre → list Platform)
  (wt : _WorkTracker) (w : World) :
  (manual (a_settings (analysis wt)) = false →
   wt_task_id wt = None →
   identjson w !! analysis_id wt = None →
   let '(wt', w') := run_job handle_identification_done (wt, w) in
   a_state (analysis wt') = Analyses.FATAL_ERROR
   ∧ persisted_state wt w' = Some Analyses.FATAL_ERROR
   ∧ logged ident_missing_msg (a_errors (analysis wt'))
   ∧ no_transition_work wt wt' w w')
  ∧ (wt_task_id wt = None →
     prejson w !! analysis_id wt = None →
     let '(wt', w') := run_job (handle_pre_done dfp) (wt, w) in
     a_state (analysis wt') = Analyses.FATAL_ERROR
     ∧ persisted_state wt w' = Some Analyses.FATAL_ERROR
     ∧ logged pre_missing_msg (a_errors (analysis wt'))
     ∧ no_transition_work wt wt' w w')
  ∧ (∀ tid t,
     wt_task_id wt = Some tid → task wt = Some t → t_id t = tid →
     report w !! tid = None →
     let '(wt', w') := run_job handle_post_done (wt, w) in
     (∃ t', task wt' = Some t'
            ∧ t_state t' = Task.States.FATAL_ERROR
            ∧ logged post_missing_msg (t_errors t'))
     ∧ t_state <$> taskjson w' !! tid = Some Task.States.FATAL_ERROR
     ∧ (∀ r, r ∈ db_tasks w' → row_id r = tid →
             row_state r = Task.States.FATAL_ERROR)
     ∧ analysis wt' = analysis wt
     ∧ analysisjson w' = analysisjson w
     ∧ ctx wt' = ctx wt
     ∧ task_path w' = task_path w
     ∧ length (db_tasks w') = length (db_tasks w)).
Proof.
  split; [|split].
  - intros Hm Hid Hf. unfold run_job.
    rewrite (handle_identification_done_missing wt w Hm Hf).
    unfold close, on_wt, the_task. eff_run.
    rewrite has_errors_fatal_error, Hid. simpl.
    unfold persisted_state, persist, no_transition_work. simpl.
    rewrite lookup_insert_eq, a_state_merge_errors.
    split; [done|]. split; [done|]. split; [|done].
    apply (logged_analyses_merge ident_missing_msg
             (set_a_state Analyses.FATAL_ERROR (analysis wt))).
  - intros Hid Hf. unfold run_job.
    rewrite (handle_pre_done_missing dfp wt w Hf).
    unfold close, on_wt, the_task. eff_run.
    rewrite has_errors_fatal_error, Hid. simpl.
    unfold persisted_state, persist, no_transition_work. simpl.
    rewrite lookup_insert_eq, a_state_merge_errors.
    split; [done|]. split; [done|]. split; [|done].
    apply (logged_analyses_merge pre_missing_msg
             (set_a_state Analyses.FATAL_ERROR (analysis wt))).
  - intros tid t Hid Ht Htid Hf. unfold run_job.
    rewrite (handle_post_done_missing wt w tid t Hid Ht Hf).
    unfold close, on_wt, the_task. eff_run.
    rewrite has_errors_fatal_error, Hid. simpl. rewrite Ht. simpl.
    unfold Task.write_changes, Task.update_db_row. simpl. rewrite Htid.
    rewrite lookup_insert_eq, Ht, length_map. simpl.
    split; [|split; [done|split; [|done]]].
    + eexists. split; [done|]. split.
      * by rewrite t_state_merge_errors.
      * apply (logged_task_merge post_missing_msg
                 (set_t_state Task.States.FATAL_ERROR t)).
    + intros r Hr Hrid. apply list_elem_of_fmap in Hr as (r0 & -> & Hr0).
      destruct (decide (row_id r0 = tid)) as [|Hne]; [done | by destruct Hne].
Qed.

(** A post-processing job of task [n] of the sample analysis. *)
Definition sample_task_job (nt : Task.NodesTracker) (a : Analysis) (t : Task)
  : _WorkTracker :=
  {| ctx := mkCtx nt [] [] [] []; analysis_id := a_id a;
     wt_task_id := Some (t_id t); analysis := a; task := Some t;
     errtracker := ErrorTracker_new |}.

(** The disk and table of the sample analysis with the given tasks. *)
Definition world_with_tasks (ts : list Task) : World :=
  set_db_tasks (λ _, map Task.task_row ts)
    (Task.store_files ts (empty_world false)).

Lemma missing_artifact_is_fatal_witness :
  let a := sample_analysis false Analyses.PENDING_IDENTIFICATION [win10] in
  let a' := sample_analysis false Analyses.TASKS_PENDING [win10] in
  let t := sample_task 1 Task.States.PENDING_POST in
  let dfp := λ (a : Analysis) (_ : Pre), platforms (a_settings a) in
  let w := world_with_tasks [t] in
  a_state (analysis (fst (run_job handle_identification_done
                            (sample_job all_supported a, empty_world false))))
  = Analyses.FATAL_ERROR
  ∧ a_state (analysis (fst (run_job (handle_pre_done dfp)
                              (sample_job all_supported a, empty_world false))))
    = Analyses.FATAL_ERROR
  ∧ t_state <$> task (fst (run_job handle_post_done
                             (sample_task_job all_supported a' t, w)))
    = Some Task.States.FATAL_ERROR
  ∧ analysis (fst (run_job handle_post_done
                     (sample_task_job all_supported a' t, w))) = a'.
Proof.
  intros a a' t dfp w.
  destruct (missing_artifact_is_fatal dfp (sample_job all_supported a)
              (empty_world false)) as (H1 & H2 & _).
  destruct (missing_artifact_is_fatal dfp (sample_task_job all_supported a' t) w)
    as (_ & _ & H3).
  specialize (H1 eq_refl eq_refl eq_refl).
  specialize (H2 eq_refl eq_refl).
  specialize (H3 (t_id t) t eq_refl eq_refl eq_refl eq_refl).
  destruct (run_job handle_identification_done _) as [wt1 w1].
  destruct (run_job (handle_pre_done dfp) _) as [wt2 w2].
  destruct (run_job handle_post_done _) as [wt3 w3].
  destruct H1 as (H1 & _). destruct H2 as (H2 & _).
  destruct H3 as ((t' & Ht' & Hst & _) & _ & _ & Ha & _).
  simpl. split; [exact H1|]. split; [exact H2|].
  split; [by rewrite Ht'; simpl; rewrite Hst | exact Ha].
Defined.

(** C4 as stated fails for the identification handler of an analysis in
    manual mode: with the identification artifact missing, the job ends
    with the analysis in WAITING_MANUAL and with no diagnostic logged. *)
Lemma missing_artifact_manual_not_fatal :
  let a := sample_analysis true Analyses.PENDING_IDENTIFICATION [win10] in
  let wt := sample_job all_supported a in
  let w := empty_world false in
  identjson w !! analysis_id wt = None
  ∧ a_state (analysis (fst (run_job handle_identification_done (wt, w))))
    = Analyses.WAITING_MANUAL
  ∧ a_state (analysis (fst (run_job handle_identification_done (wt, w))))
    ≠ Analyses.FATAL_ERROR
  ∧ a_errors (analysis (fst (run_job handle_identification_done (wt, w))))
    = None
  ∧ errtracker (fst (run_job handle_identification_done (wt, w)))
    = ErrorTracker_new.
Proof. vm_compute. repeat split; congruence. Qed.

(** *** The final state of an analysis *)

Definition request_cleanup (wt : _WorkTracker) : _WorkTracker :=
  set_ctx (λ c, mkCtx (nodes c)
                      (delete_completed_analysis c ++ [analysis_id wt])
                      (queue_many c) (pre_analysis c) (post_analysis c)) wt.

(** What [update_final_analysis_state] does to the work tracker. *)
Definition final_check (wt : _WorkTracker) (w : World) : _WorkTracker :=
  if Task.has_unfinished_tasks (analysis_id wt) w then wt
  else request_cleanup (with_state Analyses.FINISHED wt).

Lemma update_final_analysis_state_eq wt w :
  update_final_analysis_state (wt, w) = (Ok tt, (final_check wt w, w)).
Proof.
  unfold update_final_analysis_state, final_check, on_wt. eff_run.
  by destruct (Task.has_unfinished_tasks (analysis_id wt) w).
Qed.

(** The three ways the end of a task reaches the controller: its
    post-processing completed ([set_next_state] with ["post"], i.e.
    [handle_post_done]), its post-processing failed ([set_failed] with
    ["post"]), or its run failed ([set_task_failed]). *)
Inductive task_end := PostDone | PostFailed | RunFailed.

Definition task_end_handler (e : task_end) : Eff St exn unit :=
  match e with
  | PostDone => handle_post_done
  | PostFailed => set_failed "post"
  | RunFailed => set_task_failed
  end.

Lemma state_final_check wt w :
  a_state (analysis (final_check wt w))
  = if Task.has_unfinished_tasks (analysis_id wt) w
    then a_state (analysis wt) else Analyses.FINISHED.
Proof. unfold final_check. by destruct (Task.has_unfinished_tasks _ _). Qed.

Lemma cleanup_final_check wt w :
  delete_completed_analysis (ctx (final_check wt w))
  = if Task.has_unfinished_tasks (analysis_id wt) w
    then delete_completed_analysis (ctx wt)
    else delete_completed_analysis (ctx wt) ++ [analysis_id wt].
Proof. unfold final_check. by destruct (Task.has_unfinished_tasks _ _). Qed.

Lemma reported_finished : Task.States.REPORTED ∉ Task.unfinished_states.
Proof.
  intros H. repeat (apply elem_of_cons in H as [H|H]; [discriminate H|]).
  by apply elem_of_nil in H.
Qed.

Lemma fatal_error_finished : Task.States.FATAL_ERROR ∉ Task.unfinished_states.
Proof.
  intros H. repeat (apply elem_of_cons in H as [H|H]; [discriminate H|]).
  by apply elem_of_nil in H.
Qed.

Lemma handle_post_done_present wt w tid t post :
  wt_task_id wt = Some tid → task wt = Some t →
  report w !! tid = Some post →
  let t' := set_t_state Task.States.REPORTED (set_t_score (post_score post) t) in
  let wt1 :=
    set_analysis
      (λ a, update_from_report (post_score post) (post_tags post)
              (update_task (t_id t') (Some (post_score post)) (t_state t') a))
      (set_task (λ _, t') wt) in
  let w1 := Task.write_changes t' w in
  handle_post_done (wt, w)
  = (Ok tt, (final_check wt1 w1, persist (final_check wt1 w1) w1)).
Proof.
  destruct wt as [c aid otid a otk et]. simpl. intros -> -> Hf.
  unfold handle_post_done, task_write_changes, the_task, on_wt, on_world,
    analyses_write_changes.
  eff_run. rewrite Hf. simpl. rewrite update_final_analysis_state_eq. done.
Qed.

Lemma set_failed_post wt w tid t :
  wt_task_id wt = Some tid → task wt = Some t →
  let t0 := fst (Task.merge_processing_errors t w) in
  let w0 := snd (Task.merge_processing_errors t w) in
  let t' := set_t_state Task.States.FATAL_ERROR t0 in
  let wt1 := set_analysis (update_task (t_id t') None (t_state t'))
               (set_task (λ _, t') wt) in
  let w1 := Task.write_changes t' w0 in
  set_failed "post" (wt, w)
  = (Ok tt, (final_check wt1 w1, persist (final_check wt1 w1) w1)).
Proof.
  destruct wt as [c aid otid a otk et]. simpl. intros -> ->.
  unfold set_failed, task_merge_processing_errors, task_write_changes,
    the_task, on_wt, on_world, analyses_write_changes.
  simpl. eff_run.
  destruct (Task.merge_processing_errors t w) as [t0 w0]. simpl.
  rewrite update_final_analysis_state_eq. done.
Qed.

Lemma set_task_failed_eq wt w tid t :
  wt_task_id wt = Some tid → task wt = Some t →
  let t0 := fst (Task.merge_run_errors t w) in
  let w0 := snd (Task.merge_run_errors t w) in
  let t' := set_t_state Task.States.FATAL_ERROR t0 in
  let wt1 := set_analysis (update_task (t_id t') None (t_state t'))
               (set_task (λ _, t') wt) in
  let w1 := Task.write_changes t' (persist wt1 w0) in
  set_task_failed (wt, w)
  = (Ok tt, (final_check wt1 w1, persist (final_check wt1 w1) w1)).
Proof.
  destruct wt as [c aid otid a otk et]. simpl. intros -> ->.
  unfold set_task_failed, task_merge_run_errors, task_write_changes,
    the_task, on_wt, on_world, analyses_write_changes.
  simpl. eff_run.
  destruct (Task.merge_run_errors t w) as [t0 w0]. simpl.
  rewrite update_final_analysis_state_eq. done.
Qed.

Lemma merge_processing_errors_frame t w :
  t_id (fst (Task.merge_processing_errors t w)) = t_id t
  ∧ db_tasks (snd (Task.merge_processing_errors t w)) = db_tasks w.
Proof.
  unfold Task.merge_processing_errors.
  destruct (processingerr_json w !! t_id t); simpl; [|done].
  unfold Task.merge_errors. by destruct (t_errors t).
Qed.

Lemma merge_run_errors_frame t w :
  t_id (fst (Task.merge_run_errors t w)) = t_id t
  ∧ db_tasks (snd (Task.merge_run_errors t w)) = db_tasks w.
Proof.
  unfold Task.merge_run_errors.
  destruct (runerr_json w !! t_id t); simpl; [|done].
  unfold Task.merge_errors. by destruct (t_errors t).
Qed.

(** The three handlers end with the same final-state check, on the
    table in which the row of the task holds its terminal state. *)
Lemma task_end_final_check (e : task_end) wt w tid t :
  wt_task_id wt = Some tid → task wt = Some t → t_id t = tid →
  (e = PostDone → is_Some (report w !! tid)) →
  ∃ (t' : Task) (w0 : World) (wt0 : _WorkTracker),
    (t_state t' ∉ Task.unfinished_states)
    ∧ t_id t' = tid
    ∧ db_tasks w0 = db_tasks w
    ∧ analysis_id wt0 = analysis_id wt
    ∧ a_state (analysis wt0) = a_state (analysis wt)
    ∧ a_id (analysis wt0) = a_id (analysis wt)
    ∧ delete_completed_analysis (ctx wt0) = delete_completed_analysis (ctx wt)
    ∧ task_end_handler e (wt, w)
      = (Ok tt, (final_check wt0 (Task.write_changes t' w0),
                 persist (final_check wt0 (Task.write_changes t' w0))
                         (Task.write_changes t' w0))).
Proof.
  intros Hid Ht Htid Hrep. destruct e; simpl.
  - destruct (Hrep eq_refl) as [post Hpost].
    pose proof (handle_post_done_present wt w tid t post Hid Ht Hpost) as E.
    cbv zeta in E.
    eexists (set_t_state Task.States.REPORTED (set_t_score (post_score post) t)),
      w, _.
    refine (conj _ (conj _ (conj _ (conj _ (conj _ (conj _ (conj _ E)))))));
      try done.
    apply reported_finished.
  - destruct (merge_processing_errors_frame t w) as [H1 H2].
    pose proof (set_failed_post wt w tid t Hid Ht) as E.
    cbv zeta in E.
    eexists (set_t_state Task.States.FATAL_ERROR
               (fst (Task.merge_processing_errors t w))),
      (snd (Task.merge_processing_errors t w)), _.
    refine (conj _ (conj _ (conj _ (conj _ (conj _ (conj _ (conj _ E)))))));
      try done.
    + apply fatal_error_finished.
    + simpl. congruence.
  - destruct (merge_run_errors_frame t w) as [H1 H2].
    pose proof (set_task_failed_eq wt w tid t Hid Ht) as E.
    cbv zeta in E.
    eexists (set_t_state Task.States.FATAL_ERROR
               (fst (Task.merge_run_errors t w))), _, _.
    refine (conj _ (conj _ (conj _ (conj _ (conj _ (conj _ (conj _ E)))))));
      try done.
    + apply fatal_error_finished.
    + simpl. congruence.
Qed.

Lemma a_id_final_check wt w :
  a_id (analysis (final_check wt w)) = a_id (analysis wt).
Proof. unfold final_check. by destruct (Task.has_unfinished_tasks _ _). Qed.

(** C2 (as amended). When the post-processing completion of a task is
    handled with its report artifact present, or its post-processing
    failure or run failure is handled, the handler returns normally and
    its final-state check looks at the other tasks of the analysis in the
    task table: if none of them is in PENDING, RUNNING or PENDING_POST,
    the analysis is set to FINISHED (in memory and on disk) and cleanup
    of the analysis on the nodes is requested; if at least one of them
    is in PENDING, RUNNING or PENDING_POST, the state of the analysis is
    left as it was and no cleanup is requested. *)
Theorem final_analysis_state (e : task_end) (wt : _WorkTracker) (w : World)
  (tid : task_id) (t : Task) :
  wt_task_id wt = Some tid → task wt = Some t → t_id t = tid →
  (e = PostDone → is_Some (report w !! tid)) →
  let h := task_end_handler e in
  outcome h (wt, w) = Ok tt
  ∧ (¬ Task.sibling_unfinished (analysis_id wt) tid (db_tasks w) →
       state_after h (wt, w) = Analyses.FINISHED
       ∧ persisted_state wt (world_after h (wt, w)) = Some Analyses.FINISHED
       ∧ delete_completed_analysis (ctx (wt_after h (wt, w)))
         = delete_completed_analysis (ctx wt) ++ [analysis_id wt])
  ∧ (Task.sibling_unfinished (analysis_id wt) tid (db_tasks w) →
       state_after h (wt, w) = a_state (analysis wt)
       ∧ delete_completed_analysis (ctx (wt_after h (wt, w)))
         = delete_completed_analysis (ctx wt)).
Proof.
  intros Hid Ht Htid Hrep h. subst h.
  destruct (task_end_final_check e wt w tid t Hid Ht Htid Hrep)
    as (t' & w0 & wt0 & Hfin & Htid' & Hdb & Haid & Hst & Hai & Hcl & E).
  unfold outcome, state_after, persisted_state, wt_after, world_after.
  rewrite E. simpl.
  pose proof (Task.has_unfinished_after_write (analysis_id wt0) t' w0 Hfin) as Hq.
  rewrite Htid', Hdb, Haid in Hq.
  rewrite state_final_check, cleanup_final_check.
  unfold persist. simpl. rewrite a_id_final_check, Hai, lookup_insert_eq. simpl.
  rewrite state_final_check. rewrite Haid in *.
  split; [done|]. split.
  - intros Hno.
    destruct (Task.has_unfinished_tasks (analysis_id wt) _) eqn:Eu.
    + destruct Hno. by apply Hq.
    + by rewrite Hcl.
  - intros Hsib. apply Hq in Hsib. rewrite Hsib. by rewrite Hst, Hcl.
Qed.

(** The sample analysis with two tasks; the job is the post-processing
    of task 1. *)
Definition two_task_world (st2 : string) : World :=
  world_with_tasks [sample_task 1 Task.States.PENDING_POST; sample_task 2 st2].

Definition post_job_1 : _WorkTracker :=
  sample_task_job all_supported
    (sample_analysis false Analyses.TASKS_PENDING [win10; win7])
    (sample_task 1 Task.States.PENDING_POST).

Definition sample_report : gmap task_id Post :=
  {[ make_task_id "20240101-AAAAAA" 1 := {| post_score := 8; post_tags := ["trojan"] |} ]}.

Lemma final_analysis_state_witness :
  let w := set_report sample_report (two_task_world Task.States.RUNNING) in
  let w' := set_report sample_report (two_task_world Task.States.REPORTED) in
  Task.sibling_unfinished (analysis_id post_job_1)
    (make_task_id "20240101-AAAAAA" 1) (db_tasks w)
  ∧ state_after handle_post_done (post_job_1, w) = Analyses.TASKS_PENDING
  ∧ ¬ Task.sibling_unfinished (analysis_id post_job_1)
        (make_task_id "20240101-AAAAAA" 1) (db_tasks w')
  ∧ state_after handle_post_done (post_job_1, w') = Analyses.FINISHED
  ∧ delete_completed_analysis (ctx (wt_after handle_post_done (post_job_1, w')))
    = ["20240101-AAAAAA"].
Proof.
  intros w w'.
  assert (Hsib : Task.sibling_unfinished (analysis_id post_job_1)
                   (make_task_id "20240101-AAAAAA" 1) (db_tasks w)).
  { exists (Task.task_row (sample_task 2 Task.States.RUNNING)).
    split; [right; left|]. split; [reflexivity|]. split; [discriminate|].
    right; left. }
  assert (Hno : ¬ Task.sibling_unfinished (analysis_id post_job_1)
                    (make_task_id "20240101-AAAAAA" 1) (db_tasks w')).
  { intros (r & Hr & _ & Hne & Hs).
    apply elem_of_cons in Hr as [->|Hr]; [by destruct Hne|].
    apply elem_of_cons in Hr as [->|Hr]; [|by apply elem_of_nil in Hr].
    by apply reported_finished in Hs. }
  destruct (final_analysis_state PostDone post_job_1 w
              (make_task_id "20240101-AAAAAA" 1)
              (sample_task 1 Task.States.PENDING_POST)
              eq_refl eq_refl eq_refl)
    as (_ & _ & H1); [intros _; by eexists|].
  destruct (final_analysis_state PostDone post_job_1 w'
              (make_task_id "20240101-AAAAAA" 1)
              (sample_task 1 Task.States.PENDING_POST)
              eq_refl eq_refl eq_refl)
    as (_ & H2 & _); [intros _; by eexists|].
  destruct (H1 Hsib) as [H1a _]. destruct (H2 Hno) as (H2a & _ & H2c).
  split; [exact Hsib|]. split; [exact H1a|]. split; [exact Hno|].
  split; [exact H2a | exact H2c].
Defined.

(** C2 as stated fails in two ways.  First, a post-processing completion
    whose report artifact is missing ends at the early return: the only
    task of the analysis goes to FATAL_ERROR, nothing is outstanding, yet
    the analysis stays in TASKS_PENDING and no cleanup is requested.
    Second, the final-state check looks for PENDING, RUNNING and
    PENDING_POST only: with the other task in the non-terminal state
    RUN_COMPLETED, the analysis is set to FINISHED and cleanup is
    requested. *)
Lemma final_analysis_state_exceptions :
  let a1 := sample_analysis false Analyses.TASKS_PENDING [win10] in
  let t1 := sample_task 1 Task.States.PENDING_POST in
  let job1 := sample_task_job all_supported a1 t1 in
  let w1 := world_with_tasks [t1] in
  let w2 := set_report sample_report (two_task_world Task.States.RUN_COMPLETED) in
  (report w1 !! t_id t1 = None
   ∧ map row_state (db_tasks (world_after handle_post_done (job1, w1)))
     = [Task.States.FATAL_ERROR]
   ∧ state_after handle_post_done (job1, w1) = Analyses.TASKS_PENDING
   ∧ delete_completed_analysis (ctx (wt_after handle_post_done (job1, w1))) = [])
  ∧ (map row_state (db_tasks (world_after handle_post_done (post_job_1, w2)))
     = [Task.States.REPORTED; Task.States.RUN_COMPLETED]
     ∧ state_after handle_post_done (post_job_1, w2) = Analyses.FINISHED
     ∧ delete_completed_analysis (ctx (wt_after handle_post_done (post_job_1, w2)))
       = ["20240101-AAAAAA"]).
Proof. vm_compute. repeat split. Qed.

(** *** Task creation at the end of pre-analysis *)

Lemma add_errors_eq errs wt w :
  add_errors errs (wt, w)
  = (Ok tt, (set_errtracker (λ t, foldl (λ t err, add_error err t) t errs) wt, w)).
Proof. done. Qed.

Lemma foldl_add_error errs t :
  et_errors (foldl (λ t err, add_error err t) t errs) = et_errors t ++ errs
  ∧ et_fatal (foldl (λ t err, add_error err t) t errs) = et_fatal t.
Proof.
  revert t. induction errs as [|e errs IH]; intros t; simpl.
  - by rewrite app_nil_r.
  - destruct (IH (add_error e t)) as [-> ->]. simpl. by rewrite <- app_assoc.
Qed.

Definition queue_tasks (tasks : list Task) (wt : _WorkTracker) : _WorkTracker :=
  set_ctx (λ c, mkCtx (nodes c) (delete_completed_analysis c)
                      (queue_many c ++ tasks) (pre_analysis c)
                      (post_analysis c)) wt.

(** [handle_pre_done] from the call of [create_all] on, by the outcome
    of that call. *)
Lemma handle_pre_done_eq dfp wt w pre :
  prejson w !! analysis_id wt = Some pre →
  let wt0 := set_analysis (prepare_analysis dfp pre) wt in
  handle_pre_done dfp (wt, w) =
    match Task.create_all (nodes (ctx wt)) (analysis wt0, w) with
    | (Ok (tasks, resource_errs), (a', w')) =>
        let wt1 := with_state Analyses.TASKS_PENDING
                     (set_errtracker
                        (λ t, foldl (λ t err, add_error err t) t resource_errs)
                        (set_analysis (λ _, a') wt0)) in
        (Ok tt, (queue_tasks tasks wt1, persist wt1 w'))
    | (Raise e, (a', w')) =>
        let wt1 := with_state Analyses.FATAL_ERROR
                     (set_errtracker
                        (λ t, foldl (λ t err, add_error err t)
                                (fatal_error
                                   ("Failed to create tasks for analysis. "
                                    +:+ exn_str e +:+ ". Reasons: "
                                    +:+ join ", " (Task.reasons_of e)) t)
                                (Task.reasons_of e))
                        (set_analysis (λ _, a') wt0)) in
        (Ok tt, (wt1, persist wt1 w'))
    end.
Proof.
  destruct wt as [c aid otid a otk et]. simpl. intros Hf.
  unfold handle_pre_done, create_all, add_errors, on_wt, analyses_write_changes.
  eff_run. rewrite Hf. simpl.
  destruct (Task.create_all (nodes c) (prepare_analysis dfp pre a, w))
    as [[[tasks errs]|e] [a' w']]; done.
Qed.

(** C1 (as amended). Let N be the number of platforms the analysis
    requests when [handle_pre_done] reaches task creation and M the
    number of those that lack resource support, and suppose that none of
    the task directories numbered 1 to N-M of the analysis exists yet.
    If N-M > 0, [create_all] returns N-M tasks, numbered 1 to N-M, and M
    reasons; the handler records the M reasons, moves the analysis to
    TASKS_PENDING (in memory and on disk) and hands exactly the created
    tasks to the scheduler.  If N-M = 0, [create_all] raises
    NoTasksCreatedError carrying the M reasons and leaves the analysis
    and the disk as they were; the handler records the reasons and moves
    the analysis to FATAL_ERROR, scheduling nothing.  Hence the analysis
    reaches TASKS_PENDING if and only if N-M > 0. *)
Theorem task_creation_partial_failure (dfp : Analysis → Pre → list Platform)
  (wt : _WorkTracker) (w : World) (pre : Pre) :
  prejson w !! analysis_id wt = Some pre →
  let a := prepare_analysis dfp pre (analysis wt) in
  let nt := nodes (ctx wt) in
  let N := Task.n_requested (platforms (a_settings a)) in
  let M := Task.n_unsupported nt (a_settings a) (platforms (a_settings a)) in
  (∀ k, 1 ≤ k ≤ N - M → make_task_id (a_id a) k ∉ task_path w) →
  let h := handle_pre_done dfp in
  outcome h (wt, w) = Ok tt
  ∧ persisted_state wt (world_after h (wt, w)) = Some (state_after h (wt, w))
  ∧ (state_after h (wt, w) = Analyses.TASKS_PENDING ↔ 0 < N - M)
  ∧ (0 < N - M →
     ∃ tasks reasons st',
       Task.create_all nt (a, w) = (Ok (tasks, reasons), st')
       ∧ length tasks = N - M
       ∧ length reasons = M
       ∧ map t_number tasks = seq 1 (N - M)
       ∧ state_after h (wt, w) = Analyses.TASKS_PENDING
       ∧ queue_many (ctx (wt_after h (wt, w))) = queue_many (ctx wt) ++ tasks
       ∧ et_errors (errtracker (wt_after h (wt, w)))
         = et_errors (errtracker wt) ++ reasons
       ∧ et_fatal (errtracker (wt_after h (wt, w))) = et_fatal (errtracker wt))
  ∧ (N - M = 0 →
     ∃ msg reasons,
       Task.create_all nt (a, w)
       = (Raise (Task.NoTasksCreatedError msg reasons), (a, w))
       ∧ length reasons = M
       ∧ state_after h (wt, w) = Analyses.FATAL_ERROR
       ∧ queue_many (ctx (wt_after h (wt, w))) = queue_many (ctx wt)
       ∧ et_errors (errtracker (wt_after h (wt, w)))
         = et_errors (errtracker wt) ++ reasons).
Proof.
  intros Hf a nt N M Hfresh h.
  pose proof (Task.n_supported_unsupported nt (a_settings a)
                (platforms (a_settings a))) as Hsum.
  fold N M in Hsum.
  assert (HNM : N - M = Task.n_supported nt (a_settings a)
                          (platforms (a_settings a))) by lia.
  pose proof (handle_pre_done_eq dfp wt w pre Hf) as E. cbv zeta in E.
  assert (Ha_id : a_id a = a_id (analysis wt)).
  { subst a. unfold prepare_analysis. by destruct (pre_platforms pre). }
  subst h. unfold outcome, state_after, persisted_state, wt_after, world_after.
  destruct (decide (0 < N - M)) as [Hpos|Hzero].
  - destruct (Task.create_all_fresh nt a w) as (tasks & reasons & Hl & Hr & Hn & Hc).
    { intros k Hk. apply Hfresh. lia. }
    { lia. }
    change (analysis (set_analysis (prepare_analysis dfp pre) wt)) with a in E.
    fold nt in E. rewrite Hc in E. rewrite E. clearbody a. simpl.
    unfold persist. simpl. rewrite Ha_id, lookup_insert_eq. simpl.
    split; [done|]. split; [done|]. split; [done|]. split; [|lia].
    intros _. eexists tasks, reasons, _. split; [exact Hc|].
    rewrite <- HNM in Hl. rewrite Hl in Hn.
    destruct (foldl_add_error reasons (errtracker wt)) as [He1 He2].
    by repeat split.
  - destruct (Task.create_all_none nt a w) as (msg & reasons & Hr & Hc).
    { lia. }
    change (analysis (set_analysis (prepare_analysis dfp pre) wt)) with a in E.
    fold nt in E. rewrite Hc in E. rewrite E. clearbody a. simpl.
    unfold persist. simpl. rewrite Ha_id, lookup_insert_eq. simpl.
    split; [done|]. split; [done|]. split; [split; [done|lia]|].
    split; [lia|]. intros _. exists msg, reasons. split; [exact Hc|].
    destruct (foldl_add_error reasons
                (fatal_error ("Failed to create tasks for analysis. " +:+ msg
                              +:+ ". Reasons: " +:+ join ", " reasons)
                             (errtracker wt))) as [He1 He2].
    by repeat split.
Qed.

(** Nodes that offer Windows 10 machines only, with any route. *)
Definition only_win10 : Task.NodesTracker :=
  {| Task.find_support := λ p _, (bool_decide (os_version p = "10"), true) |}.

Definition sample_pre : Pre :=
  {| pre_platforms := []; pre_target := Some "sample.bin"; pre_score := 0;
     pre_tags := [] |}.

Definition keep_platforms (a : Analysis) (_ : Pre) : list Platform :=
  platforms (a_settings a).

Definition pre_job : _WorkTracker :=
  sample_job only_win10 (sample_analysis false Analyses.PENDING_PRE [win10; win7]).

Definition world_with_pre : World :=
  set_prejson {[ "20240101-AAAAAA" := sample_pre ]} (empty_world false).

Lemma task_creation_partial_failure_witness :
  let a := prepare_analysis keep_platforms sample_pre (analysis pre_job) in
  prejson world_with_pre !! analysis_id pre_job = Some sample_pre
  ∧ Task.n_requested (platforms (a_settings a)) = 2
  ∧ Task.n_unsupported only_win10 (a_settings a) (platforms (a_settings a)) = 1
  ∧ (∀ k, 1 ≤ k ≤ 2 - 1 → make_task_id (a_id a) k ∉ task_path world_with_pre)
  ∧ state_after (handle_pre_done keep_platforms) (pre_job, world_with_pre)
    = Analyses.TASKS_PENDING
  ∧ length (queue_many (ctx (wt_after (handle_pre_done keep_platforms)
                               (pre_job, world_with_pre)))) = 1.
Proof.
  intros a.
  assert (Hfresh : ∀ k, 1 ≤ k ≤ 2 - 1 →
                        make_task_id (a_id a) k ∉ task_path world_with_pre).
  { intros k _. simpl. apply not_elem_of_empty. }
  destruct (task_creation_partial_failure keep_platforms pre_job world_with_pre
              sample_pre eq_refl Hfresh) as (_ & _ & _ & Hpos & _).
  destruct Hpos as (tasks & reasons & st' & _ & Hl & _ & _ & Hst & Hq & _).
  { vm_compute. lia. }
  split; [reflexivity|]. split; [reflexivity|]. split; [reflexivity|].
  split; [exact Hfresh|]. split; [exact Hst|].
  rewrite Hq, length_app, Hl. reflexivity.
Defined.

(** C1 as stated fails when a task directory of the analysis already
    exists (as after an earlier run of the handler for the same
    analysis): the one requested platform is supported, so N-M = 1, but
    [create_all] raises TaskCreationError instead of returning a task,
    and the handler moves the analysis to FATAL_ERROR and schedules
    nothing. *)
Lemma task_creation_directory_exists :
  let wt := sample_job all_supported
              (sample_analysis false Analyses.PENDING_PRE [win10]) in
  let w := set_task_path (λ _, {[ make_task_id "20240101-AAAAAA" 1 ]})
             world_with_pre in
  let a := prepare_analysis keep_platforms sample_pre (analysis wt) in
  let N := Task.n_requested (platforms (a_settings a)) in
  let M := Task.n_unsupported all_supported (a_settings a) (platforms (a_settings a)) in
  0 < N - M
  ∧ (∃ msg, fst (Task.create_all all_supported (a, w))
            = Raise (Task.TaskCreationError msg []))
  ∧ state_after (handle_pre_done keep_platforms) (wt, w) = Analyses.FATAL_ERROR
  ∧ state_after (handle_pre_done keep_platforms) (wt, w) ≠ Analyses.TASKS_PENDING
  ∧ queue_many (ctx (wt_after (handle_pre_done keep_platforms) (wt, w))) = [].
Proof.
  vm_compute. split; [lia|]. split; [by eexists|]. repeat split; congruence.
Qed.

(** *** The end of a task in the task's own records *)

(** The state a task ends in. *)
Definition final_task_state (e : task_end) (has_report : bool) : string :=
  match e with
  | PostDone => if has_report then Task.States.REPORTED else Task.States.FATAL_ERROR
  | PostFailed | RunFailed => Task.States.FATAL_ERROR
  end.

(** What a task-ending handler leaves of the task: the object in
    memory, written to disk and to the table. *)
Lemma task_end_writes (e : task_end) wt w tid t :
  wt_task_id wt = Some tid → task wt = Some t → t_id t = tid →
  ∃ (t' : Task) (w0 w1 : World) (wt' : _WorkTracker),
    task_end_handler e (wt, w) = (Ok tt, (wt', w1))
    ∧ task wt' = Some t'
    ∧ t_id t' = tid
    ∧ t_state t' = final_task_state e (bool_decide (is_Some (report w !! tid)))
    ∧ db_tasks w0 = db_tasks w
    ∧ taskjson w1 = taskjson (Task.write_changes t' w0)
    ∧ db_tasks w1 = db_tasks (Task.write_changes t' w0).
Proof.
  intros Hid Ht Htid. destruct e; simpl.
  - destruct (report w !! tid) as [post|] eqn:Hrep.
    + pose proof (handle_post_done_present wt w tid t post Hid Ht Hrep) as E.
      cbv zeta in E. rewrite bool_decide_eq_true_2 by eauto.
      eexists (set_t_state Task.States.REPORTED (set_t_score (post_score post) t)),
        w, _, _.
      split; [exact E|].
      unfold final_check.
      split; [by destruct (Task.has_unfinished_tasks _ _); simpl; rewrite Ht|].
      done.
    + pose proof (handle_post_done_missing wt w tid t Hid Ht Hrep) as E.
      cbv zeta in E. rewrite bool_decide_eq_false_2 by (by intros [? ?]).
      eexists (set_t_state Task.States.FATAL_ERROR t), w, _, _.
      split; [exact E|].
      split; [by simpl; rewrite Ht|]. done.
  - destruct (merge_processing_errors_frame t w) as [H1 H2].
    pose proof (set_failed_post wt w tid t Hid Ht) as E. cbv zeta in E.
    eexists (set_t_state Task.States.FATAL_ERROR
               (fst (Task.merge_processing_errors t w))),
      (snd (Task.merge_processing_errors t w)), _, _.
    split; [exact E|]. unfold final_check.
    split; [by destruct (Task.has_unfinished_tasks _ _); simpl; rewrite Ht|].
    split; [simpl; congruence|]. done.
  - destruct (merge_run_errors_frame t w) as [H1 H2].
    pose proof (set_task_failed_eq wt w tid t Hid Ht) as E. cbv zeta in E.
    eexists (set_t_state Task.States.FATAL_ERROR
               (fst (Task.merge_run_errors t w))),
      (snd (Task.merge_run_errors t w)), _, _.
    split; [exact E|]. unfold final_check.
    split; [by destruct (Task.has_unfinished_tasks _ _); simpl; rewrite Ht|].
    split; [simpl; congruence|]. done.
Qed.

(** X5. However a task ends - post-processing done (with or without a
    report), post-processing failed, run failed - the handler returns
    normally and the records of the task agree afterwards: the task
    object in memory, the task document on disk and the row of the task
    in the task table all hold the same final state (reported only
    for a completed post-processing whose report exists, fatal_error
    otherwise) and the same score.  No row is added or removed, and the
    rows of other tasks are left as they were. *)
Theorem task_end_records_agree (e : task_end) (wt : _WorkTracker) (w : World)
  (tid : task_id) (t : Task) :
  wt_task_id wt = Some tid → task wt = Some t → t_id t = tid →
  let h := task_end_handler e in
  let st := final_task_state e (bool_decide (is_Some (report w !! tid))) in
  outcome h (wt, w) = Ok tt
  ∧ (∃ t', task (wt_after h (wt, w)) = Some t'
           ∧ t_id t' = tid ∧ t_state t' = st
           ∧ taskjson (world_after h (wt, w)) !! tid = Some t'
           ∧ ∀ r, r ∈ db_tasks (world_after h (wt, w)) → row_id r = tid →
                  row_state r = st ∧ row_score r = t_score t')
  ∧ map row_id (db_tasks (world_after h (wt, w))) = map row_id (db_tasks w)
  ∧ (∀ r, r ∈ db_tasks (world_after h (wt, w)) → row_id r ≠ tid →
          r ∈ db_tasks w).
Proof.
  intros Hid Ht Htid h st. subst h st.
  destruct (task_end_writes e wt w tid t Hid Ht Htid)
    as (t' & w0 & w1 & wt' & E & Ht' & Hid' & Hst & Hdb0 & Hjson & Hdb1).
  unfold outcome, wt_after, world_after. rewrite E. simpl.
  destruct (Task.write_changes_rows t' w0) as (Hids & Hown & Hother).
  rewrite Hid', Hdb0 in *. rewrite Hdb1.
  split; [done|]. split.
  - exists t'. split; [done|]. split; [done|]. split; [done|].
    split; [rewrite Hjson, <- Hid'; apply Task.write_changes_taskjson|].
    intros r Hr Hrid. rewrite <- Hst. by apply Hown.
  - split; [exact Hids|]. exact Hother.
Qed.

Lemma task_end_records_agree_witness :
  let w := set_report sample_report (two_task_world Task.States.RUNNING) in
  let h := task_end_handler PostDone in
  outcome h (post_job_1, w) = Ok tt
  ∧ ∃ t', task (wt_after h (post_job_1, w)) = Some t'
          ∧ t_state t' = Task.States.REPORTED
          ∧ taskjson (world_after h (post_job_1, w))
              !! make_task_id "20240101-AAAAAA" 1 = Some t'.
Proof.
  intros w h.
  destruct (task_end_records_agree PostDone post_job_1 w
              (make_task_id "20240101-AAAAAA" 1)
              (sample_task 1 Task.States.PENDING_POST) eq_refl eq_refl eq_refl)
    as (Hok & (t' & Ht' & _ & Hst & Hdoc & _) & _).
  split; [exact Hok|]. exists t'.
  split; [exact Ht'|]. split; [exact Hst|exact Hdoc].
Defined.

(** *** A task whose run is done *)

Definition queue_post_analysis (wt : _WorkTracker) : _WorkTracker :=
  set_ctx (λ c, mkCtx (nodes c) (delete_completed_analysis c) (queue_many c)
                      (pre_analysis c)
                      (post_analysis c ++ [(analysis_id wt, wt_task_id wt)])) wt.

Lemma handle_task_done_eq wt w tid t :
  wt_task_id wt = Some tid → task wt = Some t →
  let t' := set_t_state Task.States.PENDING_POST (fst (Task.merge_run_errors t w)) in
  handle_task_done (wt, w)
  = (Ok tt, (queue_post_analysis (set_task (λ _, t') wt),
             Task.write_changes t' (snd (Task.merge_run_errors t w)))).
Proof.
  destruct wt as [c aid otid a otk et]. simpl. intros -> ->.
  unfold handle_task_done, task_merge_run_errors, task_write_changes,
    the_task, on_wt, on_world, queue_post_analysis.
  simpl. eff_run.
  by destruct (Task.merge_run_errors t w) as [t0 w0].
Qed.

(** X6. [handle_task_done] returns normally for a job with a loaded
    task.  It puts the task in state pending_post in memory, in the
    task document and in the task table, removes the run-error file of
    the task, and asks for the post-processing of exactly this task,
    once.  The analysis object and the analysis document are not
    touched, nothing else is queued, and as long as the task has a row
    in the table, the analysis counts as having unfinished tasks. *)
Theorem handle_task_done_queues_post (wt : _WorkTracker) (w : World)
  (tid : task_id) (t : Task) :
  wt_task_id wt = Some tid → task wt = Some t → t_id t = tid →
  let h := handle_task_done in
  outcome h (wt, w) = Ok tt
  ∧ (∃ t', task (wt_after h (wt, w)) = Some t'
           ∧ t_id t' = tid ∧ t_state t' = Task.States.PENDING_POST
           ∧ taskjson (world_after h (wt, w)) !! tid = Some t')
  ∧ runerr_json (world_after h (wt, w)) !! tid = None
  ∧ post_analysis (ctx (wt_after h (wt, w)))
    = post_analysis (ctx wt) ++ [(analysis_id wt, Some tid)]
  ∧ pre_analysis (ctx (wt_after h (wt, w))) = pre_analysis (ctx wt)
  ∧ queue_many (ctx (wt_after h (wt, w))) = queue_many (ctx wt)
  ∧ delete_completed_analysis (ctx (wt_after h (wt, w)))
    = delete_completed_analysis (ctx wt)
  ∧ analysis (wt_after h (wt, w)) = analysis wt
  ∧ analysisjson (world_after h (wt, w)) = analysisjson w
  ∧ ((∃ r, r ∈ db_tasks w ∧ row_id r = tid
           ∧ row_analysis_id r = analysis_id wt) →
     Task.has_unfinished_tasks (analysis_id wt) (world_after h (wt, w)) = true).
Proof.
  intros Hid Ht Htid h. subst h.
  pose proof (handle_task_done_eq wt w tid t Hid Ht) as E. cbv zeta in E.
  unfold outcome, wt_after, world_after. rewrite E. clear E.
  destruct (merge_run_errors_frame t w) as [Hmid Hmdb].
  assert (Hfiles : runerr_json (snd (Task.merge_run_errors t w)) !! t_id t = None
                   ∧ analysisjson (snd (Task.merge_run_errors t w)) = analysisjson w).
  { unfold Task.merge_run_errors.
    destruct (runerr_json w !! t_id t) eqn:Ef; simpl; [|done].
    split; [apply lookup_delete_eq|done]. }
  destruct Hfiles as [Hgone Hdoc].
  destruct (Task.merge_run_errors t w) as [t0 w0].
  simpl in *. rewrite Htid in *.
  split; [done|]. split.
  { eexists. split; [by rewrite Ht|]. split; [done|]. split; [done|].
    rewrite <- Hmid. apply lookup_insert_eq. }
  split; [exact Hgone|]. split; [by rewrite Hid|].
  split; [done|]. split; [done|]. split; [done|]. split; [done|].
  split; [exact Hdoc|].
  intros (r & Hr & Hrid & Haid).
  apply Task.has_unfinished_tasks_iff.
  eexists. split.
  { simpl. apply list_elem_of_fmap. exists r. split; [reflexivity|].
    by rewrite Hmdb. }
  rewrite decide_True by congruence. simpl. split; [done|].
  right. right. left.
Qed.

Lemma handle_task_done_queues_post_witness :
  let t := sample_task 1 Task.States.RUNNING in
  let wt := sample_task_job all_supported
              (sample_analysis false Analyses.TASKS_PENDING [win10]) t in
  let w := world_with_tasks [t] in
  let h := handle_task_done in
  outcome h (wt, w) = Ok tt
  ∧ post_analysis (ctx (wt_after h (wt, w)))
    = [("20240101-AAAAAA", Some (make_task_id "20240101-AAAAAA" 1))]
  ∧ Task.has_unfinished_tasks "20240101-AAAAAA" (world_after h (wt, w)) = true.
Proof.
  intros t wt w h.
  destruct (handle_task_done_queues_post wt w (make_task_id "20240101-AAAAAA" 1) t
              eq_refl eq_refl eq_refl)
    as (Hok & _ & _ & Hpost & _ & _ & _ & _ & _ & Hunf).
  split; [exact Hok|]. split; [exact Hpost|].
  apply Hunf. exists (Task.task_row t). split; [left|]. by split.
Defined.

(** *** Work types *)

Definition work_types : list string := ["identification"; "pre"; "post"].

(** X7. [set_next_state] and [set_failed] accept the work types
    identification, pre and post only.  For any other work type both
    raise ValueError before they touch anything, and the job the
    worker runs for such a message ends with the work tracker and the
    disk as they were: the error is logged, not recorded. *)
Theorem unknown_worktype_rejected (dfp : Analysis → Pre → list Platform)
  (worktype : string) (wt : _WorkTracker) (w : World) :
  worktype ∉ work_types →
  has_errors (errtracker wt) = false →
  (∃ msg, set_next_state dfp worktype (wt, w) = (Raise (ValueError msg), (wt, w)))
  ∧ (∃ msg, set_failed worktype (wt, w) = (Raise (ValueError msg), (wt, w)))
  ∧ run_job (set_next_state dfp worktype) (wt, w) = (wt, w)
  ∧ run_job (set_failed worktype) (wt, w) = (wt, w).
Proof.
  intros Hnot Hnoerr. unfold work_types in Hnot.
  rewrite !not_elem_of_cons in Hnot. destruct Hnot as (H1 & H2 & H3 & _).
  assert (Hclose : close (wt, w) = (Ok tt, (wt, w))).
  { unfold close. eff_run. by rewrite Hnoerr. }
  unfold run_job, set_next_state, set_failed.
  rewrite !decide_False by done. unfold raise.
  rewrite Hclose. simpl. split; [by eexists|]. split; [by eexists|]. done.
Qed.

Lemma unknown_worktype_rejected_witness :
  let wt := sample_job all_supported
              (sample_analysis false Analyses.PENDING_PRE [win10]) in
  let w := empty_world false in
  ("static" ∉ work_types)
  ∧ run_job (set_next_state keep_platforms "static") (wt, w) = (wt, w)
  ∧ run_job (set_failed "static") (wt, w) = (wt, w).
Proof.
  intros wt w.
  assert (Hnot : "static" ∉ work_types).
  { unfold work_types. rewrite !not_elem_of_cons. repeat split; try discriminate.
    apply not_elem_of_nil. }
  destruct (unknown_worktype_rejected keep_platforms "static" wt w Hnot eq_refl)
    as (_ & _ & H1 & H2).
  split; [exact Hnot|]. split; [exact H1|exact H2].
Defined.

(** *** A failed analysis stage *)

(** X8. [set_failed] for the identification or the pre stage returns
    normally with the analysis in FATAL_ERROR, in memory and in the
    analysis document.  It asks for no further stage, schedules no task
    and requests no cleanup, records nothing in the error tracker, and
    touches no task directory, task document or row of the task table. *)
Theorem set_failed_analysis_stage (worktype : string) (wt : _WorkTracker)
  (w : World) :
  worktype = "identification" ∨ worktype = "pre" →
  let h := set_failed worktype in
  outcome h (wt, w) = Ok tt
  ∧ state_after h (wt, w) = Analyses.FATAL_ERROR
  ∧ persisted_state wt (world_after h (wt, w)) = Some Analyses.FATAL_ERROR
  ∧ ctx (wt_after h (wt, w)) = ctx wt
  ∧ task (wt_after h (wt, w)) = task wt
  ∧ errtracker (wt_after h (wt, w)) = errtracker wt
  ∧ task_path (world_after h (wt, w)) = task_path w
  ∧ taskjson (world_after h (wt, w)) = taskjson w
  ∧ db_tasks (world_after h (wt, w)) = db_tasks w.
Proof.
  intros Hwt h. subst h.
  assert (E : set_failed worktype
              = (analyses_merge_processing_errors;;
                 on_wt (set_analysis (set_a_state Analyses.FATAL_ERROR));;
                 analyses_write_changes)).
  { unfold set_failed. destruct Hwt as [-> | ->]; by repeat case_decide. }
  rewrite E. clear E Hwt.
  destruct wt as [c aid otid a otk et].
  unfold outcome, state_after, persisted_state, wt_after, world_after,
    analyses_merge_processing_errors, analyses_write_changes, on_wt.
  eff_run.
  destruct (a_processingerr_json w !! a_id a) as [errs|]; simpl.
  - assert (Hid : a_id (analyses_merge_errors a errs) = a_id a).
    { unfold analyses_merge_errors. by destruct (a_errors a). }
    rewrite Hid, lookup_insert_eq. done.
  - rewrite lookup_insert_eq. done.
Qed.

Lemma set_failed_analysis_stage_witness :
  let wt := sample_job all_supported
              (sample_analysis false Analyses.PENDING_PRE [win10]) in
  let h := set_failed "pre" in
  outcome h (wt, empty_world false) = Ok tt
  ∧ state_after h (wt, empty_world false) = Analyses.FATAL_ERROR
  ∧ pre_analysis (ctx (wt_after h (wt, empty_world false))) = []
  ∧ queue_many (ctx (wt_after h (wt, empty_world false))) = [].
Proof.
  intros wt h.
  destruct (set_failed_analysis_stage "pre" wt (empty_world false)
              (or_intror eq_refl))
    as (Hok & Hst & _ & Hctx & _).
  split; [exact Hok|]. split; [exact Hst|].
  fold h in Hctx. rewrite Hctx. by split.
Defined.

End Control.

(* ================================================================== *)
(** * control.py: the analysis lock registry                           *)
(* ================================================================== *)

Module Locker.

(** [threading.Lock()] objects only matter through their identity: every
    construction yields a fresh object, numbered by allocation order. *)
Definition lock_obj := nat.

(** class _AnalysisLock *)
Record _AnalysisLock := mk_AnalysisLock {
  lock : lock_obj;
  waiters : Z
}.

Definition decrement_waiters (l : _AnalysisLock) : _AnalysisLock :=
  {| lock := lock l; waiters := waiters l - 1 |}.

Definition increment_waiters (l : _AnalysisLock) : _AnalysisLock :=
  {| lock := lock l; waiters := waiters l + 1 |}.

(** class _AnalysisLocker.  [_locks] is the dict of the source;
    [allocated] counts the lock objects constructed so far. The
    [_trackerlock] serialises [inform_work] and [inform_work_done], so
    a run of the registry is a sequence of calls. *)
Record _AnalysisLocker := mk_AnalysisLocker {
  _locks : gmap string _AnalysisLock;
  allocated : nat
}.

(** [_AnalysisLocker.__init__] *)
Definition init : _AnalysisLocker :=
  {| _locks := ∅; allocated := 0 |}.

Inductive exn := KeyError (key : string).

(** [inform_work]: [setdefault] evaluates its default argument, a new
    [_AnalysisLock()], on every call and stores it only when the key is
    absent. *)
Definition inform_work (analysis_id : string) (self : _AnalysisLocker)
  : _AnalysisLocker :=
  let fresh := {| lock := allocated self; waiters := 0 |} in
  let a_lock := default fresh (_locks self !! analysis_id) in
  {| _locks := <[analysis_id := increment_waiters a_lock]> (_locks self);
     allocated := S (allocated self) |}.

(** [inform_work_done]: [self._locks[analysis_id]] raises [KeyError] on
    an absent key. *)
Definition inform_work_done (analysis_id : string) (self : _AnalysisLocker)
  : result exn _AnalysisLocker :=
  match _locks self !! analysis_id with
  | None => Raise (KeyError analysis_id)
  | Some a_lock =>
      let a_lock := decrement_waiters a_lock in
      if (waiters a_lock <? 1)%Z
      then Ok {| _locks := delete analysis_id (_locks self);
                 allocated := allocated self |}
      else Ok {| _locks := <[analysis_id := a_lock]> (_locks self);
                 allocated := allocated self |}
  end.

(** [get_analysis_lock] *)
Definition get_analysis_lock (analysis_id : string) (self : _AnalysisLocker)
  : result exn lock_obj :=
  match _locks self !! analysis_id with
  | None => Raise (KeyError analysis_id)
  | Some a_lock => Ok (lock a_lock)
  end.

(** *** Call sequences *)

Inductive call :=
| InformWork (analysis_id : string)
| InformWorkDone (analysis_id : string).

Definition step (c : call) (self : _AnalysisLocker)
  : result exn _AnalysisLocker :=
  match c with
  | InformWork i => Ok (inform_work i self)
  | InformWorkDone i => inform_work_done i self
  end.

(** Calls are applied in order; the first exception ends the run. *)
Fixpoint run (tr : list call) (self : _AnalysisLocker)
  : result exn _AnalysisLocker :=
  match tr with
  | [] => Ok self
  | c :: tr' =>
      match step c self with
      | Ok self' => run tr' self'
      | Raise e => Raise e
      end
  end.

(** Counting the calls of a sequence, independently of the registry. *)
Definition is_work (i : string) (c : call) : bool :=
  match c with InformWork j => bool_decide (i = j) | _ => false end.

Definition is_done (i : string) (c : call) : bool :=
  match c with InformWorkDone j => bool_decide (i = j) | _ => false end.

Definition n_work (i : string) (tr : list call) : nat :=
  length (filter (λ c, is_work i c = true) tr).

Definition n_done (i : string) (tr : list call) : nat :=
  length (filter (λ c, is_done i c = true) tr).

(** Every [inform_work_done(id)] is preceded by a matching unconsumed
    [inform_work(id)]: in no prefix do the completions of an id outnumber
    its announcements. *)
Definition well_matched (tr : list call) : Prop :=
  ∀ (p s : list call) i, tr = p ++ s → n_done i p ≤ n_work i p.

(** The id has announced work that is not yet completed. *)
Definition outstanding (i : string) (tr : list call) : Prop :=
  n_done i tr < n_work i tr.

(** *** The registry follows the counts *)

Lemma run_app (t1 t2 : list call) (self : _AnalysisLocker) :
  run (t1 ++ t2) self =
  match run t1 self with Ok self' => run t2 self' | Raise e => Raise e end.
Proof.
  revert self. induction t1 as [|c t1 IH]; intros self; simpl; [done|].
  destruct (step c self); [apply IH | done].
Qed.

Lemma n_work_app i (t1 t2 : list call) :
  n_work i (t1 ++ t2) = n_work i t1 + n_work i t2.
Proof. unfold n_work. by rewrite filter_app, length_app. Qed.

Lemma n_done_app i (t1 t2 : list call) :
  n_done i (t1 ++ t2) = n_done i t1 + n_done i t2.
Proof. unfold n_done. by rewrite filter_app, length_app. Qed.

Lemma n_work_one i c : n_work i [c] = if is_work i c then 1 else 0.
Proof.
  unfold n_work. rewrite filter_cons, filter_nil.
  destruct (is_work i c); by case_decide.
Qed.

Lemma n_done_one i c : n_done i [c] = if is_done i c then 1 else 0.
Proof.
  unfold n_done. rewrite filter_cons, filter_nil.
  destruct (is_done i c); by case_decide.
Qed.

Lemma well_matched_prefix (t1 t2 : list call) :
  well_matched (t1 ++ t2) → well_matched t1.
Proof.
  intros H p s i ->. apply (H p (s ++ t2) i). by rewrite app_assoc.
Qed.

(** What the registry holds after a sequence: an entry exactly for the
    ids whose announcements outnumber their completions, with the
    difference as waiter count. *)
Definition tracks (self : _AnalysisLocker) (tr : list call) : Prop :=
  ∀ i, match _locks self !! i with
       | Some a => (waiters a = Z.of_nat (n_work i tr) - Z.of_nat (n_done i tr)
                    ∧ 1 ≤ waiters a)%Z
       | None => n_work i tr = n_done i tr
       end.

Lemma tracks_init : tracks init [].
Proof. intros i. unfold init; simpl. by rewrite lookup_empty. Qed.

Lemma tracks_inform_work self tr i :
  n_done i tr ≤ n_work i tr →
  tracks self tr → tracks (inform_work i self) (tr ++ [InformWork i]).
Proof.
  intros Hle Htr j. specialize (Htr j).
  rewrite n_work_app, n_done_app, n_work_one, n_done_one.
  unfold inform_work; simpl.
  destruct (decide (i = j)) as [<-|Hne].
  - rewrite lookup_insert_eq. rewrite bool_decide_eq_true_2 by done.
    destruct (_locks self !! i) as [a|]; simpl; lia.
  - rewrite lookup_insert_ne by done.
    rewrite bool_decide_eq_false_2 by congruence.
    destruct (_locks self !! j) as [a|]; simpl; lia.
Qed.

Lemma tracks_inform_work_done self tr i :
  n_done i tr < n_work i tr →
  tracks self tr →
  ∃ self', inform_work_done i self = Ok self'
           ∧ tracks self' (tr ++ [InformWorkDone i]).
Proof.
  intros Hlt Htr. unfold inform_work_done.
  pose proof (Htr i) as Hi.
  destruct (_locks self !! i) as [a|] eqn:Ea; [|lia].
  destruct Hi as [Hw H1]. simpl.
  destruct (Z.ltb_spec (waiters a - 1) 1) as [Hlast|Hmore].
  - eexists; split; [done|]. intros j. specialize (Htr j). simpl.
    rewrite n_work_app, n_done_app, n_work_one, n_done_one. simpl.
    destruct (decide (i = j)) as [<-|Hne].
    + rewrite lookup_delete_eq. rewrite bool_decide_eq_true_2 by done. lia.
    + rewrite lookup_delete_ne by done.
      rewrite bool_decide_eq_false_2 by congruence.
      destruct (_locks self !! j); simpl; lia.
  - eexists; split; [done|]. intros j. specialize (Htr j). simpl.
    rewrite n_work_app, n_done_app, n_work_one, n_done_one. simpl.
    destruct (decide (i = j)) as [<-|Hne].
    + rewrite lookup_insert_eq. rewrite bool_decide_eq_true_2 by done.
      simpl. lia.
    + rewrite lookup_insert_ne by done.
      rewrite bool_decide_eq_false_2 by congruence.
      destruct (_locks self !! j); simpl; lia.
Qed.

Lemma run_tracks (tr : list call) :
  well_matched tr → ∃ self, run tr init = Ok self ∧ tracks self tr.
Proof.
  induction tr as [|c tr IH] using rev_ind; intros Hwm.
  - exists init. split; [done | apply tracks_init].
  - destruct (IH (well_matched_prefix _ _ Hwm)) as (self & Hrun & Htr).
    rewrite run_app, Hrun. simpl.
    pose proof (Hwm tr [c]) as Hpre.
    pose proof (Hwm (tr ++ [c]) []) as Hall.
    destruct c as [i|i]; simpl.
    + eexists; split; [done|].
      apply tracks_inform_work; [by apply Hpre | done].
    + destruct (tracks_inform_work_done self tr i) as (self' & -> & Htr');
        [|done|by eexists].
      specialize (Hall i). rewrite app_nil_r in Hall.
      specialize (Hall eq_refl). specialize (Hpre i eq_refl).
      rewrite n_work_app, n_done_app, n_work_one, n_done_one in Hall.
      simpl in Hall. rewrite bool_decide_eq_true_2 in Hall by done. lia.
Qed.

Lemma tracks_entry self tr i :
  tracks self tr → (is_Some (_locks self !! i) ↔ outstanding i tr).
Proof.
  intros Htr. specialize (Htr i). unfold outstanding.
  destruct (_locks self !! i) as [a|]; split.
  - intros _. lia.
  - by eexists.
  - intros [? [=]].
  - lia.
Qed.

(** A call never replaces the lock object of an entry that survives it. *)
Lemma step_keeps_lock c self self' i a a' :
  step c self = Ok self' →
  _locks self !! i = Some a → _locks self' !! i = Some a' →
  lock a' = lock a.
Proof.
  destruct c as [j|j]; simpl.
  - intros [= <-]. unfold inform_work; simpl.
    destruct (decide (j = i)) as [->|Hne].
    + rewrite lookup_insert_eq. intros -> [= <-]. done.
    + rewrite lookup_insert_ne by done. congruence.
  - unfold inform_work_done.
    destruct (_locks self !! j) as [b|] eqn:Eb; [|done].
    destruct (waiters (decrement_waiters b) <? 1)%Z; intros [= <-]; simpl.
    + destruct (decide (j = i)) as [->|Hne].
      * by rewrite lookup_delete_eq.
      * rewrite lookup_delete_ne by done. congruence.
    + destruct (decide (j = i)) as [->|Hne].
      * rewrite lookup_insert_eq. intros ? [= <-]. simpl. congruence.
      * rewrite lookup_insert_ne by done. congruence.
Qed.

Lemma lock_stable_from (between before : list call) (i : string) self0 a0 :
  well_matched (before ++ between) →
  (∀ p s : list call, between = p ++ s → outstanding i (before ++ p)) →
  run before init = Ok self0 →
  _locks self0 !! i = Some a0 →
  ∀ p s : list call, between = p ++ s →
    ∃ self, run (before ++ p) init = Ok self
            ∧ get_analysis_lock i self = Ok (lock a0).
Proof.
  revert before self0 a0.
  induction between as [|c between IH]; intros before self0 a0 Hwm Hout Hrun Ea.
  - intros p s Hps. symmetry in Hps. apply app_eq_nil in Hps as [-> _].
    rewrite app_nil_r. exists self0. split; [done|].
    unfold get_analysis_lock. by rewrite Ea.
  - intros [|c' p] s Hps.
    + rewrite app_nil_r. exists self0. split; [done|].
      unfold get_analysis_lock. by rewrite Ea.
    + simpl in Hps. injection Hps as <- Hb.
      assert (Hwm1 : well_matched ((before ++ [c]) ++ between))
        by (by rewrite <- app_assoc).
      destruct (run_tracks _ (well_matched_prefix _ _ Hwm1))
        as (self1 & Hrun1 & Htr1).
      pose proof (Hout [c] between eq_refl) as H1.
      apply (tracks_entry _ _ _ Htr1) in H1 as [a1 Ea1].
      assert (Hl : lock a1 = lock a0).
      { rewrite run_app, Hrun in Hrun1. simpl in Hrun1.
        destruct (step c self0) as [x|] eqn:Est; [|done].
        injection Hrun1 as ->. by eapply step_keeps_lock. }
      destruct (IH (before ++ [c]) self1 a1 Hwm1) with (p := p) (s := s)
        as (self & Hr & Hg); [|done|done|done|].
      * intros p' s' ->. rewrite <- app_assoc. by apply (Hout (c :: p') s').
      * exists self. rewrite <- app_assoc in Hr. simpl in Hr.
        split; [done|]. by rewrite Hg, Hl.
Qed.

Lemma lock_stable (before between : list call) (i : string) :
  well_matched (before ++ between) →
  (∀ p s : list call, between = p ++ s → outstanding i (before ++ p)) →
  ∃ l, ∀ p s : list call, between = p ++ s →
    ∃ self, run (before ++ p) init = Ok self
            ∧ get_analysis_lock i self = Ok l.
Proof.
  intros Hwm Hout.
  destruct (run_tracks before (well_matched_prefix _ _ Hwm))
    as (self0 & Hrun0 & Htr0).
  pose proof (Hout [] between eq_refl) as H0. rewrite app_nil_r in H0.
  apply (tracks_entry _ _ _ Htr0) in H0 as [a0 Ea0].
  exists (lock a0). by eapply lock_stable_from.
Qed.

(** C9. From an empty registry, along every well-matched sequence of
    [inform_work] / [inform_work_done] calls: no call raises, the registry
    holds an entry for an id exactly when its [inform_work] calls outnumber
    its [inform_work_done] calls, and as long as an id stays outstanding
    (from an [inform_work] up to its matching [inform_work_done])
    [get_analysis_lock] succeeds and returns one and the same lock object,
    so the entry is never pruned in between. *)
Theorem analysis_lock_registry (before between : list call) (i : string) :
  well_matched (before ++ between) →
  (∃ self, run (before ++ between) init = Ok self
     ∧ ∀ j, is_Some (_locks self !! j)
            ↔ n_done j (before ++ between) < n_work j (before ++ between))
  ∧ ((∀ p s : list call, between = p ++ s → outstanding i (before ++ p)) →
     ∃ l, ∀ p s : list call, between = p ++ s →
       ∃ self, run (before ++ p) init = Ok self
               ∧ get_analysis_lock i self = Ok l).
Proof.
  intros Hwm. split.
  - destruct (run_tracks _ Hwm) as (self & Hrun & Htr).
    exists self. split; [done|]. intros j. by apply tracks_entry.
  - intros Hout. by apply lock_stable.
Qed.

(** Two analyses at work: ["a"] announces, then ["b"] announces and
    completes while ["a"] is still outstanding. *)
Lemma analysis_lock_registry_witness :
  let before := [InformWork "a"] in
  let between := [InformWork "b"; InformWorkDone "b"] in
  well_matched (before ++ between)
  ∧ (∀ p s : list call, between = p ++ s → outstanding "a" (before ++ p))
  ∧ (∃ self, run (before ++ between) init = Ok self
       ∧ ∀ j, is_Some (_locks self !! j)
              ↔ n_done j (before ++ between) < n_work j (before ++ between))
  ∧ ∃ l, ∀ p s : list call, between = p ++ s →
       ∃ self, run (before ++ p) init = Ok self
               ∧ get_analysis_lock "a" self = Ok l.
Proof.
  intros before between.
  assert (Hwm : well_matched (before ++ between)).
  { intros p s i H. subst before between.
    repeat (destruct p as [|? p]; simpl in H;
            [ subst | first [ discriminate H | injection H as <- H ] ]);
      unfold n_done, n_work; rewrite ?filter_cons, ?filter_nil; simpl;
      repeat case_decide; simpl; try lia;
      repeat case_bool_decide; simplify_eq. }
  assert (Hout : ∀ p s : list call,
             between = p ++ s → outstanding "a" (before ++ p)).
  { intros p s H. subst before between.
    repeat (destruct p as [|? p]; simpl in H;
            [ subst | first [ discriminate H | injection H as <- H ] ]);
      vm_compute; lia. }
  destruct (analysis_lock_registry before between "a" Hwm) as [H1 H2].
  split; [exact Hwm|]. split; [exact Hout|]. split; [exact H1|].
  exact (H2 Hout).
Defined.

End Locker.

(* ================================================================== *)
(** * qemu.py: the QMP client                                          *)
(* ================================================================== *)

Module Qemu.

(** JSON values, the records exchanged on the QMP socket. *)
#[warnings="-register-all"]
Inductive json :=
| JNull
| JBool (b : bool)
| JNum (n : Z)
| JStr (s : string)
| JList (l : list json)
| JDict (d : list (string * json)).

(** A record is a JSON object: its keys with their values. *)
Definition dict : Type := list (string * json).

(** [d.get(key)] *)
Fixpoint dict_get (key : string) (d : dict) : option json :=
  match d with
  | [] => None
  | (k, v) :: d' => if decide (k = key) then Some v else dict_get key d'
  end.

(** [key in d] *)
Definition has_key (key : string) (d : dict) : bool :=
  bool_decide (is_Some (dict_get key d)).

(** Python's truth value of a JSON value. *)
Definition truthy (v : json) : bool :=
  match v with
  | JNull => false
  | JBool b => b
  | JNum n => negb (n =? 0)%Z
  | JStr s => negb (bool_decide (s = ""))
  | JList l => match l with [] => false | _ => true end
  | JDict d => match d with [] => false | _ => true end
  end.

(** The exception classes that occur in the module. *)
Inductive exn :=
| QMPError (msg : string)
| IPCError (msg : string)
| MachineryError (msg : string)
| MachineryUnhandledStateError (msg : string)
| MachineUnexpectedStateError (msg : string)
| MachineStateReachedError (msg : string)
| MachineNotFoundError (msg : string)
| KeyError (msg : string)
| TypeError (msg : string)
| AttributeError (msg : string).

(** What the peer of a connection does next: a record that arrives
    [delay] seconds after the previous one was read, or a failure of the
    connection after that time. *)
Inductive arrival :=
| Arrives (delay : N) (mes : dict)
| Breaks (delay : N).

(** The [UnixSockClient] of [cuckoo.common.ipc] (not in the sources) as
    the QMP client uses it: whether [connect] succeeds, whether a record
    can be sent, what is still to arrive, what was sent, and whether
    [cleanup] was called. *)
Record UnixSockClient := mkSock {
  connectable : bool;
  writable : bool;
  incoming : list arrival;
  sent : list dict;
  cleaned : bool
}.

(** class QMPClient.  [peer] is the socket that
    [UnixSockClient(self._sockpath)] yields, [_client_obj] the attribute
    of the source ([None] before the first use). *)
Record QMPClient := mkQMPClient {
  _sockpath : string;
  peer : UnixSockClient;
  _client_obj : option UnixSockClient
}.

Definition set_client_obj (o : option UnixSockClient) (c : QMPClient)
  : QMPClient :=
  mkQMPClient (_sockpath c) (peer c) o.

(** The client together with the clock [time.monotonic()] reads. *)
Definition Conn : Type := QMPClient * N.

(** [send_json_message] on the socket of the client. *)
Definition send_json_message (mes : dict) : Eff Conn exn unit :=
  c ← gets fst;
  match _client_obj c with
  | None => raise (AttributeError "'NoneType' object has no attribute")
  | Some sock =>
      if writable sock
      then modify (λ '(c, t),
             (set_client_obj
                (Some (mkSock (connectable sock) (writable sock)
                              (incoming sock) (sent sock ++ [mes])
                              (cleaned sock))) c, t))
      else raise (IPCError "Failed to send message")
  end.

(** Modelled from the spec: [timeout_read_response], not in the sources:
    "control-protocol reads (bounded timeout, surfaced as an error on
    expiry)".  The next record is returned when it arrives within
    [timeout] seconds; otherwise the read gives up after [timeout]
    seconds with an IPC error.  The clock advances by the time waited. *)
Definition timeout_read_response (timeout : N) : Eff Conn exn dict :=
  c ← gets fst;
  match _client_obj c with
  | None => raise (AttributeError "'NoneType' object has no attribute")
  | Some sock =>
      let put inc waited : Eff Conn exn unit :=
        modify (λ '(c, t),
          (set_client_obj
             (Some (mkSock (connectable sock) (writable sock) inc
                           (sent sock) (cleaned sock))) c,
           (t + waited)%N)) in
      match incoming sock with
      | [] => put [] timeout;; raise (IPCError "Timeout reading response")
      | Arrives delay mes :: rest =>
          if (delay <? timeout)%N
          then put rest delay;; mret mes
          else put (Arrives (delay - timeout) mes :: rest) timeout;;
               raise (IPCError "Timeout reading response")
      | Breaks delay :: rest =>
          if (delay <? timeout)%N
          then put rest delay;; raise (IPCError "Connection closed")
          else put (Breaks (delay - timeout) :: rest) timeout;;
               raise (IPCError "Timeout reading response")
      end
  end.

(** [except IPCError as e: raise QMPError(...)] *)
Definition ipc_as_qmp {A} (what : string) (m : Eff Conn exn A) : Eff Conn exn A :=
  try_except m (λ e, match e with
                     | IPCError msg => raise (QMPError (what +:+ msg))
                     | _ => raise e
                     end).

(** [execute] once [_client_obj] is set: the record is sent, an IPC
    error becomes a QMP error. *)
Definition execute_connected (command : string) (args_dict : dict)
  : Eff Conn exn unit :=
  ipc_as_qmp "Failed to send command to QMP socket. "
    (send_json_message [("execute", JStr command); ("arguments", JDict args_dict)]).

(** [connect]: the socket object is stored before the connection is
    attempted.  Its final [self.execute("qmp_capabilities")] finds
    [_client_obj] set. *)
Definition connect : Eff Conn exn unit :=
  c ← gets fst;
  modify (λ '(c, t), (set_client_obj (Some (peer c)) c, t));;
  (* self._client_obj.connect(maxtries=1, timeout=20) *)
  (if connectable (peer c) then mret tt
   else raise (IPCError "Failed to connect to unix socket"));;
  res ← ipc_as_qmp "Failure while waiting for QMP connection header. "
          (timeout_read_response 60);
  match dict_get "QMP" res with
  | Some v =>
      if truthy v then execute_connected "qmp_capabilities" []
      else raise (QMPError "Unexpected QMP connection header.")
  | None => raise (QMPError "Unexpected QMP connection header.")
  end.

(** The [_client] property: connects on first use. *)
Definition _client : Eff Conn exn unit :=
  c ← gets fst;
  match _client_obj c with
  | Some _ => mret tt
  | None => connect
  end.

(** [execute]: [self._client] is evaluated inside the [try]. *)
Definition execute (command : string) (args_dict : dict) : Eff Conn exn unit :=
  ipc_as_qmp "Failed to send command to QMP socket. "
    (_client;;
     send_json_message [("execute", JStr command); ("arguments", JDict args_dict)]).

(** [read] *)
Definition read (timeout : N) : Eff Conn exn dict :=
  ipc_as_qmp "Failed to read response from QMP socket. "
    (_client;; timeout_read_response timeout).

(** The [while True] loop of [wait_read_return].  Every round either
    leaves the loop or takes one record off the connection, so
    [fuel] rounds suffice when [fuel] exceeds the number of records
    still to arrive; [None] stands for a loop cut short by [fuel]
    (see [wait_loop_total]). *)
Fixpoint wait_loop (fuel : nat) (timeout start : N)
  : Eff Conn exn (option json) :=
  match fuel with
  | O => mret None
  | S fuel' =>
      mes ← read timeout;
      (* Skip all messages that do not have the return key. *)
      let ret := dict_get "return" mes in
      if default false (truthy <$> ret)
      then mret ret
      else
        now ← gets snd;
        if (timeout <=? now - start)%N
        then raise (QMPError "Timeout waiting for return")
        else wait_loop fuel' timeout start
  end.

(** The records still to arrive on the connection of the client: on its
    socket when it has one, on the peer it will connect to otherwise. *)
Definition pending (c : QMPClient) : list arrival :=
  match _client_obj c with
  | Some sock => incoming sock
  | None => incoming (peer c)
  end.

(** [wait_read_return] *)
Definition wait_read_return (timeout : N) : Eff Conn exn (option json) :=
  c ← gets fst;
  start ← gets snd;
  wait_loop (S (length (pending c))) timeout start.

(** [ret["status"]] *)
Definition subscript (key : string) (v : json) : result exn json :=
  match v with
  | JDict d =>
      match dict_get key d with
      | Some x => Ok x
      | None => Raise (KeyError key)
      end
  | _ => Raise (TypeError "indices must be integers or object is not subscriptable")
  end.

(** [query_status] *)
Definition query_status : Eff Conn exn json :=
  execute "query-status" [];;
  ret ← wait_read_return 60;
  match ret with
  | Some v =>
      match subscript "status" v with
      | Ok st => mret st
      | Raise e => raise e
      end
  | None => raise (TypeError "'NoneType' object is not subscriptable")
  end.

(** [close]: [self._client.cleanup()] *)
Definition close : Eff Conn exn unit :=
  _client;;
  modify (λ '(c, t),
    (set_client_obj
       ((λ sock, mkSock (connectable sock) (writable sock) (incoming sock)
                        (sent sock) true) <$> _client_obj c) c, t)).

(** *** Waiting for the reply to a command *)


(** The client after its socket delivered records: [inc] is what is
    still to arrive. *)
Definition with_incoming (inc : list arrival) (sock : UnixSockClient)
  (c : QMPClient) : QMPClient :=
  set_client_obj
    (Some (mkSock (connectable sock) (writable sock) inc (sent sock)
                  (cleaned sock))) c.




Lemma read_connected timeout c sock t :
  _client_obj c = Some sock →
  read timeout (c, t) =
    match incoming sock with
    | [] => (Raise (QMPError ("Failed to read response from QMP socket. "
                              +:+ "Timeout reading response")),
             (with_incoming [] sock c, (t + timeout)%N))
    | Arrives delay mes :: rest =>
        if (delay <? timeout)%N
        then (Ok mes, (with_incoming rest sock c, (t + delay)%N))
        else (Raise (QMPError ("Failed to read response from QMP socket. "
                               +:+ "Timeout reading response")),
              (with_incoming (Arrives (delay - timeout) mes :: rest) sock c,
               (t + timeout)%N))
    | Breaks delay :: rest =>
        if (delay <? timeout)%N
        then (Raise (QMPError ("Failed to read response from QMP socket. "
                               +:+ "Connection closed")),
              (with_incoming rest sock c, (t + delay)%N))
        else (Raise (QMPError ("Failed to read response from QMP socket. "
                               +:+ "Timeout reading response")),
              (with_incoming (Breaks (delay - timeout) :: rest) sock c,
               (t + timeout)%N))
    end.
Proof.
  intros Hc. unfold read, ipc_as_qmp, _client, timeout_read_response.
  eff_run. rewrite Hc. simpl. rewrite Hc.
  destruct (incoming sock) as [|[delay mes|delay] rest]; simpl; [done| |];
    destruct (delay <? timeout)%N; done.
Qed.

Lemma with_incoming_obj inc sock c :
  _client_obj (with_incoming inc sock c)
  = Some (mkSock (connectable sock) (writable sock) inc (sent sock) (cleaned sock)).
Proof. done. Qed.



Lemma wait_read_return_connected timeout c sock t :
  _client_obj c = Some sock →
  wait_read_return timeout (c, t)
  = wait_loop (S (length (incoming sock))) timeout t (c, t).
Proof.
  intros Hc. unfold wait_read_return, pending.
  unfold mbind at 1, Eff_bind at 1, gets at 1.
  unfold mbind at 1, Eff_bind at 1, gets at 1. cbn [fst snd]. by rewrite Hc.
Qed.




(** A connected client with the given records still to arrive. *)
Definition connected_client (inc : list arrival) : QMPClient :=
  let sock := mkSock true true inc [] false in
  {| _sockpath := "/tmp/qemu_win10.sock"; peer := sock; _client_obj := Some sock |}.







(* ------------------------------------------------------------------ *)
(** ** qemu.py: the machines and the driver                            *)
(* ------------------------------------------------------------------ *)

(** Modelled from the spec: the machine states of
    [cuckoo.common.machines.States] ("Machine state is always one of
    POWEROFF, STARTING, RUNNING, PAUSED, ERROR"). *)
Inductive States := POWEROFF | STARTING | RUNNING | PAUSED | ERROR.

#[export] Instance States_eq_dec : EqDecision States.
Proof. solve_decision. Defined.


(** The [subprocess.Popen] object of a QEMU process as the driver sees
    it.  [remaining] is the number of further [poll()] calls that still
    find it running ([None]: it does not exit by itself); once exited it
    stays so.  [unkillable] processes survive [kill()] beyond the time
    [communicate] waits. *)
Record Process := mkProcess {
  pid : nat;
  remaining : option nat;
  unkillable : bool;
  returncode : Z;
  proc_stderr : string
}.

Definition set_remaining (r : option nat) (p : Process) : Process :=
  mkProcess (pid p) r (unkillable p) (returncode p) (proc_stderr p).

(** [process.poll()] *)
Definition poll (p : Process) : option Z * Process :=
  match remaining p with
  | Some O => (Some (returncode p), p)
  | Some (S n) => (None, set_remaining (Some n) p)
  | None => (None, p)
  end.

(** [process.kill()] *)
Definition kill (p : Process) : Process :=
  if unkillable p then p else set_remaining (Some O) p.

(** [process.communicate(timeout=...)]: the output once the process has
    exited, [TimeoutExpired] ([None]) otherwise. *)
Definition communicate (p : Process) : option string :=
  match remaining p with
  | Some O => Some (proc_stderr p)
  | _ => None
  end.

(** The attributes of [machines.Machine] the driver uses. *)
Record Machine := mkMachine {
  name : string;
  label : string;
  snapshot : string;
  architecture : string;
  machine_errors : list string
}.

(** class _QEMUMachine *)
Record _QEMUMachine := mkQEMUMachine {
  machine : Machine;
  start_args : list string;
  disposables_dir : string;
  qmp_sockpath : string;
  qcow2_path : string;
  snapshot_path : string;
  snapshot_compression : option string;
  snapshot_compressed : bool;
  process : option Process;
  qmp : option QMPClient
}.

Definition set_process (x : option Process) (vm : _QEMUMachine) : _QEMUMachine :=
  mkQEMUMachine (machine vm) (start_args vm) (disposables_dir vm)
    (qmp_sockpath vm) (qcow2_path vm) (snapshot_path vm)
    (snapshot_compression vm) (snapshot_compressed vm) x (qmp vm).

Definition set_qmp (x : option QMPClient) (vm : _QEMUMachine) : _QEMUMachine :=
  mkQEMUMachine (machine vm) (start_args vm) (disposables_dir vm)
    (qmp_sockpath vm) (qcow2_path vm) (snapshot_path vm)
    (snapshot_compression vm) (snapshot_compressed vm) (process vm) x.

Definition set_compression (c : option string) (compressed : bool)
  (vm : _QEMUMachine) : _QEMUMachine :=
  mkQEMUMachine (machine vm) (start_args vm) (disposables_dir vm)
    (qmp_sockpath vm) (qcow2_path vm) (snapshot_path vm) c compressed
    (process vm) (qmp vm).

Definition add_machine_error (err : string) (vm : _QEMUMachine) : _QEMUMachine :=
  mkQEMUMachine
    (mkMachine (name (machine vm)) (label (machine vm)) (snapshot (machine vm))
               (architecture (machine vm)) (machine_errors (machine vm) ++ [err]))
    (start_args vm) (disposables_dir vm) (qmp_sockpath vm) (qcow2_path vm)
    (snapshot_path vm) (snapshot_compression vm) (snapshot_compressed vm)
    (process vm) (qmp vm).

(** [_QEMUMachine.__init__] *)
Definition new_QEMUMachine (m : Machine) (args : list string)
  (dir sockpath : string) : _QEMUMachine :=
  {| machine := m; start_args := args; disposables_dir := dir;
     qmp_sockpath := sockpath; qcow2_path := label m;
     snapshot_path := snapshot m; snapshot_compression := None;
     snapshot_compressed := true; process := None; qmp := None |}.

(** [s.lower()] and [sub in s] *)
Definition lower_ascii (c : ascii) : ascii :=
  let n := nat_of_ascii c in
  if (65 <=? n)%nat && (n <=? 90)%nat then ascii_of_nat (n + 32) else c.

Fixpoint lower (s : string) : string :=
  match s with
  | EmptyString => EmptyString
  | String c s' => String (lower_ascii c) (lower s')
  end.

Definition contains (sub s : string) : bool :=
  match String.index 0 sub s with Some _ => true | None => false end.

(** [snapshot_determine_compression], on the type [File(...).type]
    reports for the snapshot file. *)
Definition snapshot_determine_compression (file_type : string)
  (self : _QEMUMachine) : _QEMUMachine :=
  let ftype := lower file_type in
  if contains "lz4" ftype
  then set_compression (Some "lz4") (snapshot_compressed self) self
  else if contains "gzip" ftype
  then set_compression (Some "gzip") (snapshot_compressed self) self
  else if contains "qemu suspend" ftype
  then set_compression (snapshot_compression self) false self
  else self.

(** What the driver finds and changes outside its own objects: the
    clock, the answers of [qmp_sockpath.exists()] in the order they are
    asked for (none left: the path does not exist), whether [qemu-img]
    and [--version] succeed, what [subprocess.Popen] yields for the
    start command (a process with the QMP socket it serves, or [None]
    for an [OSError]), and the commands spawned, the files deleted and
    the processes that were sent SIGKILL so far.  [released] keeps the
    control clients the driver has dropped its reference to, so that what
    was sent on them can still be told. *)
Record Host := mkHost {
  now : N;
  exists_answers : list bool;
  qemu_img_ok : bool;
  version_output : option string;
  popen : option (Process * UnixSockClient);
  spawned : list (list string);
  deleted : list string;
  killed : list nat;
  released : list QMPClient
}.

Definition set_now (t : N) (w : Host) : Host :=
  mkHost t (exists_answers w) (qemu_img_ok w) (version_output w) (popen w)
          (spawned w) (deleted w) (killed w) (released w).

Definition set_exists_answers (l : list bool) (w : Host) : Host :=
  mkHost (now w) l (qemu_img_ok w) (version_output w) (popen w)
          (spawned w) (deleted w) (killed w) (released w).


Definition add_deleted (path : string) (w : Host) : Host :=
  mkHost (now w) (exists_answers w) (qemu_img_ok w) (version_output w)
          (popen w) (spawned w) (deleted w ++ [path]) (killed w) (released w).

Definition add_killed (p : nat) (w : Host) : Host :=
  mkHost (now w) (exists_answers w) (qemu_img_ok w) (version_output w)
          (popen w) (spawned w) (deleted w) (killed w ++ [p]) (released w).

Definition add_released (c : option QMPClient) (w : Host) : Host :=
  mkHost (now w) (exists_answers w) (qemu_img_ok w) (version_output w)
          (popen w) (spawned w) (deleted w) (killed w)
          (released w ++ match c with Some c => [c] | None => [] end).

(** The methods of [_QEMUMachine] work on the machine and the world. *)
Definition VmSt : Type := _QEMUMachine * Host.

(** A method of [vm.qmp], with the clock of the world. *)
Definition on_qmp {A} (m : Eff Conn exn A) : Eff VmSt exn A :=
  λ s : VmSt,
    let '(vm, w) := s in
    match qmp vm with
    | None => (Raise (AttributeError "'NoneType' object has no attribute"), (vm, w))
    | Some c =>
        let '(r, (c', t')) := m (c, now w) in
        (r, (set_qmp (Some c') vm, set_now t' w))
    end.

Definition on_vm (f : _QEMUMachine → _QEMUMachine) : Eff VmSt exn unit :=
  modify (λ '(vm, w), (f vm, w)).

Definition on_host (f : _QEMUMachine → Host → Host) : Eff VmSt exn unit :=
  modify (λ '(vm, w), (vm, f vm w)).

Definition skip : Eff VmSt exn unit := mret tt.

Definition get_vm : Eff VmSt exn _QEMUMachine := gets fst.
Definition get_host : Eff VmSt exn Host := gets snd.

(** [time.sleep(1)] *)
Definition sleep1 : Eff VmSt exn unit :=
  on_host (λ _ w, set_now (now w + 1)%N w).

(** [self.qmp_sockpath.exists()] *)
Definition sockpath_exists : Eff VmSt exn bool :=
  w ← get_host;
  match exists_answers w with
  | [] => mret false
  | b :: l => on_host (λ _, set_exists_answers l);; mret b
  end.

(** [process_running] *)
Definition process_running : Eff VmSt exn bool :=
  vm ← get_vm;
  match process vm with
  | None => mret false
  | Some p =>
      let '(code, p') := poll p in
      on_vm (set_process (Some p'));;
      mret (bool_decide (code = None))
  end.

(** [kill_process] *)
Definition kill_process : Eff VmSt exn (option string) :=
  running ← process_running;
  if negb running then mret None
  else
    vm ← get_vm;
    match process vm with
    | None => raise (AttributeError "'NoneType' object has no attribute")
    | Some p =>
        let p := kill p in
        on_vm (set_process (Some p));;
        on_host (λ _, add_killed (pid p));;
        match communicate p with
        | None =>
            raise (MachineryError
                     "Failed to read stderr after sending SIGKILL to process.")
        | Some stderr => mret (Some stderr)
        end
    end.


(** [clean] *)
Definition clean : Eff VmSt exn unit :=
  running ← process_running;
  (if running : bool then kill_process;; skip else skip);;
  present ← sockpath_exists;
  (if present : bool then on_host (λ vm, add_deleted (qmp_sockpath vm)) else skip);;
  on_vm (set_process None);;
  vm ← get_vm;
  (if bool_decide (is_Some (qmp vm)) then on_qmp close else skip);;
  on_host (λ vm, add_released (qmp vm));;
  on_vm (set_qmp None).

(** [str.replace(k, v)]: the occurrences of [k] (not empty) are
    replaced from left to right. *)
Fixpoint string_drop (n : nat) (s : string) : string :=
  match n, s with
  | S n', String _ s' => string_drop n' s'
  | _, _ => s
  end.

Fixpoint replace_from (fuel : nat) (k v s : string) : string :=
  match fuel, s with
  | S fuel', String c s' =>
      if String.prefix k s
      then v +:+ replace_from fuel' k v (string_drop (String.length k) s)
      else String c (replace_from fuel' k v s')
  | _, _ => s
  end.

Definition str_replace (k v s : string) : string :=
  replace_from (String.length s) k v s.

Definition _DISPOSABLE_DISK_PLACEHOLDER : string := "%DISPOSABLE_DISK_PATH%".

Definition _DECOMPRESS_COMMANDS : list (string * string) :=
  [("lz4", "%BINARY_PATH% -c -d < %SNAPSHOT_PATH%");
   ("gzip", "%BINARY_PATH% -c -d < %SNAPSHOT_PATH%")].

Definition statemapping : list (string * States) :=
  [("inmigrate", STARTING); ("postmigrate", PAUSED); ("paused", PAUSED);
   ("running", RUNNING)].

(** Lookup in a dict with string keys. *)
Fixpoint assoc_get {V} (key : string) (d : list (string * V)) : option V :=
  match d with
  | [] => None
  | (k, v) :: d' => if decide (k = key) then Some v else assoc_get key d'
  end.

(** [statemapping.get(qemu_state)]: a string is looked up, a list or an
    object cannot be hashed, any other value is not a key. *)
Definition statemapping_get (qemu_state : json) : result exn (option States) :=
  match qemu_state with
  | JStr s => Ok (assoc_get s statemapping)
  | JList _ | JDict _ => Raise (TypeError "unhashable type")
  | _ => Ok None
  end.

(** [str(qemu_state)] inside the message, for the string case. *)
Definition json_str (v : json) : string :=
  match v with JStr s => s | _ => "<value>" end.

Section Driver.

(** [shutil.which], evaluated for ["lz4"] and ["gzip"] when the module
    is imported. *)
Variable which : string → option string.

Definition _DECOMPRESS_BINARIES : list (string * option string) :=
  [("lz4", which "lz4"); ("gzip", which "gzip")].

(** [_DECOMPRESS_BINARIES.get(compress_type)], with [None] both for a
    missing key and for a stored [None]; [compress_type] may be [None]. *)
Definition decompress_binary (compress_type : option string) : option string :=
  compress_type ≫= λ t, assoc_get t _DECOMPRESS_BINARIES ≫= id.

Definition decompress_command (compress_type : option string) : option string :=
  compress_type ≫= λ t, assoc_get t _DECOMPRESS_COMMANDS.

(** Truth value of an optional string: [None] and [""] are falsy. *)
Definition str_truthy (o : option string) : bool :=
  match o with Some (String _ _) => true | _ => false end.

(** [_do_replace] inside [_make_command] *)
Definition _do_replace (lookup : list (string * string)) (value : string)
  : string :=
  foldl (λ value kv, if contains (fst kv) value
                     then str_replace (fst kv) (snd kv) value else value)
        value lookup.

(** [_make_command]; [emulator_version] is not used by the source. *)
Definition _make_command (qemu_machine : _QEMUMachine)
  (emulator_path disposable_disk_path emulator_version : string)
  : result exn (list string) :=
  let command := emulator_path :: start_args qemu_machine in
  let lookup := [(_DISPOSABLE_DISK_PLACEHOLDER, disposable_disk_path)] in
  let command := map (_do_replace lookup) command in
  let command :=
    command ++ ["-qmp";
                "unix:" +:+ qmp_sockpath qemu_machine +:+ ",server,nowait";
                "-monitor"; "none"] in
  if snapshot_compressed qemu_machine then
    let compress_type := snapshot_compression qemu_machine in
    let binary := decompress_binary compress_type in
    let decompress_args := decompress_command compress_type in
    match binary, decompress_args with
    | Some (String b bs), Some (String d ds) =>
        let decompress_args :=
          str_replace "%SNAPSHOT_PATH%" (snapshot_path qemu_machine)
            (str_replace "%BINARY_PATH%" (String b bs) (String d ds)) in
        Ok (command ++ ["-incoming"; "exec:" +:+ decompress_args])
    | _, _ =>
        Raise (MachineryError
                 ("Cannot build qemu start command. Unknown snapshot "
                  +:+ "compression type. No decompression binary or command found."))
    end
  else
    Ok (command ++ ["-incoming";
                    "exec:/bin/cat < " +:+ snapshot_path qemu_machine]).

(** class QEMU: the machines by name and the configured binaries. *)
Record QEMU := mkQEMU {
  vms : gmap string _QEMUMachine;
  emulator_binaries : list (string * string);
  qemu_img : string
}.

Definition set_vms (f : gmap string _QEMUMachine → gmap string _QEMUMachine)
  (q : QEMU) : QEMU :=
  mkQEMU (f (vms q)) (emulator_binaries q) (qemu_img q).

Definition QSt : Type := QEMU * Host.

(** [_get_vm] *)
Definition _get_vm (nm : string) : Eff QSt exn _QEMUMachine :=
  λ s : QSt,
    match vms (fst s) !! nm with
    | Some vm => (Ok vm, s)
    | None => (Raise (MachineNotFoundError
                        ("Machine with name " +:+ nm +:+ " does not exist.")), s)
    end.

(** A method of the object [_get_vm] returns: what it does to the machine
    is seen by every later [_get_vm] of the same name. *)
Definition on_machine {A} (nm : string) (m : Eff VmSt exn A) : Eff QSt exn A :=
  λ s : QSt,
    match _get_vm nm s with
    | (Raise e, s') => (Raise e, s')
    | (Ok vm, (q, w)) =>
        let '(r, (vm', w')) := m (vm, w) in
        (r, (set_vms (<[nm := vm']>) q, w'))
    end.

(** [state], on the machine found by [_get_vm]. *)
Definition vm_state : Eff VmSt exn States :=
  running ← process_running;
  if negb running then mret POWEROFF
  else
    qemu_state ←
      try_except (st ← on_qmp query_status; mret (Some st))
        (λ e, match e with
              | QMPError msg =>
                  (* The QMP error only matters if the machine process is
                     still running. *)
                  running ← process_running;
                  if negb running then mret None
                  else raise (MachineryError
                                ("Failed to retrieve state for machine. "
                                 +:+ "QMP communication error: " +:+ msg))
              | _ => raise e
              end);
    match qemu_state with
    | None => mret POWEROFF
    | Some qemu_state =>
        match statemapping_get qemu_state with
        | Raise e => raise e
        | Ok (Some normalized_state) => mret normalized_state
        | Ok None =>
            let err := "Unknown/unhandled vm state: '" +:+ json_str qemu_state
                       +:+ "'" in
            on_vm (add_machine_error err);;
            raise (MachineryUnhandledStateError err)
        end
    end.

Definition state (nm : string) : Eff QSt exn States := on_machine nm vm_state.


(** [version]: the version found in the output of [--version] ([""]
    when there is none), [MachineryError] when the command fails. *)
Definition version (path : string) : Eff QSt exn string :=
  λ s : QSt,
    match version_output (snd s) with
    | Some v => (Ok v, s)
    | None => (Raise (MachineryError "Failed to run version command."), s)
    end.




(** The polling loop of [stop], [tries_left] rounds before [tries >= 2];
    the result is [do_kill]. *)
Fixpoint wait_for_exit (tries_left : nat) : Eff VmSt exn bool :=
  match tries_left with
  | O => mret true
  | S n =>
      running ← process_running;
      if negb running then mret false
      else sleep1;; wait_for_exit n
  end.

(** [stop], on the machine found by [_get_vm]. *)
Definition vm_stop : Eff VmSt exn unit :=
  qmp_success ←
    try_except (on_qmp (execute "quit" []);; mret true)
      (λ e, match e with
            | QMPError _ => mret false
            | _ => raise e
            end);
  do_kill ←
    (if qmp_success : bool
     then running ← process_running;
          if running : bool then wait_for_exit 2 else mret false
     else mret true);
  (if do_kill : bool then kill_process;; skip else skip);;
  (* Remove process reference and qmp client. *)
  clean.

Definition stop (nm : string) : Eff QSt exn unit :=
  st ← state nm;
  if bool_decide (st = POWEROFF)
  then raise (MachineStateReachedError
                "Failed to stop machine. Machine already stopped.")
  else on_machine nm vm_stop.

(** [handle_paused] *)
Definition handle_paused (nm : string) : Eff QSt exn unit :=
  on_machine nm
    (try_except (on_qmp (execute "cont" []))
       (λ e, match e with
             | QMPError msg =>
                 raise (MachineryError
                          ("Failed resume machine. Error sending 'cont' "
                           +:+ "command to QMP socket. Error: " +:+ msg))
             | _ => raise e
             end)).

End Driver.

(** *** The state query *)

(** The tracked process is seen running by its next [poll()]. *)
Definition seen_running (p : Process) : bool := bool_decide (fst (poll p) = None).

Lemma process_running_eq vm w :
  process_running (vm, w) =
    match process vm with
    | None => (Ok false, (vm, w))
    | Some p => (Ok (seen_running p), (set_process (Some (snd (poll p))) vm, w))
    end.
Proof.
  unfold process_running, get_vm, on_vm, seen_running. eff_run.
  destruct (process vm) as [p|]; [|done].
  destruct (poll p) as [code p']. simpl. reflexivity.
Qed.

(** The message of the hard error for a status the table does not know. *)
Definition unhandled_msg (qemu_state : json) : string :=
  "Unknown/unhandled vm state: '" +:+ json_str qemu_state +:+ "'".

(** [state] when the process is seen running and a control client is
    attached, by the outcome of the status query. *)
Lemma vm_state_running vm w p c :
  process vm = Some p → seen_running p = true → qmp vm = Some c →
  let vm1 := set_process (Some (snd (poll p))) vm in
  vm_state (vm, w) =
    match query_status (c, now w) with
    | (Ok qemu_state, (c', t')) =>
        let vm2 := set_qmp (Some c') vm1 in
        match statemapping_get qemu_state with
        | Raise e => (Raise e, (vm2, set_now t' w))
        | Ok (Some normalized_state) => (Ok normalized_state, (vm2, set_now t' w))
        | Ok None =>
            (Raise (MachineryUnhandledStateError (unhandled_msg qemu_state)),
             (add_machine_error (unhandled_msg qemu_state) vm2, set_now t' w))
        end
    | (Raise (QMPError msg), (c', t')) =>
        let vm2 := set_qmp (Some c') vm1 in
        let vm3 := set_process (Some (snd (poll (snd (poll p))))) vm2 in
        if seen_running (snd (poll p))
        then (Raise (MachineryError
                       ("Failed to retrieve state for machine. "
                        +:+ "QMP communication error: " +:+ msg)),
              (vm3, set_now t' w))
        else (Ok POWEROFF, (vm3, set_now t' w))
    | (Raise e, (c', t')) => (Raise e, (set_qmp (Some c') vm1, set_now t' w))
    end.
Proof.
  intros Hp Hrun Hq vm1.
  unfold vm_state. unfold mbind at 1, Eff_bind at 1.
  rewrite process_running_eq, Hp, Hrun. cbn [negb].
  unfold mbind at 1, Eff_bind at 1, try_except at 1.
  unfold mbind at 1, Eff_bind at 1, on_qmp at 1. fold vm1.
  change (qmp vm1) with (qmp vm). rewrite Hq.
  destruct (query_status (c, now w)) as [[js|e] [c' t']].
  - unfold mret at 1, Eff_ret at 1. cbn beta iota.
    destruct (statemapping_get js) as [[n|]|e]; try done.
  - destruct e; try done.
    unfold mbind at 1, Eff_bind at 1. rewrite process_running_eq.
    cbn [process set_qmp set_process vm1].
    by destruct (seen_running (snd (poll p))).
Qed.

Lemma state_eq q w nm vm :
  vms q !! nm = Some vm →
  state nm (q, w) =
    let '(r, (vm', w')) := vm_state (vm, w) in
    (r, (set_vms (<[nm := vm']>) q, w')).
Proof. intros Hvm. unfold state, on_machine, _get_vm. simpl. by rewrite Hvm. Qed.

(** C6. For a machine the driver manages:
    - the state query returns POWEROFF when no process is tracked or the
      tracked process has exited;
    - when the process is seen running and the control-protocol status
      query fails with a QMP error, the query raises MachineryError if
      the process is still seen running afterwards (it returns POWEROFF
      only if the process has exited by then);
    - a status string of the backend is mapped through the lookup table
      when the table has it, and otherwise the query raises
      MachineryUnhandledStateError and records the error on the machine:
      no state is returned for it. *)
Theorem state_query (q : QEMU) (w : Host) (nm : string) (vm : _QEMUMachine) :
  vms q !! nm = Some vm →
  (process vm = None → fst (state nm (q, w)) = Ok POWEROFF)
  ∧ (∀ p, process vm = Some p → seen_running p = false →
          fst (state nm (q, w)) = Ok POWEROFF)
  ∧ (∀ p c msg c' t',
       process vm = Some p → seen_running p = true → qmp vm = Some c →
       query_status (c, now w) = (Raise (QMPError msg), (c', t')) →
       (seen_running (snd (poll p)) = true →
          (∃ m, fst (state nm (q, w)) = Raise (MachineryError m))
          ∧ fst (state nm (q, w)) ≠ Ok POWEROFF)
       ∧ (seen_running (snd (poll p)) = false →
          fst (state nm (q, w)) = Ok POWEROFF))
  ∧ (∀ p c status c' t',
       process vm = Some p → seen_running p = true → qmp vm = Some c →
       query_status (c, now w) = (Ok (JStr status), (c', t')) →
       match assoc_get status statemapping with
       | Some normalized => fst (state nm (q, w)) = Ok normalized
       | None =>
           fst (state nm (q, w))
           = Raise (MachineryUnhandledStateError (unhandled_msg (JStr status)))
           ∧ ∃ vm', vms (fst (snd (state nm (q, w)))) !! nm = Some vm'
                    ∧ unhandled_msg (JStr status) ∈ machine_errors (machine vm')
       end).
Proof.
  intros Hvm. rewrite (state_eq q w nm vm Hvm).
  split; [|split; [|split]].
  - intros Hp. unfold vm_state. unfold mbind at 1, Eff_bind at 1.
    by rewrite process_running_eq, Hp.
  - intros p Hp Hrun. unfold vm_state. unfold mbind at 1, Eff_bind at 1.
    by rewrite process_running_eq, Hp, Hrun.
  - intros p c msg c' t' Hp Hrun Hq Hqs.
    rewrite (vm_state_running vm w p c Hp Hrun Hq). cbv zeta. rewrite Hqs.
    split; intros Hr; rewrite Hr; simpl; [|done].
    split; [by eexists | done].
  - intros p c status c' t' Hp Hrun Hq Hqs.
    rewrite (vm_state_running vm w p c Hp Hrun Hq). cbv zeta. rewrite Hqs.
    cbn [statemapping_get].
    destruct (assoc_get status statemapping) as [n|]; [done|].
    split; [done|]. eexists. cbn [fst snd set_vms vms].
    rewrite lookup_insert_eq. split; [done|].
    cbn. apply elem_of_app. right. left.
Qed.


(** *** What the methods of a machine leave alone *)

(** From [s] to [s'] the snapshot attributes of the machine did not
    change and no command was spawned. *)
Definition keeps (s s' : VmSt) : Prop :=
  snapshot_compressed (fst s') = snapshot_compressed (fst s)
  ∧ snapshot_compression (fst s') = snapshot_compression (fst s)
  ∧ architecture (machine (fst s')) = architecture (machine (fst s))
  ∧ spawned (snd s') = spawned (snd s).

Definition framed {A} (m : Eff VmSt exn A) : Prop :=
  ∀ s, keeps s (snd (m s)).

Lemma keeps_refl s : keeps s s.
Proof. by repeat split. Qed.

Lemma keeps_trans s1 s2 s3 : keeps s1 s2 → keeps s2 s3 → keeps s1 s3.
Proof.
  intros (H1 & H2 & H3 & H4) (K1 & K2 & K3 & K4).
  repeat split; congruence.
Qed.

Lemma framed_ret {A} (a : A) : framed (mret a).
Proof. intros s. apply keeps_refl. Qed.

Lemma framed_raise {A} (e : exn) : framed (raise e : Eff VmSt exn A).
Proof. intros s. apply keeps_refl. Qed.

Lemma framed_bind {A B} (m : Eff VmSt exn A) (f : A → Eff VmSt exn B) :
  framed m → (∀ a, framed (f a)) → framed (m ≫= f).
Proof.
  intros Hm Hf s. unfold mbind, Eff_bind. specialize (Hm s).
  destruct (m s) as [[a|e] s1]; simpl in *; [|done].
  eapply keeps_trans; [exact Hm | apply Hf].
Qed.

Lemma framed_try {A} (m : Eff VmSt exn A) (h : exn → Eff VmSt exn A) :
  framed m → (∀ e, framed (h e)) → framed (try_except m h).
Proof.
  intros Hm Hh s. unfold try_except. specialize (Hm s).
  destruct (m s) as [[a|e] s1]; simpl in *; [done|].
  eapply keeps_trans; [exact Hm | apply Hh].
Qed.

Lemma framed_on_vm (f : _QEMUMachine → _QEMUMachine) :
  (∀ vm, snapshot_compressed (f vm) = snapshot_compressed vm
         ∧ snapshot_compression (f vm) = snapshot_compression vm
         ∧ architecture (machine (f vm)) = architecture (machine vm)) →
  framed (on_vm f).
Proof. intros Hf [vm w]. destruct (Hf vm) as (?&?&?). by repeat split. Qed.

Lemma framed_on_host (f : _QEMUMachine → Host → Host) :
  (∀ vm w, spawned (f vm w) = spawned w) → framed (on_host f).
Proof. intros Hf [vm w]. repeat split; simpl; by rewrite ?Hf. Qed.

Lemma framed_on_qmp {A} (m : Eff Conn exn A) : framed (on_qmp m).
Proof.
  intros [vm w]. unfold on_qmp. destruct (qmp vm) as [c|]; [|apply keeps_refl].
  destruct (m (c, now w)) as [r [c' t']]. by repeat split.
Qed.

Lemma framed_get_vm : framed get_vm.
Proof. intros s. apply keeps_refl. Qed.

Lemma framed_get_host : framed get_host.
Proof. intros s. apply keeps_refl. Qed.

Lemma framed_skip : framed skip.
Proof. intros s. apply keeps_refl. Qed.

Create HintDb frame.
#[local] Hint Resolve framed_ret framed_raise framed_on_qmp framed_get_vm
  framed_get_host framed_skip : frame.

Ltac frame_step :=
  first
    [ apply framed_bind; [|intros ?]
    | apply framed_try; [|intros ?]
    | apply framed_on_vm; intros ?; by repeat split
    | apply framed_on_host; intros ? ?; reflexivity
    | solve [auto with frame]
    | match goal with |- framed (if ?b then _ else _) => destruct b end
    | match goal with |- framed (match ?x with _ => _ end) => destruct x end ].

Lemma framed_sleep1 : framed sleep1.
Proof. unfold sleep1. repeat frame_step. Qed.

Lemma framed_sockpath_exists : framed sockpath_exists.
Proof.
  intros [vm w]. unfold sockpath_exists, get_host, on_host. eff_run.
  destruct (exists_answers w); by repeat split.
Qed.

Lemma framed_process_running : framed process_running.
Proof.
  intros [vm w]. rewrite process_running_eq.
  destruct (process vm); by repeat split.
Qed.

#[local] Hint Resolve framed_sleep1 framed_sockpath_exists
  framed_process_running : frame.

Lemma framed_kill_process : framed kill_process.
Proof. unfold kill_process. repeat frame_step. Qed.

#[local] Hint Resolve framed_kill_process : frame.



(** *** Starting a machine *)

Section RestoreStart.

Variable which : string → option string.









(** A machine that never had a process or a control client attached. *)
Definition never_started (vm : _QEMUMachine) : Prop :=
  process vm = None ∧ qmp vm = None.

Lemma vm_state_no_process vm w :
  process vm = None → vm_state (vm, w) = (Ok POWEROFF, (vm, w)).
Proof.
  intros Hp. unfold vm_state. unfold mbind at 1, Eff_bind at 1.
  by rewrite process_running_eq, Hp.
Qed.



End RestoreStart.

(** *** Stopping a machine *)

Definition quit_record : dict :=
  [("execute", JStr "quit"); ("arguments", JDict [])].

(** Whether [stop] has to send SIGKILL to the process [p]: it does not
    exit by itself, or - counting the [poll()] calls of [stop] - not
    before the kill is due, which is at once when the quit command
    could not be sent and after the three polls of the grace window
    otherwise. *)
Definition kill_needed (quit_sent : bool) (p : Process) : bool :=
  match remaining p with
  | None => true
  | Some n => if quit_sent then (4 <=? n)%nat else (1 <=? n)%nat
  end.

(** The control client after [stop] is done with it. *)
Definition client_after_stop (sock : UnixSockClient) (c : QMPClient) : QMPClient :=
  set_client_obj
    (Some (mkSock (connectable sock) (writable sock) (incoming sock)
                  (sent sock ++ (if writable sock then [quit_record] else []))
                  true)) c.

Lemma vm_stop_clears vm w p c sock :
  process vm = Some p → qmp vm = Some c → _client_obj c = Some sock →
  unkillable p = false ∨ kill_needed (writable sock) p = false →
  vm_stop (vm, w)
  = (Ok tt, (set_qmp None (set_process None vm), snd (snd (vm_stop (vm, w)))))
  ∧ killed (snd (snd (vm_stop (vm, w))))
    = killed w ++ (if kill_needed (writable sock) p then [pid p] else [])
  ∧ released (snd (snd (vm_stop (vm, w))))
    = released w ++ [client_after_stop sock c]
  ∧ spawned (snd (snd (vm_stop (vm, w)))) = spawned w.
Proof.
  destruct vm as [m sa dd sp qp snp sc sb op oc]. simpl.
  intros -> -> Hc Hk.
  destruct c as [path pe o]. simpl in Hc. subst o.
  destruct sock as [cn wr inc st cl].
  destruct p as [pd rem uk rc err].
  destruct w as [nw ea img ver po spw del kl rel].
  unfold kill_needed in Hk. simpl in Hk.
  destruct wr;
    (destruct rem as [[|[|[|[|n]]]]|]);
    destruct ea as [|[] l];
    try (destruct Hk as [->|Hk]; [|discriminate Hk]);
    match goal with |- context [vm_stop ?s] => set (r := vm_stop s) end;
    vm_compute in r; subst r;
    unfold kill_needed, client_after_stop; simpl;
    try rewrite !app_nil_r; repeat split.
Qed.

(** A status query that succeeds leaves the client connected. *)
Lemma execute_ok_connected cmd args c t c1 t1 :
  execute cmd args (c, t) = (Ok tt, (c1, t1)) → is_Some (_client_obj c1).
Proof.
  unfold execute, ipc_as_qmp, try_except.
  unfold mbind at 1, Eff_bind at 1.
  destruct (_client (c, t)) as [[[]|e] [c0 t0]].
  - unfold send_json_message. eff_run.
    destruct (_client_obj c0) as [sock|]; [|done].
    destruct (writable sock); [|done].
    intros [= <- <-]. by eexists.
  - destruct e; done.
Qed.

Lemma wait_loop_connected timeout start fuel : ∀ c sock t,
  _client_obj c = Some sock →
  is_Some (_client_obj (fst (snd (wait_loop fuel timeout start (c, t))))).
Proof.
  induction fuel as [|fuel IH]; intros c sock t Hc; [by eexists|].
  cbn [wait_loop]. unfold mbind at 1, Eff_bind at 1.
  rewrite (read_connected timeout c sock t Hc).
  destruct (incoming sock) as [|[delay mes|delay] rest]; [by eexists| |].
  - destruct (delay <? timeout)%N; [|by eexists].
    destruct (default false (truthy <$> dict_get "return" mes)); [by eexists|].
    unfold mbind at 1, Eff_bind at 1, gets at 1. cbn [snd].
    destruct (timeout <=? t + delay - start)%N; [by eexists|].
    by apply (IH _ _ _ (with_incoming_obj _ _ _)).
  - destruct (delay <? timeout)%N; by eexists.
Qed.

Lemma query_status_ok_connected c t js c' t' :
  query_status (c, t) = (Ok js, (c', t')) → is_Some (_client_obj c').
Proof.
  unfold query_status. unfold mbind at 1, Eff_bind at 1.
  destruct (execute "query-status" [] (c, t)) as [[[]|e] [c1 t1]] eqn:Ex; [|done].
  apply execute_ok_connected in Ex as [sock Hc].
  unfold mbind at 1, Eff_bind at 1.
  rewrite (wait_read_return_connected 60 c1 sock t1 Hc).
  pose proof (wait_loop_connected 60 t1 (S (length (incoming sock))) c1 sock t1 Hc)
    as Hconn.
  destruct (wait_loop _ _ _ _) as [[[v|]|e] [c2 t2]]; [| |done].
  - destruct (subscript "status" v); [|done]. intros [= _ <- _]. exact Hconn.
  - done.
Qed.

(** A state query that answers anything but POWEROFF found a process
    that was running and a control client, which it leaves connected;
    the process has been polled once. *)
Lemma state_running_inv q w nm st s1 :
  state nm (q, w) = (Ok st, s1) → st ≠ POWEROFF →
  ∃ vm p c c' sock t',
    vms q !! nm = Some vm
    ∧ process vm = Some p ∧ seen_running p = true ∧ qmp vm = Some c
    ∧ _client_obj c' = Some sock
    ∧ s1 = (set_vms (<[nm := set_qmp (Some c')
                               (set_process (Some (snd (poll p))) vm)]>) q,
            set_now t' w).
Proof.
  intros Hst Hne.
  destruct (vms q !! nm) as [vm|] eqn:Hvm.
  2:{ unfold state, on_machine, _get_vm in Hst. simpl in Hst.
      by rewrite Hvm in Hst. }
  rewrite (state_eq q w nm vm Hvm) in Hst.
  destruct (process vm) as [p|] eqn:Hp.
  2:{ rewrite (vm_state_no_process vm w Hp) in Hst. by injection Hst as <- _. }
  destruct (seen_running p) eqn:Hrun.
  2:{ unfold vm_state in Hst. unfold mbind at 1, Eff_bind at 1 in Hst.
      rewrite process_running_eq, Hp, Hrun in Hst. by injection Hst as <- _. }
  destruct (qmp vm) as [c|] eqn:Hq.
  2:{ unfold vm_state in Hst. unfold mbind at 1, Eff_bind at 1 in Hst.
      rewrite process_running_eq, Hp, Hrun in Hst. cbn [negb] in Hst.
      unfold mbind at 1, Eff_bind at 1, try_except at 1 in Hst.
      unfold mbind at 1, Eff_bind at 1, on_qmp at 1 in Hst.
      cbn [fst qmp set_process] in Hst. rewrite Hq in Hst. done. }
  rewrite (vm_state_running vm w p c Hp Hrun Hq) in Hst. cbv zeta in Hst.
  destruct (query_status (c, now w)) as [[js|e] [c' t']] eqn:Hqs.
  - apply query_status_ok_connected in Hqs as [sock Hc].
    destruct (statemapping_get js) as [[n|]|e]; [|done|done].
    injection Hst as <- <-. by eexists vm, p, c, c', sock, t'.
  - destruct e; try done.
    destruct (seen_running (snd (poll p))); [done|].
    by injection Hst as <- _.
Qed.

(** C8 (as amended). [stop] on a machine whose state query answered a
    state other than POWEROFF finds a tracked process and a connected
    control client.  It sends the QMP command "quit" on that client
    (when the socket takes it), polls the process three times for its
    exit, sleeping a second after the second and the third poll, and
    sends SIGKILL when the quit could not be sent or the process is
    still running after these polls.  Provided
    the process is gone once SIGKILL has been sent (or no SIGKILL is
    needed), [stop] returns normally on either path with the process
    handle and the control-client reference of the machine cleared, and
    the next state query answers POWEROFF. *)
Theorem stop_clears (q : QEMU) (w : Host) (nm : string) (st : States)
  (q1 : QEMU) (w1 : Host) :
  state nm (q, w) = (Ok st, (q1, w1)) → st ≠ POWEROFF →
  ∃ vm1 p c sock,
    vms q1 !! nm = Some vm1
    ∧ process vm1 = Some p ∧ qmp vm1 = Some c ∧ _client_obj c = Some sock
    ∧ (unkillable p = false ∨ kill_needed (writable sock) p = false →
       ∃ q' w' vm',
         stop nm (q, w) = (Ok tt, (q', w'))
         ∧ vms q' !! nm = Some vm'
         ∧ process vm' = None ∧ qmp vm' = None
         ∧ killed w' = killed w1
                       ++ (if kill_needed (writable sock) p then [pid p] else [])
         ∧ released w' = released w1 ++ [client_after_stop sock c]
         ∧ fst (state nm (q', w')) = Ok POWEROFF).
Proof.
  intros Hst Hne.
  destruct (state_running_inv q w nm st (q1, w1) Hst Hne)
    as (vm & p0 & c0 & c' & sock & t' & Hvm & Hp & Hrun & Hq & Hc & E).
  injection E as -> ->.
  set (vm1 := set_qmp (Some c') (set_process (Some (snd (poll p0))) vm)).
  exists vm1, (snd (poll p0)), c', sock.
  split; [simpl; by rewrite lookup_insert_eq|].
  split; [done|]. split; [done|]. split; [done|].
  intros Hk.
  destruct (vm_stop_clears vm1 (set_now t' w) (snd (poll p0)) c' sock
              eq_refl eq_refl Hc Hk) as (E & Hkl & Hrel & _).
  eexists _, _, (set_qmp None (set_process None vm1)).
  split.
  { unfold stop. unfold mbind at 1, Eff_bind at 1. rewrite Hst.
    rewrite bool_decide_eq_false_2 by done.
    unfold on_machine, _get_vm. cbn [fst vms set_vms].
    rewrite lookup_insert_eq. fold vm1. rewrite E. reflexivity. }
  cbn [fst snd vms set_vms]. rewrite lookup_insert_eq.
  split; [done|]. split; [done|]. split; [done|].
  split; [exact Hkl|]. split; [exact Hrel|].
  erewrite state_eq by (cbn [vms set_vms]; apply lookup_insert_eq).
  by rewrite vm_state_no_process.
Qed.

(** *** A sample machine *)

Definition sample_machine : Machine :=
  {| name := "win10x64_1"; label := "/vms/win10x64_1/disk.qcow2";
     snapshot := "/vms/win10x64_1/memory.snapshot"; architecture := "amd64";
     machine_errors := [] |}.

Definition sample_vm (file_type : string) (p : option Process)
  (c : option QMPClient) : _QEMUMachine :=
  set_qmp c
    (set_process p
       (snapshot_determine_compression file_type
          (new_QEMUMachine sample_machine
             ["-m"; "4096"; "-drive"; "file=%DISPOSABLE_DISK_PATH%,format=qcow2"]
             "/vms/win10x64_1" "/tmp/qemu_win10.sock"))).

Definition sample_qemu (vm : _QEMUMachine) : QEMU :=
  {| vms := {[ "win10x64_1" := vm ]};
     emulator_binaries := [("amd64", "/usr/bin/qemu-system-x86_64");
                           ("x86", "/usr/bin/qemu-system-x86_64")];
     qemu_img := "/usr/bin/qemu-img" |}.

(** A host on which every command succeeds and a started process serves
    the QMP banner. *)
Definition sample_host : Host :=
  {| now := 0; exists_answers := [true; true; true]; qemu_img_ok := true;
     version_output := Some "6.2.0";
     popen := Some (mkProcess 4242 None false 0 "",
                    mkSock true true [Arrives 0 [("QMP", JDict [("version", JStr "6.2.0")])]]
                           [] false);
     spawned := []; deleted := []; killed := []; released := [] |}.

(** A process that keeps running until it is killed. *)
Definition running_process : Process := mkProcess 4242 None false 0 "".

Definition return_status (status : string) : dict :=
  [("return", JDict [("running", JBool false); ("status", JStr status)])].

Lemma state_query_witness :
  let c := connected_client [Arrives 0 (return_status "shutdown")] in
  let vm := sample_vm "QEMU suspend to disk image" (Some running_process) (Some c) in
  let q := sample_qemu vm in
  vms q !! "win10x64_1" = Some vm
  ∧ assoc_get "shutdown" statemapping = None
  ∧ fst (state "win10x64_1" (q, sample_host))
    = Raise (MachineryUnhandledStateError (unhandled_msg (JStr "shutdown")))
  ∧ fst (state "win10x64_1"
           (sample_qemu (sample_vm "QEMU suspend to disk image" None None),
            sample_host)) = Ok POWEROFF.
Proof.
  intros c vm q.
  destruct (state_query q sample_host "win10x64_1" vm eq_refl) as (_ & _ & _ & H).
  specialize (H running_process c "shutdown"
                (fst (snd (query_status (c, 0%N))))
                (snd (snd (query_status (c, 0%N))))
                eq_refl eq_refl eq_refl eq_refl).
  destruct (state_query
              (sample_qemu (sample_vm "QEMU suspend to disk image" None None))
              sample_host "win10x64_1" _ eq_refl) as (H0 & _).
  split; [reflexivity|]. split; [reflexivity|].
  split; [exact (proj1 H) | exact (H0 eq_refl)].
Defined.

(** A process that ignores SIGKILL for longer than [communicate] waits. *)
Definition stuck_process : Process := mkProcess 4242 None true 0 "".

(** A process that exits by itself at its second [poll()]. *)
Definition exiting_process : Process := mkProcess 4242 (Some 2) false 0 "".

Lemma stop_clears_witness :
  let c := connected_client [Arrives 0 (return_status "running")] in
  let vm := sample_vm "QEMU suspend to disk image" (Some running_process) (Some c) in
  let q := sample_qemu vm in
  fst (state "win10x64_1" (q, sample_host)) = Ok RUNNING
  ∧ ∃ q' w' vm',
      stop "win10x64_1" (q, sample_host) = (Ok tt, (q', w'))
      ∧ vms q' !! "win10x64_1" = Some vm'
      ∧ process vm' = None ∧ qmp vm' = None
      ∧ killed w' = [4242]
      ∧ fst (state "win10x64_1" (q', w')) = Ok POWEROFF.
Proof.
  intros c vm q.
  destruct (stop_clears q sample_host "win10x64_1" RUNNING
              (fst (snd (state "win10x64_1" (q, sample_host))))
              (snd (snd (state "win10x64_1" (q, sample_host))))
              eq_refl ltac:(discriminate))
    as (vm1 & p & c1 & sock & H1 & H2 & H3 & H4 & H).
  vm_compute in H1. injection H1 as <-.
  vm_compute in H2. injection H2 as <-.
  vm_compute in H3. injection H3 as <-.
  vm_compute in H4. injection H4 as <-.
  destruct (H (or_introl eq_refl))
    as (q' & w' & vm' & E & Hvm & Hp & Hq & Hk & _ & Hst).
  split; [reflexivity|].
  exists q', w', vm'. repeat split; assumption.
Defined.

(** C8 as stated fails when the forced kill does not take effect: the
    SIGKILL is sent, [communicate] runs into its timeout, and [stop]
    raises a MachineryError before it reaches [clean].  The machine then
    still holds its process handle and its control client, and its state
    query does not answer POWEROFF. *)
Lemma stop_kill_timeout_keeps_references :
  let c := connected_client [Arrives 0 (return_status "running")] in
  let vm := sample_vm "QEMU suspend to disk image" (Some stuck_process) (Some c) in
  let q := sample_qemu vm in
  let after := snd (stop "win10x64_1" (q, sample_host)) in
  fst (state "win10x64_1" (q, sample_host)) = Ok RUNNING
  ∧ fst (stop "win10x64_1" (q, sample_host))
    = Raise (MachineryError
               "Failed to read stderr after sending SIGKILL to process.")
  ∧ killed (snd after) = [4242]
  ∧ (∃ vm', vms (fst after) !! "win10x64_1" = Some vm'
            ∧ process vm' = Some stuck_process ∧ is_Some (qmp vm'))
  ∧ fst (state "win10x64_1" after) ≠ Ok POWEROFF.
Proof.
  vm_compute.
  split; [reflexivity|]. split; [reflexivity|]. split; [reflexivity|].
  split; [|discriminate].
  eexists. split; [reflexivity|]. split; [reflexivity|]. by eexists.
Qed.

(** The graceful path: the quit command is sent, the process exits
    within the polls of the grace window, no SIGKILL is sent, and the
    machine answers POWEROFF afterwards. *)
Example stop_graceful :
  let c := connected_client [Arrives 0 (return_status "running")] in
  let vm := sample_vm "QEMU suspend to disk image" (Some exiting_process) (Some c) in
  let after := snd (stop "win10x64_1" (sample_qemu vm, sample_host)) in
  fst (stop "win10x64_1" (sample_qemu vm, sample_host)) = Ok tt
  ∧ killed (snd after) = []
  ∧ fst (state "win10x64_1" after) = Ok POWEROFF.
Proof. vm_compute. repeat split. Qed.



(* ------------------------------------------------------------------ *)
(** ** qemu.py: the start arguments of a machine                       *)
(* ------------------------------------------------------------------ *)

(** *** Substrings *)

Lemma string_app_cons (x : ascii) (a b : string) :
  String x a +:+ b = String x (a +:+ b).
Proof. reflexivity. Qed.

Lemma string_app_nil_l (b : string) : "" +:+ b = b.
Proof. reflexivity. Qed.

Lemma string_app_assoc (a b c : string) : (a +:+ b) +:+ c = a +:+ (b +:+ c).
Proof.
  induction a as [|x a IH]; [done|]. rewrite !string_app_cons. by rewrite IH.
Qed.

Lemma string_app_nil_r (a : string) : a +:+ "" = a.
Proof.
  induction a as [|x a IH]; [done|]. rewrite string_app_cons. by rewrite IH.
Qed.

Lemma prefix_spec (sub s : string) :
  String.prefix sub s = true ↔ ∃ post, s = sub +:+ post.
Proof.
  revert s. induction sub as [|a sub IH]; intros s.
  - destruct s; split; eauto.
  - destruct s as [|b s]; simpl.
    + split; [done|]. by intros [post [=]].
    + destruct (ascii_dec a b) as [->|Hne].
      * rewrite IH. split; intros [post H]; exists post.
        -- rewrite string_app_cons. congruence.
        -- rewrite string_app_cons in H. congruence.
      * split; [done|]. intros [post H]. rewrite string_app_cons in H.
        congruence.
Qed.

Lemma contains_nil (sub : string) :
  contains sub "" = match sub with "" => true | String _ _ => false end.
Proof. unfold contains. simpl. by destruct sub. Qed.

Lemma contains_cons (sub : string) (b : ascii) (s : string) :
  contains sub (String b s) = String.prefix sub (String b s) || contains sub s.
Proof.
  unfold contains. cbn [String.index].
  destruct (String.prefix sub (String b s)); [done|].
  by destruct (String.index 0 sub s).
Qed.

(** [sub in s] holds exactly when [s] has [sub] inside. *)
Lemma contains_spec (sub s : string) :
  contains sub s = true ↔ ∃ pre post, s = pre +:+ sub +:+ post.
Proof.
  induction s as [|b s IH].
  - rewrite contains_nil. split.
    + destruct sub; [|done]. intros _. by exists "", "".
    + intros (pre & post & H). destruct pre; [|done].
      rewrite string_app_nil_l in H. by destruct sub.
  - rewrite contains_cons, orb_true_iff, prefix_spec, IH. split.
    + intros [[post H]|(pre & post & H)].
      * by exists "", post.
      * exists (String b pre), post. rewrite string_app_cons. by rewrite H.
    + intros (pre & post & H). destruct pre as [|x pre].
      * left. by exists post.
      * right. rewrite string_app_cons in H. injection H as _ H.
        by exists pre, post.
Qed.

Lemma contains_app (sub a s b : string) :
  contains sub s = true → contains sub (a +:+ s +:+ b) = true.
Proof.
  rewrite !contains_spec. intros (pre & post & ->).
  exists (a +:+ pre), (post +:+ b). by rewrite !string_app_assoc.
Qed.

(** The elements of a joined list are inside the result. *)
Lemma join_elem (sep e : string) (l : list string) :
  e ∈ l → ∃ pre post, join sep l = pre +:+ e +:+ post.
Proof.
  induction l as [|x l IH]; intros Hin; [by apply elem_of_nil in Hin|].
  apply elem_of_cons in Hin as [->|Hin].
  - destruct l as [|y l].
    + exists "", "". simpl. by rewrite string_app_nil_r.
    + by exists "", (sep +:+ join sep (y :: l)).
  - destruct (IH Hin) as (pre & post & H).
    destruct l as [|y l]; [by apply elem_of_nil in Hin|].
    exists (x +:+ sep +:+ pre), post.
    change (join sep (x :: y :: l)) with (x +:+ sep +:+ join sep (y :: l)).
    by rewrite H, !string_app_assoc.
Qed.

Lemma contains_join (sub sep e : string) (l : list string) :
  e ∈ l → contains sub e = true → contains sub (join sep l) = true.
Proof.
  intros Hin Hsub. destruct (join_elem sep e l Hin) as (pre & post & ->).
  by apply contains_app.
Qed.

(** A string that starts inside [a] and lies in [a +:+ String c b] lies
    in [a] or runs over the character [c]. *)
Lemma prefix_app_char (sub a : string) (c : ascii) (b post : string) :
  a +:+ String c b = sub +:+ post →
  (∃ post', a = sub +:+ post') ∨ contains (String c "") sub = true.
Proof.
  revert a. induction sub as [|x sub IH]; intros a H.
  - left. by exists a.
  - destruct a as [|y a].
    + rewrite string_app_nil_l, string_app_cons in H. injection H as -> _.
      right. rewrite contains_cons. simpl.
      destruct (ascii_dec x x); [by destruct sub|done].
    + rewrite !string_app_cons in H. injection H as -> H.
      destruct (IH a H) as [[post' ->]|Hc].
      * left. by exists post'.
      * right. rewrite contains_cons, Hc. apply orb_true_r.
Qed.

Lemma contains_app_char (sub a : string) (c : ascii) (b : string) :
  contains sub (a +:+ String c b) = true →
  contains sub a = true ∨ contains sub b = true
  ∨ contains (String c "") sub = true.
Proof.
  rewrite contains_spec. intros (pre & post & H).
  revert a H. induction pre as [|x pre IH]; intros a H.
  - rewrite string_app_nil_l in H.
    destruct (prefix_app_char sub a c b post H) as [[post' ->]|Hc].
    + left. apply contains_spec. by exists "", post'.
    + right. by right.
  - destruct a as [|y a].
    + rewrite string_app_nil_l, string_app_cons in H. injection H as _ ->.
      right. left. apply contains_spec. by exists pre, post.
    + rewrite !string_app_cons in H. injection H as _ H.
      destruct (IH a H) as [Ha|[Hb|Hc]].
      * left. rewrite contains_cons, Ha. apply orb_true_r.
      * right. by left.
      * right. by right.
Qed.

(** A string without the separator that is inside a joined list is
    inside one of its elements. *)
Lemma contains_join_inv (sub : string) (c : ascii) (l : list string) :
  sub ≠ "" → contains (String c "") sub = false →
  contains sub (join (String c "") l) = true →
  ∃ e, e ∈ l ∧ contains sub e = true.
Proof.
  intros Hne Hc. induction l as [|x l IH]; intros H.
  - simpl in H. rewrite contains_nil in H. by destruct sub.
  - destruct l as [|y l].
    + simpl in H. exists x. split; [left|done].
    + change (join (String c "") (x :: y :: l))
        with (x +:+ String c (join (String c "") (y :: l))) in H.
      apply contains_app_char in H as [Hx|[Hl|Hsep]].
      * exists x. split; [left|done].
      * destruct (IH Hl) as (e & He & Hsub). exists e. split; [by right|done].
      * congruence.
Qed.

(** *** [_get_valid_start_args] *)

Definition _ILLEGAL_ARGS : list string :=
  ["-incoming"; "-monitor"; "-qmp"; "-loadvm"; "-no-shutdown"; "-qmp-pretty";
   "-snapshot"].

Section StartArgs.

(** [str(arg)] for a value read from a JSON document.  On a string it
    is the string itself, which is all the results below rely on. *)
Variable py_str : json → string.

(** [_get_valid_start_args] *)
Definition _get_valid_start_args (start_args : json) : result exn (list string) :=
  match start_args with
  | JList (first :: rest) =>
      let start_args := map py_str (first :: rest) in
      if contains "qemu-system" (py_str first)
      then Raise (MachineryError
                    ("start_args must only contain parameters for qemu. Not the "
                     +:+ "qemu binary/command itself. First arg is: "
                     +:+ py_str first))
      else
        let lazystr := join " " start_args in
        if negb (contains _DISPOSABLE_DISK_PLACEHOLDER lazystr)
        then Raise (MachineryError
                      ("start_args must contain disk device that uses the '"
                       +:+ _DISPOSABLE_DISK_PLACEHOLDER +:+ "' placeholder where "
                       +:+ "Cuckoo should insert the disposable disk path."))
        else
          let illegal := filter (λ c, contains c lazystr = true) _ILLEGAL_ARGS in
          match illegal with
          | [] => Ok start_args
          | _ :: _ =>
              Raise (MachineryError
                       ("start_args contains one or more illegal argument. These "
                        +:+ "interfere with how Cuckoo starts the machine. "
                        +:+ "Illegal: " +:+ join " " illegal))
          end
  | _ => Raise (MachineryError "start_args must be a list of strings")
  end.

(** The arguments a start command may be built from. *)
Definition valid_start_args (args : list string) : Prop :=
  (∃ first, head args = Some first ∧ contains "qemu-system" first = false)
  ∧ (∃ a, a ∈ args ∧ contains _DISPOSABLE_DISK_PLACEHOLDER a = true)
  ∧ (∀ a c, a ∈ args → c ∈ _ILLEGAL_ARGS → contains c a = false).

Lemma illegal_args_plain (c : string) :
  c ∈ _ILLEGAL_ARGS → c ≠ "" ∧ contains " " c = false.
Proof.
  unfold _ILLEGAL_ARGS. rewrite !elem_of_cons, elem_of_nil.
  intros [->|[->|[->|[->|[->|[->|[->|[]]]]]]]]; by split.
Qed.

Lemma no_illegal_iff (args : list string) :
  filter (λ c, contains c (join " " args) = true) _ILLEGAL_ARGS = []
  ↔ ∀ a c, a ∈ args → c ∈ _ILLEGAL_ARGS → contains c a = false.
Proof.
  split.
  - intros Hnil a c Ha Hc.
    destruct (contains c a) eqn:Hca; [|done].
    assert (Hin : c ∈ filter (λ c, contains c (join " " args) = true) _ILLEGAL_ARGS).
    { apply list_elem_of_filter. split; [|done]. by eapply contains_join. }
    rewrite Hnil in Hin. by apply elem_of_nil in Hin.
  - intros Hall.
    destruct (filter _ _ILLEGAL_ARGS) as [|c l] eqn:E; [done|].
    assert (Hin : c ∈ filter (λ c, contains c (join " " args) = true) _ILLEGAL_ARGS)
      by (rewrite E; left).
    apply list_elem_of_filter in Hin as [Hjoin Hc].
    destruct (illegal_args_plain c Hc) as [Hne Hsp].
    destruct (contains_join_inv c " " args Hne Hsp Hjoin) as (a & Ha & Hca).
    rewrite (Hall a c Ha Hc) in Hca. done.
Qed.

Lemma _get_valid_start_args_ok (v : json) (args : list string) :
  _get_valid_start_args v = Ok args
  ↔ ∃ l, v = JList l ∧ args = map py_str l ∧ valid_start_args args.
Proof.
  split.
  - destruct v as [| | | |[|first rest]|]; try discriminate. simpl.
    destruct (contains "qemu-system" (py_str first)) eqn:Hq; [discriminate|].
    destruct (contains _DISPOSABLE_DISK_PLACEHOLDER _) eqn:Hp;
      [|discriminate]. simpl.
    destruct (filter _ _ILLEGAL_ARGS) as [|c l] eqn:Hf; [|discriminate].
    intros [= <-]. exists (first :: rest). split; [done|]. split; [done|].
    split; [by exists (py_str first)|]. split.
    + apply (contains_join_inv _ " "); [done|done|exact Hp].
    + apply (no_illegal_iff (py_str first :: map py_str rest)). exact Hf.
  - intros (l & -> & -> & (first & Hhead & Hq) & (a & Ha & Hp) & Hill).
    destruct l as [|x rest]; [discriminate|]. injection Hhead as <-.
    unfold _get_valid_start_args. simpl in Hq. rewrite Hq.
    rewrite (contains_join _ " " a _ Ha Hp). cbn [negb].
    apply no_illegal_iff in Hill. by rewrite Hill.
Qed.

Lemma _get_valid_start_args_raises (v : json) (e : exn) :
  _get_valid_start_args v = Raise e → ∃ msg, e = MachineryError msg.
Proof.
  destruct v as [| | | |[|first rest]|]; simpl;
    try (intros [= <-]; by eexists).
  destruct (contains "qemu-system" (py_str first));
    [intros [= <-]; by eexists|].
  destruct (contains _DISPOSABLE_DISK_PLACEHOLDER _); simpl;
    [|intros [= <-]; by eexists].
  destruct (filter _ _ILLEGAL_ARGS); [discriminate|].
  intros [= <-]; by eexists.
Qed.

(** X9. [_get_valid_start_args] accepts exactly the non-empty lists
    whose arguments, taken as strings, satisfy three conditions: the
    first argument does not name a qemu-system binary, some argument
    holds the placeholder of the disposable disk, and no argument
    contains one of the seven options Cuckoo sets itself (-incoming,
    -monitor, -qmp, -loadvm, -no-shutdown, -qmp-pretty, -snapshot).  It
    then returns the arguments as strings; every rejection is a
    MachineryError. *)
Theorem get_valid_start_args_accepts (v : json) :
  (∀ args,
     _get_valid_start_args v = Ok args
     ↔ ∃ l, v = JList l ∧ args = map py_str l ∧ valid_start_args args)
  ∧ (∀ e, _get_valid_start_args v = Raise e → ∃ msg, e = MachineryError msg).
Proof.
  split.
  - intros args. apply _get_valid_start_args_ok.
  - intros e. apply _get_valid_start_args_raises.
Qed.

End StartArgs.

(** *** The machineinfo file *)

(** What [open(path)] and [json.load] find at a path: no file that can
    be opened, a file that is not JSON, or a document. *)
Inductive file := NoFile | NotJson | Json (v : json).

(** The exceptions of the module, and the [OSError] of [open]. *)
Inductive load_exn :=
| Driver (e : exn)
| OSError (msg : string).

#[export] Instance result_ret {E} : MRet (result E) := λ A a, Ok a.

#[export] Instance result_bind {E} : MBind (result E) :=
  λ A B f m, match m with Ok a => f a | Raise e => Raise e end.

Definition lift {A} (r : result exn A) : result load_exn A :=
  match r with Ok a => Ok a | Raise e => Raise (Driver e) end.

(** [v.get(key)]: only an object has the method. *)
Definition json_get (key : string) (v : json) : result exn (option json) :=
  match v with
  | JDict d => Ok (dict_get key d)
  | _ => Raise (AttributeError "object has no attribute 'get'")
  end.

(** [v.get(key, {})] *)
Definition json_get_or_empty (key : string) (v : json) : result exn json :=
  o ← json_get key v; mret (default (JDict []) o).

(** [key in v]: a key of an object, an element of a list, a part of a
    string; other values are not iterable. *)
Definition json_in (key : string) (v : json) : result exn bool :=
  match v with
  | JDict d => Ok (has_key key d)
  | JList l =>
      Ok (existsb (λ x, match x with
                        | JStr s => bool_decide (s = key)
                        | _ => false
                        end) l)
  | JStr s => Ok (contains key s)
  | _ => Raise (TypeError "argument is not iterable")
  end.

Definition min_keys : list string :=
  ["name"; "ip"; "agent_port"; "os_name"; "os_version"; "architecture";
   "bridge"; "disk"; "memory_snapshot"; "tags"; "start_args"].

(** [for k in min_keys: if k not in machine: missing.append(k)] *)
Fixpoint missing_keys (keys : list string) (machine : json)
  : result exn (list string) :=
  match keys with
  | [] => Ok []
  | k :: keys' =>
      present ← json_in k machine;
      missing ← missing_keys keys' machine;
      mret (if present : bool then missing else k :: missing)
  end.

(** The dict [vmcloak_info_to_machineconf] returns. *)
Record MachineConf := mkMachineConf {
  conf_qcow2_path : string;
  conf_snapshot_path : string;
  conf_machineinfo_path : string;
  conf_ip : json;
  conf_mac_address : option json;
  conf_platform : json;
  conf_os_version : json;
  conf_architecture : json;
  conf_interface : option json;
  conf_agent_port : json;
  conf_tags : json
}.

Section MachineInfo.

Variable py_str : json → string.

(** The files on disk. *)
Variable files : string → file.

(** [str(Path(path).parent.joinpath(name))] and [str(Path(path))] *)
Variable sibling : string → string → string.
Variable path_str : string → string.

(** [with open(path, "r") as fp: json.load(fp)], a decoding error turned
    into a MachineryError. *)
Definition load_machineinfo (path : string) : result load_exn json :=
  match files path with
  | NoFile => Raise (OSError ("No such file or directory: " +:+ path))
  | NotJson => Raise (Driver (MachineryError ("Invalid machineinfo file: " +:+ path)))
  | Json v => Ok v
  end.

(** [_read_start_args] *)
Definition _read_start_args (path : string) : result load_exn (list string) :=
  info ← load_machineinfo path;
  machine ← lift (json_get_or_empty "machine" info);
  if negb (truthy machine)
  then Raise (Driver (MachineryError
                        ("Invalid machineinfo file: " +:+ path
                         +:+ ". Missing key 'machine'")))
  else
    start_args ← lift (json_get_or_empty "start_args" machine);
    if negb (truthy start_args)
    then Raise (Driver (MachineryError
                          ("Invalid machineinfo file: " +:+ path
                           +:+ ". Machine is missing key 'start_args'")))
    else lift (_get_valid_start_args py_str start_args).

(** [machineinfo_path.parent.joinpath(x)] takes a string. *)
Definition joinpath_parent (path : string) (x : json) : result exn string :=
  match x with
  | JStr s => Ok (sibling path s)
  | _ => Raise (TypeError "expected str, bytes or os.PathLike object")
  end.

(** [vmcloak_info_to_machineconf] *)
Definition vmcloak_info_to_machineconf (machineinfo_path : string)
  : result load_exn (MachineConf * json) :=
  machineinfo_dict ← load_machineinfo machineinfo_path;
  machine ← lift (json_get_or_empty "machine" machineinfo_dict);
  if negb (truthy machine)
  then Raise (Driver (MachineryError "Invalid machineinfo: Missing key 'machine'"))
  else
    missing ← lift (missing_keys min_keys machine);
    match missing with
    | _ :: _ =>
        Raise (Driver (MachineryError
                         ("One or more keys are missing: " +:+ join "," missing)))
    | [] =>
        start_args ← lift (json_get "start_args" machine);
        lift (_get_valid_start_args py_str (default JNull start_args));;
        disk ← lift (subscript "disk" machine);
        qcow2_path ← lift (joinpath_parent machineinfo_path disk);
        memory_snapshot ← lift (subscript "memory_snapshot" machine);
        snapshot_path ← lift (joinpath_parent machineinfo_path memory_snapshot);
        ip ← lift (subscript "ip" machine);
        mac ← lift (json_get "mac" machine);
        os_name ← lift (subscript "os_name" machine);
        os_version ← lift (subscript "os_version" machine);
        architecture ← lift (subscript "architecture" machine);
        bridge ← lift (json_get "bridge" machine);
        agent_port ← lift (subscript "agent_port" machine);
        tags ← lift (subscript "tags" machine);
        name ← lift (subscript "name" machine);
        mret ({| conf_qcow2_path := qcow2_path;
                 conf_snapshot_path := snapshot_path;
                 conf_machineinfo_path := path_str machineinfo_path;
                 conf_ip := ip;
                 conf_mac_address := mac;
                 conf_platform := os_name;
                 conf_os_version := os_version;
                 conf_architecture := architecture;
                 conf_interface := bridge;
                 conf_agent_port := agent_port;
                 conf_tags := tags |}, name)
    end.

(** Running a computation that returns or raises. *)
Ltac result_run := unfold mbind, mret, result_bind, result_ret, lift.

(** X10. A machineinfo file that [vmcloak_info_to_machineconf] accepts
    is one from which [_read_start_args] later reads the start
    arguments without error, and they are valid start arguments. *)
Theorem machineconf_start_args_valid (path : string) (conf : MachineConf)
  (name : json) :
  vmcloak_info_to_machineconf path = Ok (conf, name) →
  ∃ args, _read_start_args path = Ok args ∧ valid_start_args args.
Proof.
  intros H. unfold vmcloak_info_to_machineconf, _read_start_args in *.
  unfold load_machineinfo, json_get_or_empty, json_get in *.
  destruct (files path) as [| |info]; try discriminate H.
  result_run. unfold mbind, mret, result_bind, result_ret, lift in H.
  destruct info as [| | | | |doc]; try discriminate H.
  set (machine := default (JDict []) (dict_get "machine" doc)) in *.
  clearbody machine.
  destruct (truthy machine) eqn:Hm; [|discriminate H]. cbn [negb] in *.
  destruct (missing_keys min_keys machine) as [[|k missing]|e];
    try discriminate H.
  destruct machine as [| | | | |d]; try discriminate H.
  destruct (_get_valid_start_args py_str (default JNull (dict_get "start_args" d)))
    as [args|e] eqn:Hv; [|discriminate H].
  clear H.
  apply _get_valid_start_args_ok in Hv as (l & Hl & -> & Hvalid).
  destruct (dict_get "start_args" d) as [sa|]; simpl in Hl; [|discriminate].
  subst sa.
  destruct l as [|first rest].
  { destruct Hvalid as [[f [Hh _]] _]. discriminate. }
  assert (Hok : _get_valid_start_args py_str (JList (first :: rest))
                = Ok (map py_str (first :: rest))).
  { apply _get_valid_start_args_ok. by exists (first :: rest). }
  exists (map py_str (first :: rest)). split; [|done].
  change (default (JDict []) (Some (JList (first :: rest))))
    with (JList (first :: rest)).
  cbn [truthy negb]. by rewrite Hok.
Qed.

End MachineInfo.

(* ------------------------------------------------------------------ *)
(** ** qemu.py: loading the machines                                   *)
(* ------------------------------------------------------------------ *)

(** The entry of a machine in [cfg["machines"]], with the values the
    driver reads.  [v_mac_address] may be [None]. *)
Record MachineValues := mkMachineValues {
  v_ip : string;
  v_qcow2_path : string;
  v_snapshot_path : string;
  v_mac_address : option string;
  v_architecture : string;
  v_machineinfo_path : string
}.

(** The keys whose values must differ between machines. *)
Definition unique_keys : list string :=
  ["ip"; "qcow2_path"; "snapshot_path"; "mac_address"].

(** [values[k]] for these keys. *)
Definition value_of (k : string) (values : MachineValues) : option string :=
  if decide (k = "ip") then Some (v_ip values)
  else if decide (k = "qcow2_path") then Some (v_qcow2_path values)
  else if decide (k = "snapshot_path") then Some (v_snapshot_path values)
  else v_mac_address values.

(** The first loop in the body of [load_machines]:
    [existing.setdefault(k, [])], the membership test, the append. *)
Fixpoint check_unique (nm : string) (keys : list string)
  (values : MachineValues) (existing : gmap string (list (option string)))
  : result exn (gmap string (list (option string))) :=
  match keys with
  | [] => Ok existing
  | k :: keys' =>
      let existing_k := default [] (existing !! k) in
      let k_val := value_of k values in
      if bool_decide (k_val ∈ existing_k)
      then Raise (MachineryError
                    ("Cannot load machine '" +:+ nm +:+ "'. The value for '"
                     +:+ k +:+ "' is already in use for another machine. "
                     +:+ "This must be unique for each machine."))
      else check_unique nm keys' values (<[k := existing_k ++ [k_val]]> existing)
  end.

(** [_make_machine], with the attributes of [Machine] the driver uses. *)
Definition _make_machine (nm : string) (values : MachineValues) : Machine :=
  mkMachine nm (v_qcow2_path values) (v_snapshot_path values)
            (v_architecture values) [].

(** What [load_machines] reads from the configuration and from the
    host. *)
Record LoadEnv := mkLoadEnv {
  disposable_copy_dir : string;         (* cfg["disposable_copy_dir"] *)
  path_parent : string → string;        (* str(Path(p).parent) *)
  access_r : string → bool;             (* os.access(p, os.R_OK) *)
  access_w : string → bool;             (* os.access(p, os.W_OK) *)
  machinery_socket : string → string;   (* UnixSocketPaths.machinery_socket *)
  file_type : string → string;          (* File(p).type *)
  machineinfo_files : string → file
}.

Section LoadMachines.

Variable which : string → option string.
Variable py_str : json → string.
Variable env : LoadEnv.

(** The driver with the list [self.machines]. *)
Definition LoadSt : Type := QEMU * list Machine.

(** The body of the loop of [load_machines] for one machine; the result
    is the dict [existing]. *)
Definition load_machine (existing : gmap string (list (option string)))
  (nm : string) (values : MachineValues)
  : Eff LoadSt load_exn (gmap string (list (option string))) :=
  λ s : LoadSt,
    match check_unique nm unique_keys values existing with
    | Raise e => (Raise (Driver e), s)
    | Ok existing =>
        let disposables_dir :=
          str_or (disposable_copy_dir env) (path_parent env (v_qcow2_path values)) in
        if negb (access_r env disposables_dir) && access_w env disposables_dir
        then (Raise (Driver (MachineryError
                               ("The directory used for disposable copies of the "
                                +:+ "qcow2_path is not readable and writable."
                                +:+ "Path: " +:+ disposables_dir +:+ "."))), s)
        else
          match assoc_get (v_architecture values) (emulator_binaries (fst s)) with
          | None =>
              (Raise (Driver (MachineryError
                                ("Machine '" +:+ nm +:+ "' CPU architecture ("
                                 +:+ v_architecture values +:+ ") not supported."))),
               s)
          | Some _ =>
              let machine := _make_machine nm values in
              match _read_start_args py_str (machineinfo_files env)
                                     (v_machineinfo_path values) with
              | Raise e => (Raise e, s)
              | Ok args =>
                  let qemu_machine :=
                    snapshot_determine_compression
                      (file_type env (snapshot machine))
                      (new_QEMUMachine machine args disposables_dir
                                       (machinery_socket env nm)) in
                  let accept :=
                    (Ok existing,
                     (set_vms (<[nm := qemu_machine]>) (fst s),
                      snd s ++ [machine])) in
                  if snapshot_compressed qemu_machine then
                    let compress_type := snapshot_compression qemu_machine in
                    if negb (str_truthy compress_type)
                    then (Raise (Driver (MachineryError
                                   ("QEMU memory snapshot of machine '" +:+ nm
                                    +:+ "' is of unknown filetype or compressed "
                                    +:+ "with unsupported compression."))), s)
                    else if negb (str_truthy (decompress_binary which compress_type))
                    then (Raise (Driver (MachineryError
                                   ("Memory snapshot of machine '" +:+ nm
                                    +:+ "' is compressed, but the binary path for "
                                    +:+ "this compression was not found."))), s)
                    else accept
                  else accept
              end
          end
    end.

(** The loop over [cfg["machines"].items()]. *)
Fixpoint load_loop (existing : gmap string (list (option string)))
  (cfg : list (string * MachineValues)) : Eff LoadSt load_exn unit :=
  match cfg with
  | [] => mret tt
  | (nm, values) :: cfg' =>
      existing ← load_machine existing nm values;
      load_loop existing cfg'
  end.

(** [load_machines] *)
Definition load_machines (cfg : list (string * MachineValues))
  : Eff LoadSt load_exn unit :=
  load_loop ∅ cfg.

End LoadMachines.

(** *** What an accepted configuration guarantees *)

Lemma check_unique_ok nm keys values : ∀ existing existing',
  NoDup keys →
  check_unique nm keys values existing = Ok existing' →
  ∀ k, (k ∈ keys → value_of k values ∉ default [] (existing !! k))
       ∧ default [] (existing' !! k)
         = default [] (existing !! k)
           ++ (if decide (k ∈ keys) then [value_of k values] else []).
Proof.
  induction keys as [|k0 keys IH]; intros existing existing' Hnd H k.
  - simpl in H. injection H as <-. split; [by intros ?%elem_of_nil|].
    rewrite decide_False by apply not_elem_of_nil. by rewrite app_nil_r.
  - apply NoDup_cons in Hnd as [Hk0 Hnd]. simpl in H.
    case_bool_decide as Hin; [discriminate|].
    destruct (IH _ _ Hnd H k) as [Hfresh Hnew].
    destruct (decide (k = k0)) as [->|Hne].
    + rewrite lookup_insert_eq in Hnew. simpl in Hnew.
      rewrite decide_False in Hnew by done. rewrite app_nil_r in Hnew.
      split; [done|]. rewrite decide_True by left. done.
    + rewrite lookup_insert_ne in Hfresh, Hnew by done. split.
      * intros [?|?]%elem_of_cons; [done|]. by apply Hfresh.
      * rewrite Hnew. destruct (decide (k ∈ keys)) as [Hk|Hk].
        -- rewrite decide_True by (by right). done.
        -- rewrite decide_False; [done|]. by intros [?|?]%elem_of_cons.
Qed.

Lemma NoDup_unique_keys : NoDup unique_keys.
Proof.
  unfold unique_keys. repeat (apply NoDup_cons; split);
    rewrite ?elem_of_cons, ?elem_of_nil; try (intros H; intuition discriminate).
  apply NoDup_nil. done.
Qed.

Section LoadFacts.

Variable which : string → option string.
Variable py_str : json → string.
Variable env : LoadEnv.

(** The start command of the machine can be built, whatever the
    emulator, the disk and the version are. *)
Definition startable (vm : _QEMUMachine) : Prop :=
  ∀ emulator_path disposable_disk_path emulator_version,
    ∃ cmd, _make_command which vm emulator_path disposable_disk_path
                         emulator_version = Ok cmd.

(** What [load_machines] has checked of a machine it stored. *)
Definition loaded (q : QEMU) (nm : string) (values : MachineValues)
  (vm : _QEMUMachine) : Prop :=
  machine vm = _make_machine nm values
  ∧ never_started vm
  ∧ is_Some (assoc_get (architecture (machine vm)) (emulator_binaries q))
  ∧ valid_start_args (start_args vm)
  ∧ startable vm.

Lemma decompress_binary_command (t : option string) :
  str_truthy (decompress_binary which t) = true →
  ∃ c cs, decompress_command t = Some (String c cs).
Proof.
  destruct t as [t|]; [|done]. unfold decompress_binary, decompress_command.
  simpl. repeat case_decide; subst; try done; by eexists _, _.
Qed.

Lemma startable_uncompressed vm : snapshot_compressed vm = false → startable vm.
Proof.
  intros Hc e d v. unfold _make_command. rewrite Hc. by eexists.
Qed.

Lemma startable_compressed vm :
  str_truthy (decompress_binary which (snapshot_compression vm)) = true →
  startable vm.
Proof.
  intros Hb e d v. unfold _make_command.
  destruct (decompress_binary_command _ Hb) as (c & cs & ->).
  destruct (decompress_binary which (snapshot_compression vm)) as [[|b bs]|];
    try done.
  destruct (snapshot_compressed vm); by eexists.
Qed.

Lemma load_machine_ok existing nm values s existing' s' :
  load_machine which py_str env existing nm values s = (Ok existing', s') →
  check_unique nm unique_keys values existing = Ok existing'
  ∧ ∃ vm, s' = (set_vms (<[nm := vm]>) (fst s), snd s ++ [_make_machine nm values])
          ∧ loaded (fst s) nm values vm.
Proof.
  unfold load_machine.
  destruct (check_unique nm unique_keys values existing) as [ex|e];
    [|discriminate].
  destruct (negb _ && _); [discriminate|].
  destruct (assoc_get (v_architecture values) (emulator_binaries (fst s)))
    as [bin|] eqn:Hbin; [|discriminate].
  destruct (_read_start_args py_str (machineinfo_files env)
              (v_machineinfo_path values)) as [args|e] eqn:Hargs;
    [|discriminate].
  set (vm := snapshot_determine_compression _ _).
  assert (Hbase : machine vm = _make_machine nm values ∧ never_started vm
                  ∧ start_args vm = args).
  { unfold vm, snapshot_determine_compression.
    repeat (match goal with |- context [if ?b then _ else _] => destruct b end);
      by repeat split. }
  destruct Hbase as (Hm & Hns & Hsa).
  assert (Hvalid : valid_start_args args).
  { revert Hargs. unfold _read_start_args, load_machineinfo.
    destruct (machineinfo_files env (v_machineinfo_path values)) as [| |info];
      try discriminate.
    unfold mbind, mret, result_bind, result_ret.
    destruct (lift (json_get_or_empty "machine" info)) as [m|e];
      [|discriminate].
    destruct (negb (truthy m)); [discriminate|].
    destruct (lift (json_get_or_empty "start_args" m)) as [sa|e];
      [|discriminate].
    destruct (negb (truthy sa)); [discriminate|].
    unfold lift.
    destruct (_get_valid_start_args py_str sa) as [a|e] eqn:Hv; [|discriminate].
    intros [= <-]. apply _get_valid_start_args_ok in Hv as (l & _ & _ & Hv).
    exact Hv. }
  assert (Hloaded : startable vm → loaded (fst s) nm values vm).
  { intros Hst. split; [done|]. split; [done|].
    split; [rewrite Hm; simpl; by rewrite Hbin|].
    split; [by rewrite Hsa|done]. }
  destruct (snapshot_compressed vm) eqn:Hc.
  - destruct (str_truthy (snapshot_compression vm)); [|discriminate].
    destruct (str_truthy (decompress_binary which (snapshot_compression vm)))
      eqn:Hb; [|discriminate].
    cbn [negb]. intros [= <- <-]. split; [done|]. exists vm.
    split; [done|]. by apply Hloaded, startable_compressed.
  - intros [= <- <-]. split; [done|]. exists vm.
    split; [done|]. by apply Hloaded, startable_uncompressed.
Qed.

Lemma loaded_ext q q' nm values vm :
  emulator_binaries q' = emulator_binaries q →
  loaded q nm values vm → loaded q' nm values vm.
Proof.
  intros Hq (H1 & H2 & H3 & H4 & H5). unfold loaded. rewrite Hq. done.
Qed.

(** The dict [existing] holds, for each of the four keys, the values of
    the machines handled so far. *)
Definition seen (existing : gmap string (list (option string)))
  (processed : list MachineValues) : Prop :=
  ∀ k, k ∈ unique_keys → default [] (existing !! k) = map (value_of k) processed.

Lemma load_loop_ok cfg : ∀ existing processed s s',
  seen existing processed →
  load_loop which py_str env existing cfg s = (Ok tt, s') →
  (∀ k, k ∈ unique_keys → NoDup (map (value_of k) processed) →
        NoDup (map (value_of k) (processed ++ map snd cfg)))
  ∧ snd s' = snd s ++ map (λ nv, _make_machine (fst nv) (snd nv)) cfg
  ∧ emulator_binaries (fst s') = emulator_binaries (fst s)
  ∧ (∀ nm, is_Some (vms (fst s) !! nm) → is_Some (vms (fst s') !! nm))
  ∧ (∀ nm values, (nm, values) ∈ cfg → is_Some (vms (fst s') !! nm))
  ∧ (∀ nm vm, vms (fst s') !! nm = Some vm →
       vms (fst s) !! nm = Some vm
       ∨ ∃ values, (nm, values) ∈ cfg ∧ loaded (fst s) nm values vm).
Proof.
  induction cfg as [|[nm values] cfg IH]; intros existing processed s s' Hseen Hrun.
  - simpl in Hrun. injection Hrun as <-. simpl. rewrite !app_nil_r.
    split; [done|]. split; [done|]. split; [done|]. split; [done|].
    split; [by intros ? ? ?%elem_of_nil|]. intros. by left.
  - simpl in Hrun. unfold mbind, Eff_bind in Hrun.
    destruct (load_machine which py_str env existing nm values s)
      as [[existing1|e] s1] eqn:E1; [|discriminate].
    apply load_machine_ok in E1 as (Hchk & vm & -> & Hvm).
    pose proof (check_unique_ok nm unique_keys values existing existing1
                  NoDup_unique_keys Hchk) as Hu.
    assert (Hseen1 : seen existing1 (processed ++ [values])).
    { intros k Hk. destruct (Hu k) as [_ ->]. rewrite decide_True by done.
      rewrite (Hseen k Hk). by rewrite map_app. }
    destruct (IH existing1 (processed ++ [values]) _ s' Hseen1 Hrun)
      as (Hnd & Hms & Hbin & Hmono & Hall & Hvms).
    simpl in Hms, Hbin, Hvms.
    split.
    { intros k Hk Hp. rewrite <- app_assoc in Hnd. apply (Hnd k Hk).
      rewrite map_app. simpl. apply NoDup_app. split; [done|].
      split; [|apply NoDup_singleton].
      intros x Hx ->%list_elem_of_singleton.
      destruct (Hu k) as [Hfresh _]. apply (Hfresh Hk).
      by rewrite (Hseen k Hk). }
    split; [by rewrite Hms, <- app_assoc|]. split; [done|].
    split.
    { intros nm' Hs. apply Hmono. simpl.
      destruct (decide (nm' = nm)) as [->|Hne].
      - by rewrite lookup_insert_eq.
      - by rewrite lookup_insert_ne. }
    split.
    { intros nm' values' [[= -> ->]|Hin]%elem_of_cons; [|by eapply Hall].
      apply Hmono. simpl. by rewrite lookup_insert_eq. }
    intros nm' vm' Hl. destruct (Hvms nm' vm' Hl) as [Hold|(values' & Hin & Hld)].
    + destruct (decide (nm' = nm)) as [->|Hne].
      * rewrite lookup_insert_eq in Hold. injection Hold as <-.
        right. exists values. split; [left|done].
      * rewrite lookup_insert_ne in Hold by done. by left.
    + right. exists values'. split; [by right|].
      by eapply loaded_ext; [|exact Hld].
Qed.

Lemma seen_empty : seen ∅ [].
Proof. intros k _. by rewrite lookup_empty. Qed.

Lemma NoDup_some_field {A} (f : MachineValues → A) (k : string)
  (l : list MachineValues) (g : A → option string) :
  Inj (=) (=) g → (∀ v, value_of k v = g (f v)) →
  NoDup (map (value_of k) l) → NoDup (map f l).
Proof.
  intros Hinj Hk Hnd.
  assert (E : map (value_of k) l = map g (map f l)).
  { rewrite map_map. apply map_ext. exact Hk. }
  rewrite E in Hnd. by apply NoDup_fmap in Hnd.
Qed.

(** X11. When [load_machines] returns, no two configured machines
    share an IP address, a disk image, a memory snapshot or a MAC
    address; a MAC address that is not set counts as a value, so at
    most one machine can be without one. *)
Theorem load_machines_unique (cfg : list (string * MachineValues))
  (s s' : LoadSt) :
  load_machines which py_str env cfg s = (Ok tt, s') →
  NoDup (map v_ip (map snd cfg))
  ∧ NoDup (map v_qcow2_path (map snd cfg))
  ∧ NoDup (map v_snapshot_path (map snd cfg))
  ∧ NoDup (map v_mac_address (map snd cfg)).
Proof.
  intros Hrun. unfold load_machines in Hrun.
  destruct (load_loop_ok cfg ∅ [] s s' seen_empty Hrun) as (Hnd & _).
  simpl in Hnd.
  assert (Hk : ∀ k, k ∈ unique_keys → NoDup (map (value_of k) (map snd cfg))).
  { intros k Hk. apply (Hnd k Hk). apply NoDup_nil. done. }
  unfold unique_keys in Hk.
  split; [|split; [|split]].
  - apply (NoDup_some_field v_ip "ip" _ Some); [apply _|done|].
    apply Hk. rewrite !elem_of_cons. tauto.
  - apply (NoDup_some_field v_qcow2_path "qcow2_path" _ Some); [apply _|done|].
    apply Hk. rewrite !elem_of_cons. tauto.
  - apply (NoDup_some_field v_snapshot_path "snapshot_path" _ Some);
      [apply _|done|].
    apply Hk. rewrite !elem_of_cons. tauto.
  - apply (NoDup_some_field v_mac_address "mac_address" _ id); [apply _|done|].
    apply Hk. rewrite !elem_of_cons. tauto.
Qed.

(** X12. When [load_machines] returns on a driver that had no machine,
    [self.machines] has gained one machine per configured entry, in
    order, every configured name has a machine in [self.vms], and every
    machine in [self.vms] is ready to be started: it has no process and
    no control client, its architecture has an emulator binary, its
    start arguments are valid, and its start command can be built - the
    snapshot is uncompressed, or compressed with a codec whose
    decompressor is installed. *)
Theorem load_machines_startable (cfg : list (string * MachineValues))
  (q0 q : QEMU) (ms0 ms : list Machine) :
  load_machines which py_str env cfg (q0, ms0) = (Ok tt, (q, ms)) →
  vms q0 = ∅ →
  ms = ms0 ++ map (λ nv, _make_machine (fst nv) (snd nv)) cfg
  ∧ (∀ nm values, (nm, values) ∈ cfg → is_Some (vms q !! nm))
  ∧ ∀ nm vm, vms q !! nm = Some vm →
      ∃ values, (nm, values) ∈ cfg ∧ loaded q nm values vm.
Proof.
  intros Hrun Hempty. unfold load_machines in Hrun.
  destruct (load_loop_ok cfg ∅ [] _ _ seen_empty Hrun)
    as (_ & Hms & Hbin & _ & Hall & Hvms).
  simpl in *. split; [done|]. split; [done|].
  intros nm vm Hl. destruct (Hvms nm vm Hl) as [Hold|(values & Hin & Hld)].
  - by rewrite Hempty, lookup_empty in Hold.
  - exists values. split; [done|]. by eapply loaded_ext; [|exact Hld].
Qed.

End LoadFacts.

(** *** A sample configuration *)

Definition sample_machineinfo : json :=
  JDict [("machine",
          JDict [("name", JStr "win10x64_1"); ("ip", JStr "192.168.30.10");
                 ("agent_port", JNum 8000); ("os_name", JStr "windows");
                 ("os_version", JStr "10"); ("architecture", JStr "amd64");
                 ("bridge", JStr "br0"); ("disk", JStr "disk.qcow2");
                 ("memory_snapshot", JStr "memory.snapshot");
                 ("tags", JList []);
                 ("start_args",
                  JList [JStr "-m"; JStr "4096"; JStr "-drive";
                         JStr "file=%DISPOSABLE_DISK_PATH%,format=qcow2"])])].

Definition sample_files (path : string) : file :=
  if decide (path = "/vms/win10x64_1/machineinfo.json")
  then Json sample_machineinfo else NoFile.

Definition sample_env : LoadEnv :=
  {| disposable_copy_dir := "";
     path_parent := λ _, "/vms/win10x64_1";
     access_r := λ _, true;
     access_w := λ _, true;
     machinery_socket := λ nm, "/tmp/qemu_" +:+ nm +:+ ".sock";
     file_type := λ _, "QEMU suspend to disk image";
     machineinfo_files := sample_files |}.

Definition sample_values (n : string) : MachineValues :=
  {| v_ip := "192.168.30.1" +:+ n;
     v_qcow2_path := "/vms/win10x64_1/disk" +:+ n +:+ ".qcow2";
     v_snapshot_path := "/vms/win10x64_1/memory" +:+ n +:+ ".snapshot";
     v_mac_address := Some ("52:54:00:12:34:5" +:+ n);
     v_architecture := "amd64";
     v_machineinfo_path := "/vms/win10x64_1/machineinfo.json" |}.

Definition sample_cfg : list (string * MachineValues) :=
  [("win10x64_1", sample_values "1"); ("win10x64_2", sample_values "2")].

Definition empty_qemu : QEMU :=
  {| vms := ∅;
     emulator_binaries := [("amd64", "/usr/bin/qemu-system-x86_64");
                           ("x86", "/usr/bin/qemu-system-x86_64")];
     qemu_img := "/usr/bin/qemu-img" |}.

Definition no_which : string → option string := λ _, None.

Lemma machineconf_start_args_valid_witness :
  ∃ args,
    _read_start_args json_str sample_files "/vms/win10x64_1/machineinfo.json"
    = Ok args
    ∧ valid_start_args args.
Proof.
  destruct (vmcloak_info_to_machineconf json_str sample_files
              (λ _ n, "/vms/win10x64_1/" +:+ n) id
              "/vms/win10x64_1/machineinfo.json")
    as [[conf nm]|e] eqn:E; [|vm_compute in E; discriminate E].
  exact (machineconf_start_args_valid _ _ _ _ _ _ _ E).
Defined.

Lemma load_machines_unique_witness :
  ∃ s', load_machines no_which json_str sample_env sample_cfg (empty_qemu, [])
        = (Ok tt, s')
        ∧ NoDup (map v_ip (map snd sample_cfg))
        ∧ NoDup (map v_mac_address (map snd sample_cfg)).
Proof.
  destruct (load_machines no_which json_str sample_env sample_cfg (empty_qemu, []))
    as [[[]|e] s'] eqn:E; [|vm_compute in E; discriminate E].
  exists s'. split; [reflexivity|].
  destruct (load_machines_unique _ _ _ _ _ _ E) as (Hip & _ & _ & Hmac).
  split; [exact Hip|exact Hmac].
Defined.

Lemma load_machines_startable_witness :
  ∃ q ms,
    load_machines no_which json_str sample_env sample_cfg (empty_qemu, [])
    = (Ok tt, (q, ms))
    ∧ length ms = 2
    ∧ ∀ nm vm, vms q !! nm = Some vm →
        ∃ values, (nm, values) ∈ sample_cfg ∧ loaded no_which q nm values vm.
Proof.
  destruct (load_machines no_which json_str sample_env sample_cfg (empty_qemu, []))
    as [[[]|e] [q ms]] eqn:E; [|vm_compute in E; discriminate E].
  exists q, ms. split; [reflexivity|].
  destruct (load_machines_startable _ _ _ _ _ _ _ _ E eq_refl) as (Hms & _ & Hvms).
  split; [by rewrite Hms|exact Hvms].
Defined.

(* ------------------------------------------------------------------ *)
(** ** qemu.py: the command for a QEMU version                         *)
(* ------------------------------------------------------------------ *)

Section FindCommand.

(** Version objects ([pkg_resources.parse_version]) with their order;
    [le a b] is [a <= b].  A version object is truthy. *)
Context {V : Type} `{EqDecision V}.
Variable le : V → V → bool.

(** The dict given to [_find_command]: its ["versions"] dict and its
    ["default"] entry, each of which may be absent. *)
Record PlatformArch := mkPlatformArch {
  pa_versions : option (list (V * list string));
  pa_default : option V
}.

(** [sorted(keys, reverse=True)]: the keys in descending order. *)
Fixpoint insert_desc (v : V) (l : list V) : list V :=
  match l with
  | [] => [v]
  | x :: l' => if le x v then v :: x :: l' else x :: insert_desc v l'
  end.

Definition sorted_desc (l : list V) : list V := foldr insert_desc [] l.

(** The [for] loop: the first version, in that order, that
    [qemu_version] is not below. *)
Fixpoint first_le (qemu_version : V) (l : list V) : option V :=
  match l with
  | [] => None
  | version :: l' =>
      if le version qemu_version then Some version
      else first_le qemu_version l'
  end.

(** [d[key]] *)
Fixpoint version_get (key : V) (d : list (V * list string))
  : option (list string) :=
  match d with
  | [] => None
  | (k, v) :: d' => if decide (k = key) then Some v else version_get key d'
  end.

(** [platform_architecture_dict["versions"]] *)
Definition versions_of (d : PlatformArch) : result exn (list (V * list string)) :=
  match pa_versions d with
  | Some vs => Ok vs
  | None => Raise (KeyError "versions")
  end.

(** [_find_command]; [qemu_version] is [None] for the empty string that
    stands for an unknown version. *)
Definition _find_command (qemu_version : option V) (d : PlatformArch)
  : result exn (list string) :=
  selected ←
    match qemu_version with
    | Some qv => vs ← versions_of d; mret (first_le qv (sorted_desc (map fst vs)))
    | None => mret None
    end;
  match opt_or selected (pa_default d) with
  | None => mret []
  | Some selected =>
      vs ← versions_of d;
      match version_get selected vs with
      | Some cmd => mret cmd
      | None => Raise (KeyError "selected version")
      end
  end.

Hypothesis le_total : ∀ a b, le a b = true ∨ le b a = true.
Hypothesis le_trans : ∀ a b c, le a b = true → le b c = true → le a c = true.
Hypothesis le_antisym : ∀ a b, le a b = true → le b a = true → a = b.

Fixpoint desc (l : list V) : Prop :=
  match l with
  | [] => True
  | x :: l' => (∀ y, y ∈ l' → le y x = true) ∧ desc l'
  end.

Lemma elem_of_insert_desc v l y : y ∈ insert_desc v l ↔ y = v ∨ y ∈ l.
Proof.
  induction l as [|x l IH]; simpl.
  - rewrite elem_of_cons, elem_of_nil. tauto.
  - destruct (le x v); rewrite !elem_of_cons, ?IH; tauto.
Qed.

Lemma desc_insert_desc v l : desc l → desc (insert_desc v l).
Proof.
  induction l as [|x l IH]; simpl; intros Hd.
  - split; [by intros ? ?%elem_of_nil|done].
  - destruct Hd as [Hx Hd]. destruct (le x v) eqn:Hxv; simpl.
    + split; [|done]. intros y [->|Hy]%elem_of_cons; [done|].
      eapply le_trans; [by apply Hx|done].
    + split; [|by apply IH].
      intros y [->|Hy]%elem_of_insert_desc; [|by apply Hx].
      destruct (le_total x v) as [H1|H1]; [congruence|done].
Qed.

Lemma desc_sorted_desc l : desc (sorted_desc l).
Proof.
  induction l as [|x l IH]; simpl; [done|]. by apply desc_insert_desc.
Qed.

Lemma elem_of_sorted_desc l y : y ∈ sorted_desc l ↔ y ∈ l.
Proof.
  induction l as [|x l IH]; simpl; [done|].
  rewrite elem_of_insert_desc, elem_of_cons, IH. tauto.
Qed.

Lemma first_le_desc qv l :
  desc l →
  match first_le qv l with
  | Some x => x ∈ l ∧ le x qv = true ∧ ∀ y, y ∈ l → le y qv = true → le y x = true
  | None => ∀ y, y ∈ l → le y qv = false
  end.
Proof.
  induction l as [|x l IH]; simpl; intros Hd.
  - by intros ? ?%elem_of_nil.
  - destruct Hd as [Hx Hd]. destruct (le x qv) eqn:Hxq.
    + split; [left|]. split; [done|].
      intros y [->|Hy]%elem_of_cons _; [|by apply Hx].
      destruct (le_total x x); done.
    + specialize (IH Hd). destruct (first_le qv l) as [z|].
      * destruct IH as (Hz & Hzq & Hmax). split; [by right|]. split; [done|].
        intros y [->|Hy]%elem_of_cons Hyq; [congruence|by apply Hmax].
      * intros y [->|Hy]%elem_of_cons; [done|by apply IH].
Qed.

Lemma version_get_is_Some key d :
  key ∈ map fst d → is_Some (version_get key d).
Proof.
  induction d as [|[k v] d IH]; simpl; [by intros ?%elem_of_nil|].
  intros [->|Hin]%elem_of_cons.
  - rewrite decide_True by done. by eexists.
  - case_decide; [by eexists|by apply IH].
Qed.

(** X13. For a known QEMU version, [_find_command] returns the command
    of the newest configured version that is not newer than the QEMU
    version.  When no configured version qualifies, or the QEMU
    version is unknown, it returns what it returns for the default
    version: the command of the version named by ["default"], and the
    empty list when there is no ["default"] entry. *)
Theorem find_command_newest (qv : V) (d : PlatformArch)
  (vs : list (V * list string)) :
  pa_versions d = Some vs →
  (∀ k, k ∈ map fst vs → le k qv = true →
        (∀ k', k' ∈ map fst vs → le k' qv = true → le k' k = true) →
        ∃ cmd, version_get k vs = Some cmd
               ∧ _find_command (Some qv) d = Ok cmd)
  ∧ ((∀ k, k ∈ map fst vs → le k qv = false) →
     _find_command (Some qv) d = _find_command None d)
  ∧ _find_command None d
    = match pa_default d with
      | None => Ok []
      | Some v => match version_get v vs with
                  | Some cmd => Ok cmd
                  | None => Raise (KeyError "selected version")
                  end
      end.
Proof.
  intros Hvs.
  pose proof (first_le_desc qv (sorted_desc (map fst vs))
                (desc_sorted_desc _)) as Hfirst.
  unfold _find_command, versions_of. rewrite Hvs.
  unfold mbind, mret, result_bind, result_ret.
  split; [|split].
  - intros k Hk Hkq Hmax.
    destruct (first_le qv (sorted_desc (map fst vs))) as [x|].
    + destruct Hfirst as (Hx & Hxq & Hxmax).
      apply (proj1 (elem_of_sorted_desc _ _)) in Hx.
      assert (x = k) as ->.
      { apply le_antisym; [by apply Hmax|].
        apply Hxmax; [by apply elem_of_sorted_desc|done]. }
      destruct (version_get_is_Some k vs Hk) as [cmd Hcmd].
      exists cmd. simpl. by rewrite Hcmd.
    + rewrite Hfirst in Hkq by (by apply elem_of_sorted_desc). done.
  - intros Hnone.
    destruct (first_le qv (sorted_desc (map fst vs))) as [x|]; [|done].
    destruct Hfirst as (Hx & Hxq & _).
    apply (proj1 (elem_of_sorted_desc _ _)) in Hx.
    rewrite (Hnone x Hx) in Hxq. done.
  - simpl. by destruct (pa_default d).
Qed.

End FindCommand.

End Qemu.
